(** * Locator resolution and command-outcome classification of gdrive-cli

    A shallow embedding of [gdrive_cli/ids.py] (the locator resolver) and of
    [gdrive_cli/cli.py] (the [command_errors] wrapper, the [doctor] command
    and the commands that resolve a locator), with [gdrive_cli/paths.py]
    and [gdrive_cli/client.py], which they call, together with the parts of
    the Python runtime they use ([str] methods, [re], [urllib.parse]).

    Conventions.
    - A Python [str] is a [string]: a sequence of code points below 256
      (Latin-1); the development says nothing about text beyond that range.
      [bytes] are [string]s too.
    - [None] is [None]; an index result of [-1] ([str.find]) is [None].
    - A raised exception is the [Raise] outcome; nothing is caught unless the
      source has an [except] clause for it.
    - What lies outside the repository and cannot be computed here (the
      validation of IP literals, the JSON decoder, the credential store, the
      remote API, the file system) is a parameter: a class whose instance
      every statement quantifies over.
    - A [Path] is held as its text, [str(path)].  What [pathlib] computes
      from the environment (the home directory, [expanduser], a join) is a
      parameter too, and fails the way [pathlib] does.  A destination is
      kept as the text it was given, which is [str(Path(text))] for a text
      without separator: the statements about a printed destination are
      made for such texts. *)

From Stdlib Require Import String Ascii List ZArith NArith Lia Bool.
From Stdlib Require Import DecimalString.
From Stdlib Require PrimFloat.
From stdpp Require Import gmap strings.

Set Warnings "-register-all".

(** ** Python [str] methods *)

Module Str.

Definition code (c : ascii) : N := N_of_ascii c.

Definition in_range (lo hi : N) (c : ascii) : bool :=
  ((lo <=? code c) && (code c <=? hi))%N.

Definition is_upper (c : ascii) : bool := in_range 65 90 c.
Definition is_lower (c : ascii) : bool := in_range 97 122 c.
Definition is_digit (c : ascii) : bool := in_range 48 57 c.

(** [c.isascii() and c.isalpha()] *)
Definition is_ascii_alpha (c : ascii) : bool := is_upper c || is_lower c.

(** [c.isspace()] on Latin-1: TAB..CR, FS..US, SPACE, NEL and NBSP. *)
Definition isspace (c : ascii) : bool :=
  in_range 9 13 c || in_range 28 32 c || (code c =? 133)%N || (code c =? 160)%N.

(** [c.lower()] on Latin-1: A-Z and the accented capitals except the
    multiplication sign move up by 32. *)
Definition lower_char (c : ascii) : ascii :=
  if is_upper c || (in_range 192 222 c && negb (code c =? 215)%N)
  then ascii_of_N (code c + 32) else c.

Fixpoint lower (s : string) : string :=
  match s with
  | EmptyString => EmptyString
  | String c s' => String (lower_char c) (lower s')
  end.

Fixpoint all (p : ascii -> bool) (s : string) : bool :=
  match s with
  | EmptyString => true
  | String c s' => p c && all p s'
  end.

Fixpoint take_while (p : ascii -> bool) (s : string) : string :=
  match s with
  | EmptyString => EmptyString
  | String c s' => if p c then String c (take_while p s') else EmptyString
  end.

(** [s.lstrip(chars)], the characters given as a predicate *)
Fixpoint lstrip (p : ascii -> bool) (s : string) : string :=
  match s with
  | EmptyString => EmptyString
  | String c s' => if p c then lstrip p s' else s
  end.

(** [s.rstrip(chars)] *)
Fixpoint rstrip (p : ascii -> bool) (s : string) : string :=
  match s with
  | EmptyString => EmptyString
  | String c s' =>
      match rstrip p s' with
      | EmptyString => if p c then EmptyString else String c EmptyString
      | r => String c r
      end
  end.

(** [s.strip()] *)
Definition strip (s : string) : string := rstrip isspace (lstrip isspace s).

(** [s[:n]] *)
Fixpoint take (n : nat) (s : string) : string :=
  match n, s with
  | S n', String c s' => String c (take n' s')
  | _, _ => EmptyString
  end.

(** [s[n:]] *)
Fixpoint drop (n : nat) (s : string) : string :=
  match n, s with
  | S n', String _ s' => drop n' s'
  | _, _ => s
  end.

(** [s.find(c)]: the index of the first [c]; [None] stands for [-1]. *)
Fixpoint find (c : ascii) (s : string) : option nat :=
  match s with
  | EmptyString => None
  | String a s' => if Ascii.eqb a c then Some 0 else option_map S (find c s')
  end.

(** [s.find(c, start)] *)
Definition find_from (c : ascii) (start : nat) (s : string) : option nat :=
  if Nat.leb start (String.length s)
  then option_map (Nat.add start) (find c (drop start s))
  else None.

(** [s.rfind(c)] *)
Fixpoint rfind (c : ascii) (s : string) : option nat :=
  match s with
  | EmptyString => None
  | String a s' =>
      match rfind c s' with
      | Some i => Some (S i)
      | None => if Ascii.eqb a c then Some 0 else None
      end
  end.

(** [c in s] for a single character *)
Definition has_char (c : ascii) (s : string) : bool :=
  match find c s with Some _ => true | None => false end.

(** [s.startswith(p)] *)
Fixpoint startswith (p s : string) : bool :=
  match p, s with
  | EmptyString, _ => true
  | String a p', String b s' => Ascii.eqb a b && startswith p' s'
  | String _ _, EmptyString => false
  end.

(** [s.endswith(suffix)] *)
Fixpoint endswith (s suffix : string) : bool :=
  String.eqb s suffix ||
  match s with
  | EmptyString => false
  | String _ s' => endswith s' suffix
  end.

(** [sub in s] *)
Fixpoint contains (sub s : string) : bool :=
  startswith sub s ||
  match s with
  | EmptyString => false
  | String _ s' => contains sub s'
  end.

(** [s.replace(c, "")] *)
Fixpoint remove (p : ascii -> bool) (s : string) : string :=
  match s with
  | EmptyString => EmptyString
  | String c s' => if p c then remove p s' else String c (remove p s')
  end.

(** [s.replace(a, b)] for single characters *)
Fixpoint replace_char (a b : ascii) (s : string) : string :=
  match s with
  | EmptyString => EmptyString
  | String c s' => String (if Ascii.eqb c a then b else c) (replace_char a b s')
  end.

(** [s.split(c, 1)] as the pair [(head, Some tail)], or [(s, None)] when
    [c] does not occur (a one-element list in Python). *)
Fixpoint split1 (c : ascii) (s : string) : string * option string :=
  match s with
  | EmptyString => (EmptyString, None)
  | String a s' =>
      if Ascii.eqb a c then (EmptyString, Some s')
      else let '(h, t) := split1 c s' in (String a h, t)
  end.

(** [s.split(c)] *)
Fixpoint split (c : ascii) (s : string) : list string :=
  match s with
  | EmptyString => [EmptyString]
  | String a s' =>
      if Ascii.eqb a c then EmptyString :: split c s'
      else match split c s' with
           | h :: t => String a h :: t
           | [] => [String a EmptyString]
           end
  end.

End Str.


(** ** Python values, exceptions and outcomes *)

(** A value decoded from JSON ([json.loads]): [None], [bool], [int],
    [float], [str], [list] and [dict]. *)
Inductive json :=
| JNull
| JBool (b : bool)
| JInt (z : Z)
| JFloat (f : PrimFloat.float)
| JStr (s : string)
| JArr (items : list json)
| JObj (fields : gmap string json).

(** What [googleapiclient.errors.HttpError] exposes to the classifier:
    [exc.resp.status] when the response has one, [exc.content] when the
    attribute is there, and [str(exc)]. *)
Record http_error := {
  resp_status : option Z;
  content : option string;
  http_str : string
}.

(** The exceptions the core raises or meets, each with its [str()].
    [ValueError] stands for the class and its subclasses.  [AuthError] is
    declared in [gdrive_cli.auth], which is not among the sources: it is
    taken as a class of its own, caught by the [except AuthError] clauses
    only. *)
Inductive exn :=
| ValidationError (msg : string)   (* gdrive_cli.ids.ValidationError *)
| ValueError (msg : string)
| AttributeError (msg : string)
| AuthError (msg : string)         (* gdrive_cli.auth.AuthError *)
| HttpError (e : http_error)       (* googleapiclient.errors.HttpError *)
| OtherError (msg : string)        (* any other [Exception] *)
| Exit (code : Z).                 (* click.exceptions.Exit *)

(** How a call ends. *)
Inductive outcome (A : Type) :=
| Return (a : A)
| Raise (e : exn).
Arguments Return {A} a.
Arguments Raise {A} e.

(** Sequencing: the continuation runs on a returned value only. *)
Definition and_then {A B} (r : outcome A) (k : A -> outcome B) : outcome B :=
  match r with
  | Return a => k a
  | Raise e => Raise e
  end.

(** ** The compiled patterns of [ids.py] *)

Module Re.

(** The character class [[A-Za-z0-9_-]]. *)
Definition drive_id_char (c : ascii) : bool :=
  Str.is_upper c || Str.is_lower c || Str.is_digit c
  || Ascii.eqb c "_" || Ascii.eqb c "-".

(** [re.compile(r"^[A-Za-z0-9_-]{10,}$").fullmatch(s)] is a match. *)
Definition fullmatch_token (s : string) : bool :=
  Str.all drive_id_char s && Nat.leb 10 (String.length s).

(** The group [([A-Za-z0-9_-]{10,})] matched greedily at the start of [s]. *)
Definition match_group (s : string) : option string :=
  let g := Str.take_while drive_id_char s in
  if Nat.leb 10 (String.length g) then Some g else None.

(** [re.compile(lit + r"([A-Za-z0-9_-]{10,})").match(s)], as [group(1)];
    [lit] is literal text. *)
Definition match_at (lit s : string) : option string :=
  if Str.startswith lit s then match_group (Str.drop (String.length lit) s)
  else None.

(** [re.compile(lit + r"([A-Za-z0-9_-]{10,})").search(s)], as [group(1)] of
    the leftmost match. *)
Fixpoint search (lit s : string) : option string :=
  match match_at lit s with
  | Some g => Some g
  | None =>
      match s with
      | EmptyString => None
      | String _ s' => search lit s'
      end
  end.

End Re.

(** ** [urllib.parse] (CPython 3.12) *)

(** [urllib.parse._check_bracketed_host]: the validation of a bracketed IP
    literal by [ipaddress] and the IPvFuture pattern.  [Some msg] stands
    for [ValueError(msg)]. *)
Class IpLiteralCheck := check_bracketed_host : string -> option string.

Module Url.

Record ParseResult := {
  scheme : string;
  netloc : string;
  path : string;
  params : string;
  query : string;
  fragment : string
}.

Definition scheme_char (c : ascii) : bool :=
  Str.is_lower c || Str.is_upper c || Str.is_digit c
  || Ascii.eqb c "+" || Ascii.eqb c "-" || Ascii.eqb c ".".

(** [_WHATWG_C0_CONTROL_OR_SPACE] *)
Definition c0_control_or_space (c : ascii) : bool := (Str.code c <=? 32)%N.

(** [_UNSAFE_URL_BYTES_TO_REMOVE]: TAB, CR and LF *)
Definition unsafe_url_byte (c : ascii) : bool :=
  (Str.code c =? 9)%N || (Str.code c =? 13)%N || (Str.code c =? 10)%N.

Definition uses_params : list string :=
  [""; "ftp"; "hdl"; "prospero"; "http"; "imap"; "https"; "shttp"; "rtsp";
   "rtsps"; "rtspu"; "sip"; "sips"; "mms"; "sftp"; "tel"].

Definition min_delim (c : ascii) (start : nat) (url : string) (delim : nat) : nat :=
  match Str.find_from c start url with
  | Some wdelim => Nat.min delim wdelim
  | None => delim
  end.

Definition _splitnetloc (url : string) (start : nat) : string * string :=
  let delim := String.length url in
  let delim := min_delim "/" start url delim in
  let delim := min_delim "?" start url delim in
  let delim := min_delim "#" start url delim in
  (Str.take (delim - start) (Str.drop start url), Str.drop delim url).

(** [s.rpartition(c)[2]] *)
Definition after_last (c : ascii) (s : string) : string :=
  match Str.rfind c s with
  | Some i => Str.drop (S i) s
  | None => s
  end.

Definition is_empty (s : string) : bool :=
  match s with EmptyString => true | _ => false end.

Definition _check_bracketed_netloc `{IpLiteralCheck} (netloc : string) : outcome unit :=
  let hostname_and_port := after_last "@" netloc in
  let check hostname :=
    match check_bracketed_host hostname with
    | Some msg => Raise (ValueError msg)
    | None => Return tt
    end in
  match Str.split1 "[" hostname_and_port with
  | (before_bracket, Some bracketed) =>
      if negb (is_empty before_bracket) then Raise (ValueError "Invalid IPv6 URL")
      else
        let '(hostname, port) := Str.split1 "]" bracketed in
        let port := default EmptyString port in
        if negb (is_empty port) && negb (Str.startswith ":" port)
        then Raise (ValueError "Invalid IPv6 URL")
        else check hostname
  | (_, None) => check (fst (Str.split1 ":" hostname_and_port))
  end.

(** The scheme block of [urlsplit]: [i = url.find(':')], and when [i > 0],
    [url[0]] is an ASCII letter and [url[:i]] is made of scheme characters,
    the scheme is [url[:i].lower()] and the rest [url[i+1:]]. *)
Definition split_scheme (url : string) : string * string :=
  match Str.find ":" url with
  | Some (S i') =>
      let i := S i' in
      if match url with String c _ => Str.is_ascii_alpha c | _ => false end
         && Str.all scheme_char (Str.take i url)
      then (Str.lower (Str.take i url), Str.drop (S i) url)
      else (EmptyString, url)
  | _ => (EmptyString, url)
  end.

(** The netloc block of [urlsplit], entered when [url[:2] == '//']. *)
Definition split_netloc `{IpLiteralCheck} (url : string) : outcome (string * string) :=
  if String.eqb (Str.take 2 url) "//" then
    let '(netloc, url) := _splitnetloc url 2 in
    let open := Str.has_char "[" netloc in
    let close := Str.has_char "]" netloc in
    if (open && negb close) || (close && negb open)
    then Raise (ValueError "Invalid IPv6 URL")
    else if open && close
    then and_then (_check_bracketed_netloc netloc) (fun _ => Return (netloc, url))
    else Return (netloc, url)
  else Return (EmptyString, url).

(** [url.split(c, 1)] when [c in url], as the pair of both parts. *)
Definition split_at (c : ascii) (url : string) : string * string :=
  if Str.has_char c url
  then let '(u, rest) := Str.split1 c url in (u, default EmptyString rest)
  else (url, EmptyString).

(** [urlsplit(url)].  [_checknetloc] is left out: on Latin-1 text NFKC
    normalization introduces none of [/?#@:], so it never raises. *)
Definition urlsplit `{IpLiteralCheck} (url : string) : outcome ParseResult :=
  let url := Str.lstrip c0_control_or_space url in
  let url := Str.remove unsafe_url_byte url in
  let '(scheme, url) := split_scheme url in
  and_then (split_netloc url) (fun '(netloc, url) =>
    let '(url, fragment) := split_at "#" url in
    let '(url, query) := split_at "?" url in
    Return {| scheme := scheme; netloc := netloc; path := url;
              params := EmptyString; query := query; fragment := fragment |}).

Definition _splitparams (url : string) : string * string :=
  if Str.has_char "/" url then
    match Str.find_from ";" (default 0 (Str.rfind "/" url)) url with
    | Some i => (Str.take i url, Str.drop (S i) url)
    | None => (url, EmptyString)
    end
  else
    (* [i = url.find(';')], known to be found by the caller's test *)
    match Str.find ";" url with
    | Some i => (Str.take i url, Str.drop (S i) url)
    | None => (Str.take (String.length url - 1) url, url)
    end.

Definition urlparse `{IpLiteralCheck} (url : string) : outcome ParseResult :=
  and_then (urlsplit url) (fun r =>
    let '(url, params) :=
      if existsb (String.eqb (scheme r)) uses_params && Str.has_char ";" (path r)
      then _splitparams (path r)
      else (path r, EmptyString) in
    Return {| scheme := scheme r; netloc := netloc r; path := url;
              params := params; query := query r; fragment := fragment r |}).

Definition hex_value (c : ascii) : option N :=
  if Str.is_digit c then Some (Str.code c - 48)%N
  else if Str.in_range 97 102 c then Some (Str.code c - 87)%N
  else if Str.in_range 65 70 c then Some (Str.code c - 55)%N
  else None.

(** One piece after a [%] in [_unquote_impl]: two hexadecimal digits give a
    byte, anything else keeps the [%]. *)
Definition unquote_item (item : string) : string :=
  match item with
  | String a (String b rest) =>
      match hex_value a, hex_value b with
      | Some x, Some y => String (ascii_of_N (16 * x + y)) rest
      | _, _ => String "%" item
      end
  | _ => String "%" item
  end.

(** [unquote(s)] with the defaults of [parse_qsl] (UTF-8, [errors="replace"]).
    A decoded byte of 128 or more is kept as the character of that code: the
    real decoder yields other non-ASCII text there, and ASCII bytes are
    decoded to themselves in both. *)
Definition unquote (s : string) : string :=
  if Str.has_char "%" s then
    match Str.split "%" s with
    | first :: bits => first +:+ String.concat EmptyString (map unquote_item bits)
    | [] => s
    end
  else s.

(** [parse_qsl(qs)] with its default arguments. *)
Definition parse_qsl (qs : string) : list (string * string) :=
  flat_map
    (fun name_value =>
       if is_empty name_value then []
       else match Str.split1 "=" name_value with
            | (_, None) => []
            | (n, Some v) =>
                if negb (is_empty v)
                then [(unquote (Str.replace_char "+" " " n),
                       unquote (Str.replace_char "+" " " v))]
                else []
            end)
    (Str.split "&" qs).

(** [parse_qs(qs)]: each name with the list of its values, in order. *)
Definition parse_qs (qs : string) : gmap string (list string) :=
  fold_left
    (fun parsed_result '(name, value) =>
       match parsed_result !! name with
       | Some values => <[name := values ++ [value]]> parsed_result
       | None => <[name := [value]]> parsed_result
       end)
    (parse_qsl qs) ∅.

End Url.

(** ** [gdrive_cli/ids.py] *)

Module Ids.

Definition _PATH_D_RE : string := "/d/".
Definition _PATH_FILE_D_RE : string := "/file/d/".
Definition _PATH_FOLDER_RE : string := "/drive/folders/".

(** The loop [for regex in (...): match = regex.search(path)]. *)
Fixpoint first_search (regexes : list string) (path : string) : option string :=
  match regexes with
  | [] => None
  | regex :: rest =>
      match Re.search regex path with
      | Some g => Some g
      | None => first_search rest path
      end
  end.

(** [ValidationError(f"Could not extract {expected} ID from value: {value}")] *)
Definition could_not_extract (expected value : string) : exn :=
  ValidationError ("Could not extract " +:+ expected +:+ " ID from value: " +:+ value).

(** [value] is a [str] by its annotation; [None] is what a caller can still
    pass, and [value.strip()] raises on it. *)
Definition _resolve_drive_id `{IpLiteralCheck}
    (value : option string) (expected : string) : outcome string :=
  match value with
  | None => Raise (AttributeError "'NoneType' object has no attribute 'strip'")
  | Some value =>
  let raw := Str.strip value in
  if Url.is_empty raw then Raise (ValidationError "Value cannot be empty.")
  else if Re.fullmatch_token raw then Return raw
  else
    and_then (Url.urlparse raw) (fun parsed =>
    if negb (existsb (String.eqb (Url.scheme parsed)) ["http"; "https"])
    then Raise (ValidationError
                  ("Expected a Google Drive " +:+ expected +:+ " ID or link."))
    else
    let host := Str.lower (Url.netloc parsed) in
    if negb (Str.endswith host "google.com")
    then Raise (ValidationError
                  ("Expected a Google Drive " +:+ expected +:+ " link."))
    else
    let path := Url.path parsed in
    let query := Url.parse_qs (Url.query parsed) in
    if String.eqb expected "folder" && Str.contains "/file/" path
    then Raise (ValidationError "Expected folder link/ID, but file link was provided.")
    else if String.eqb expected "file" && Str.contains "/folders/" path
    then Raise (ValidationError "Expected file link/ID, but folder link was provided.")
    else
    match first_search [_PATH_FOLDER_RE; _PATH_FILE_D_RE; _PATH_D_RE] path with
    | Some g => Return g
    | None =>
        match query !! "id" with
        | Some (q0 :: _) =>
            if Re.fullmatch_token q0 then Return q0
            else Raise (could_not_extract expected value)
        | _ => Raise (could_not_extract expected value)
        end
    end)
  end.

Definition resolve_folder_id `{IpLiteralCheck} (value : option string) : outcome string :=
  match value with
  | None => Return "root"
  | Some _ => _resolve_drive_id value "folder"
  end.

Definition resolve_file_id `{IpLiteralCheck} (value : option string) : outcome string :=
  _resolve_drive_id value "file".

End Ids.

(** ** The process: output streams, collaborators and their calls *)

(** [json.loads(content.decode("utf-8"))] and the [str()] of a decoded value
    that is not a [str].  [json_loads] is [None] when decoding or parsing
    raises. *)
Class JsonLib := {
  json_loads : string -> option json;
  py_str : json -> string
}.

(** A call that leaves the core: the credential collaborator, the API
    client, the local file system. *)
Inductive event :=
| EvStoredCredentialsInfo
| EvLoadCredentials (write : bool)
| EvLogin
| EvBuild
| EvRemote (intent : string)
| EvLocal (op : string).

Record process (W : Type) := {
  stdout : list string;
  stderr : list string;
  calls : list event;
  world : W
}.
Arguments stdout {W} p.
Arguments stderr {W} p.
Arguments calls {W} p.
Arguments world {W} p.

(** A dict whose key order is kept: a row handed to [render_records]. *)
Definition record := list (string * json).

Inductive output_format := Table | Json | Csv.

(** What [stored_credentials_info] returns when credentials are stored. *)
Record credentials_info := {
  info_path : string;
  info_scopes : list string;
  info_has_refresh_token : bool;
  info_client_id : option string
}.

(** The arguments of [files().list(...)]. *)
Record list_request := {
  list_q : option string;
  list_fields : string;
  list_orderBy : option string;
  list_pageSize : Z;
  list_allDrives : bool
}.

(** Modelled from the spec: [gdrive_cli.auth] and [gdrive_cli.output] are not
    among the sources, and the API client and the file system are outside
    the repository.  They are the collaborators of the core, over a world [W]
    they may change.  [stored_credentials_info] and [load_credentials] fail
    with [AuthError] only ([inl msg]), as the credential collaborator's
    interface says; [render_table] and [render_json] produce a printable
    string, and the CSV format persists a file and returns a confirmation.
    [home] is [str(Path.home())] and [expanduser text] is
    [str(Path(text).expanduser())]: both raise [RuntimeError] when no home
    directory can be determined ([inl msg]); [joinpath a b] is
    [str(Path(a) / b)]. *)
Class Collaborators (W : Type) := {
  credentials : Type;
  service : Type;
  media : Type;
  (* the environment read by paths.py and doctor *)
  environ : gmap string string;
  home : string + string;
  expanduser : string -> string + string;
  joinpath : string -> string -> string;
  python_version : string;
  (* gdrive_cli.auth *)
  auth_stored_credentials_info : W -> (string + option credentials_info) * W;
  auth_load_credentials : bool -> W -> (string + credentials) * W;
  auth_login_with_client_secret : string -> bool -> bool -> W -> outcome string * W;
  (* googleapiclient *)
  discovery_build : credentials -> W -> outcome service * W;
  files_list : service -> list_request -> W -> outcome (option (list (gmap string json))) * W;
  files_create : service -> record -> media -> string -> W -> outcome (gmap string json) * W;
  files_get : service -> string -> string -> W -> outcome (gmap string json) * W;
  files_update : service -> string -> record -> string -> W -> outcome (gmap string json) * W;
  media_file_upload : string -> W -> outcome media * W;
  next_chunk : service -> string -> string -> W -> outcome bool * W;
  (* pathlib *)
  path_name : string -> string;
  path_parent : string -> string;
  mkdir_parents : string -> W -> outcome unit * W;
  open_wb : string -> W -> outcome unit * W;
  (* gdrive_cli.output *)
  render_table : list record -> string;
  render_json : list record -> string;
  write_csv : list record -> string -> W -> outcome string * W;
  csv_path_required : string
}.

Module Cli.

Definition USER_INPUT_EXIT_CODE : Z := 2.
Definition AUTH_EXIT_CODE : Z := 3.
Definition API_EXIT_CODE : Z := 4.

(** A computation of the process: it may print, call collaborators, return
    or raise.  [None] has no Python counterpart: it is the answer of a loop
    of the model whose step budget ran out. *)
Definition M (W A : Type) : Type := process W -> option (outcome A * process W).

Definition ret {W A} (a : A) : M W A := fun p => Some (Return a, p).

Definition raise {W A} (e : exn) : M W A := fun p => Some (Raise e, p).

Definition out_of_fuel {W A} : M W A := fun _ => None.

Definition bind {W A B} (c : M W A) (k : A -> M W B) : M W B :=
  fun p =>
    match c p with
    | Some (Return a, p') => k a p'
    | Some (Raise e, p') => Some (Raise e, p')
    | None => None
    end.

Notation "x <- c ;; k" := (bind c (fun x => k))
  (at level 100, c at next level, right associativity).
Notation "c ;;; k" := (bind c (fun _ => k))
  (at level 100, right associativity).

(** [try: body / except ...: handler]; a handler answers [None] for an
    exception no clause matches. *)
Definition try_except {W A} (body : M W A) (handler : exn -> option (M W A)) : M W A :=
  fun p =>
    match body p with
    | Some (Return a, p') => Some (Return a, p')
    | Some (Raise e, p') =>
        match handler e with
        | Some h => h p'
        | None => Some (Raise e, p')
        end
    | None => None
    end.

(** A pure step that may raise. *)
Definition lift {W A} (r : outcome A) : M W A := fun p => Some (r, p).

(** [click.echo(message)] and [click.echo(message, err=True)]. *)
Definition echo {W} (message : string) : M W unit :=
  fun p => Some (Return tt, {| stdout := stdout p ++ [message]; stderr := stderr p;
                               calls := calls p; world := world p |}).

Definition echo_err {W} (message : string) : M W unit :=
  fun p => Some (Return tt, {| stdout := stdout p; stderr := stderr p ++ [message];
                               calls := calls p; world := world p |}).

(** A collaborator call: it is recorded, and it acts on the world alone. *)
Definition call {W A} (ev : event) (f : W -> outcome A * W) : M W A :=
  fun p =>
    let '(r, w) := f (world p) in
    Some (r, {| stdout := stdout p; stderr := stderr p;
                calls := calls p ++ [ev]; world := w |}).

Definition auth_outcome {A} (r : string + A) : outcome A :=
  match r with
  | inl msg => Raise (AuthError msg)
  | inr a => Return a
  end.

Definition call_auth {W A} (ev : event) (f : W -> (string + A) * W) : M W A :=
  call ev (fun w => let '(r, w') := f w in (auth_outcome r, w')).

(** The status the process ends with: [Exit(code)] is turned into [code] by
    click, any other exception that escapes ends the interpreter with 1. *)
Definition exit_code {A} (r : outcome A) : Z :=
  match r with
  | Return _ => 0
  | Raise (Exit code) => code
  | Raise _ => 1
  end.

(** [str(exc)] *)
Definition str_exn (e : exn) : string :=
  match e with
  | ValidationError msg | ValueError msg | AttributeError msg
  | AuthError msg | OtherError msg => msg
  | HttpError h => http_str h
  | Exit _ => EmptyString
  end.

(** [str(n)] for an [int] *)
Definition str_int (n : Z) : string := NilZero.string_of_int (Z.to_int n).

(** Truth value of a decoded value ([if message:]). *)
Definition truthy (v : json) : bool :=
  match v with
  | JNull => false
  | JBool b => b
  | JInt z => negb (z =? 0)%Z
  | JFloat f => negb (PrimFloat.eqb f PrimFloat.zero)
  | JStr s => negb (Url.is_empty s)
  | JArr items => match items with [] => false | _ => true end
  | JObj fields => negb (Nat.eqb (size fields) 0)
  end.

Definition type_name (v : json) : string :=
  match v with
  | JNull => "NoneType"
  | JBool _ => "bool"
  | JInt _ => "int"
  | JFloat _ => "float"
  | JStr _ => "str"
  | JArr _ => "list"
  | JObj _ => "dict"
  end.

(** A value inside an f-string. *)
Definition format_value `{JsonLib} (v : json) : string :=
  match v with
  | JStr s => s
  | _ => py_str v
  end.

Definition _extract_http_error `{JsonLib} (exc : http_error) : outcome json :=
  match content exc with
  | None => Return (JStr (http_str exc))
  | Some content =>
      if Url.is_empty content then Return (JStr (http_str exc))
      else
        match json_loads content with
        | None => Return (JStr (http_str exc))
        | Some (JObj payload) =>
            match default (JObj ∅) (payload !! "error") with
            | JObj error =>
                let message := default JNull (error !! "message") in
                if truthy message then Return message
                else Return (JStr (http_str exc))
            | error =>
                Raise (AttributeError
                         ("'" +:+ type_name error +:+ "' object has no attribute 'get'"))
            end
        | Some _ => Return (JStr (http_str exc))
        end
  end.

(** [getattr(exc.resp, "status", "unknown")] inside the f-string *)
Definition format_status (exc : http_error) : string :=
  match resp_status exc with
  | Some status => str_int status
  | None => "unknown"
  end.

Definition command_errors `{JsonLib} {W A} (func : M W A) : M W A :=
  try_except func (fun exc =>
    match exc with
    | ValidationError _ | ValueError _ =>
        Some (echo_err ("Error: " +:+ str_exn exc) ;;;
              raise (Exit USER_INPUT_EXIT_CODE))
    | AuthError _ =>
        Some (echo_err ("Auth error: " +:+ str_exn exc) ;;;
              raise (Exit AUTH_EXIT_CODE))
    | HttpError h =>
        Some (let status := format_status h in
              message <- lift (_extract_http_error h) ;;
              echo_err ("API error (" +:+ status +:+ "): " +:+ format_value message) ;;;
              raise (Exit API_EXIT_CODE))
    | _ => None
    end).

(** *** [gdrive_cli/paths.py]; a [Path] is its text. *)

Definition env_get `{Collaborators W} (name : string) : option string :=
  match environ !! name with
  | Some v => if Url.is_empty v then None else Some v
  | None => None
  end.

(** How a call of [pathlib] ends.  [RuntimeError] is the base class of
    [ValidationError], not one of its subclasses: the only clause that
    catches it is the [except ... Exception] of the last check of
    [doctor]. *)
Definition path_outcome (r : string + string) : outcome string :=
  match r with
  | inl msg => Raise (OtherError msg)
  | inr path => Return path
  end.

Definition config_dir `{Collaborators W} : outcome string :=
  match env_get "GDRIVE_CONFIG_DIR" with
  | Some env_value => path_outcome (expanduser env_value)
  | None =>
      and_then (path_outcome home) (fun home =>
      Return (joinpath (joinpath home ".config") "gdrive-cli"))
  end.

Definition credentials_file `{Collaborators W} : outcome string :=
  match env_get "GDRIVE_CREDENTIALS_FILE" with
  | Some env_value => path_outcome (expanduser env_value)
  | None =>
      and_then config_dir (fun config_dir =>
      Return (joinpath config_dir "credentials.json"))
  end.

(** *** [gdrive_cli/client.py] *)

Definition load_credentials `{Collaborators W} (write : bool) : M W credentials :=
  call_auth (EvLoadCredentials write) (auth_load_credentials write).

Definition stored_credentials_info `{Collaborators W} : M W (option credentials_info) :=
  call_auth EvStoredCredentialsInfo auth_stored_credentials_info.

Definition build_drive_service `{Collaborators W} (write : bool) : M W service :=
  credentials <- load_credentials write ;;
  call EvBuild (discovery_build credentials).

(** Modelled from the spec: [gdrive_cli.output.render_records] is not among
    the sources.  It produces a printable string, or persists a file and
    returns a confirmation string; CSV without a destination path fails with
    a [ValueError]. *)
Definition render_records `{Collaborators W}
    (records : list record) (fmt : output_format) (csv_path : option string) : M W string :=
  match fmt with
  | Table => ret (render_table records)
  | Json => ret (render_json records)
  | Csv =>
      match csv_path with
      | Some dest => call (EvLocal "write_csv") (write_csv records dest)
      | None => raise (ValueError csv_path_required)
      end
  end.

(** *** The commands of [gdrive_cli/cli.py] *)

(** [item.get(key)] *)
Definition dict_get (item : gmap string json) (key : string) : json :=
  default JNull (item !! key).

(** [a or b] with [b] a [str] *)
Definition or_str (a : json) (b : string) : json :=
  if truthy a then a else JStr b.

(** [Path(v)] *)
Definition to_path (v : json) : outcome string :=
  match v with
  | JStr s => Return s
  | _ => Raise (OtherError
                  ("expected str, bytes or os.PathLike object, not " +:+ type_name v))
  end.

Definition auth_login `{JsonLib} `{Collaborators W}
    (client_secret : string) (readonly no_launch_browser : bool) : M W unit :=
  command_errors (
    output_path <- call EvLogin
      (auth_login_with_client_secret client_secret (negb readonly) (negb no_launch_browser)) ;;
    echo ("Saved credentials to " +:+ output_path)).

Definition auth_whoami `{JsonLib} `{Collaborators W} (output_format : output_format) : M W unit :=
  command_errors (
    info <- stored_credentials_info ;;
    match info with
    | None =>
        raise (ValidationError
          "No local OAuth credentials found. Run `gdrive auth login --client-secret <path>` first.")
    | Some info =>
        let record :=
          [("path", JStr (info_path info));
           ("has_refresh_token", JBool (info_has_refresh_token info));
           ("scopes", JStr (String.concat "," (info_scopes info)));
           ("client_id", JStr (default EmptyString (info_client_id info)))] in
        text <- render_records [record] output_format None ;;
        echo text
    end).

Definition check_record (check status detail : string) : record :=
  [("check", JStr check); ("status", JStr status); ("detail", JStr detail)].

(** [doctor] keeps its running state in [checks] and [failures]; each step
    below takes and returns the pair.  [credentials_file()] is called
    outside every [try], for the second row and again for the detail of the
    "warn" row. *)
Definition doctor `{Collaborators W} : M W unit :=
  let checks : list record := [] in
  let failures : nat := 0 in
  let checks := checks ++ [check_record "python" "ok" python_version] in
  path <- lift credentials_file ;;
  let checks := checks ++ [check_record "credentials-path" "ok" path] in
  state <-
    try_except
      (info <- stored_credentials_info ;; ret (info, checks, failures))
      (fun exc =>
         match exc with
         | AuthError _ =>
             Some (ret (None,
                        checks ++ [check_record "stored-credentials" "fail" (str_exn exc)],
                        failures + 1))
         | _ => None
         end) ;;
  let '(info, checks, failures) := state in
  checks <-
    match info with
    | None =>
        (path <- lift credentials_file ;;
         ret (checks ++ [check_record "stored-credentials" "warn"
                           ("not found at " +:+ path +:+ " (ADC fallback may still work)")]))
    | Some info => ret (checks ++ [check_record "stored-credentials" "ok" (info_path info)])
    end ;;
  state <-
    try_except
      (load_credentials false ;;;
       ret (checks ++ [check_record "auth-refresh" "ok" "credentials load and refresh succeeded"],
            failures))
      (fun exc =>
         match exc with
         | AuthError _ =>
             Some (ret (checks ++ [check_record "auth-refresh" "fail" (str_exn exc)],
                        failures + 1))
         | _ => None
         end) ;;
  let '(checks, failures) := state in
  state <-
    try_except
      (service <- build_drive_service false ;;
       response <- call (EvRemote "list")
         (files_list service {| list_q := None; list_fields := "files(id)";
                                list_orderBy := None; list_pageSize := 1;
                                list_allDrives := false |}) ;;
       let count := length (default [] response) in
       ret (checks ++ [check_record "api-connectivity" "ok"
                         ("files.list succeeded (" +:+ str_int (Z.of_nat count)
                          +:+ " file(s) sampled)")],
            failures))
      (fun exc =>
         Some (ret (checks ++ [check_record "api-connectivity" "fail" (str_exn exc)],
                    failures + 1))) ;;
  let '(checks, failures) := state in
  text <- render_records checks Table None ;;
  echo text ;;;
  if negb (Nat.eqb failures 0) then raise (Exit 1) else ret tt.

Definition list_directory `{JsonLib} `{IpLiteralCheck} `{Collaborators W}
    (folder_value : option string) (output_format : output_format)
    (csv_path : option string) : M W unit :=
  command_errors (
    folder_id <- lift (Ids.resolve_folder_id folder_value) ;;
    service <- build_drive_service false ;;
    let query := "'" +:+ folder_id +:+ "' in parents and trashed = false" in
    response <- call (EvRemote "list")
      (files_list service
         {| list_q := Some query;
            list_fields := "files(id,name,mimeType,size,modifiedTime,trashed)";
            list_orderBy := Some "folder,name"; list_pageSize := 1000;
            list_allDrives := true |}) ;;
    let entries := default [] response in
    let records :=
      map (fun item =>
             [("id", dict_get item "id"); ("name", dict_get item "name");
              ("mimeType", dict_get item "mimeType"); ("size", dict_get item "size");
              ("modifiedTime", dict_get item "modifiedTime");
              ("trashed", dict_get item "trashed")])
          entries in
    text <- render_records records output_format csv_path ;;
    echo text).

Definition upload_file `{JsonLib} `{IpLiteralCheck} `{Collaborators W}
    (local_path : string) (folder_value : option string)
    (output_format : output_format) : M W unit :=
  command_errors (
    folder_id <- lift (Ids.resolve_folder_id folder_value) ;;
    let file_name := path_name local_path in
    let metadata : record := [("name", JStr file_name)] in
    let metadata :=
      if negb (String.eqb folder_id "root")
      then metadata ++ [("parents", JArr [JStr folder_id])]
      else metadata in
    media <- call (EvLocal "MediaFileUpload") (media_file_upload local_path) ;;
    service <- build_drive_service true ;;
    created <- call (EvRemote "create")
      (files_create service metadata media "id,name,mimeType,size,webViewLink") ;;
    match output_format with
    | Json =>
        text <- render_records [map_to_list created] Json None ;;
        echo text
    | _ =>
        text <- render_records
          [[("id", dict_get created "id"); ("name", dict_get created "name");
            ("mimeType", dict_get created "mimeType"); ("size", dict_get created "size");
            ("webViewLink", dict_get created "webViewLink")]]
          Table None ;;
        echo text
    end).

(** [while not done: _, done = downloader.next_chunk()], with a step budget. *)
Fixpoint download_chunks `{Collaborators W}
    (fuel : nat) (service : service) (file_id destination : string) : M W unit :=
  match fuel with
  | O => out_of_fuel
  | S fuel' =>
      done <- call (EvRemote "get_media") (next_chunk service file_id destination) ;;
      if done then ret tt else download_chunks fuel' service file_id destination
  end.

(** Closing the handle when the [with] block is left is not modelled.  The
    destination is the text it is made from: [Path(text)] is printed as
    [text] when the text has no separator (a name in the current
    directory), and [pathlib] may rewrite other texts ([./out.txt] is
    printed as [out.txt]). *)
Definition download_file `{JsonLib} `{IpLiteralCheck} `{Collaborators W}
    (fuel : nat) (file_value : option string) (output_path : option string) : M W unit :=
  command_errors (
    file_id <- lift (Ids.resolve_file_id file_value) ;;
    service <- build_drive_service false ;;
    metadata <- call (EvRemote "get") (files_get service file_id "id,name,mimeType,size") ;;
    destination <- lift
      (match output_path with
       | Some p => if Url.is_empty p
                   then to_path (or_str (dict_get metadata "name") file_id)
                   else Return p
       | None => to_path (or_str (dict_get metadata "name") file_id)
       end) ;;
    call (EvLocal "mkdir") (mkdir_parents (path_parent destination)) ;;;
    call (EvLocal "open") (open_wb destination) ;;;
    download_chunks fuel service file_id destination ;;;
    echo ("Downloaded " +:+ format_value (or_str (dict_get metadata "name") file_id)
          +:+ " to " +:+ destination)).

Definition trash_file `{JsonLib} `{IpLiteralCheck} `{Collaborators W}
    (file_value : option string) : M W unit :=
  command_errors (
    file_id <- lift (Ids.resolve_file_id file_value) ;;
    service <- build_drive_service true ;;
    item <- call (EvRemote "update")
      (files_update service file_id [("trashed", JBool true)] "id,name,trashed") ;;
    echo ("Moved to trash: " +:+ format_value (or_str (dict_get item "name") file_id)
          +:+ " (" +:+ format_value (dict_get item "id") +:+ ")")).

End Cli.

(** ** The vocabulary of the specification *)

Module Spec.

(** The alphabet of a canonical ID: letters, digits, underscore, hyphen. *)
Definition id_alphabet : string :=
  "ABCDEFGHIJKLMNOPQRSTUVWXYZabcdefghijklmnopqrstuvwxyz0123456789_-".

Definition chars (s : string) : list ascii := list_ascii_of_string s.

(** The canonical-ID shape: a token over [id_alphabet] of length at least 10. *)
Definition canonical_id (s : string) : Prop :=
  (forall c, In c (chars s) -> In c (chars id_alphabet)) /\ 10 <= String.length s.

(** [s] occurs in [t]. *)
Definition occurs_in (s t : string) : Prop :=
  exists pre post, t = pre +:+ s +:+ post.

(** The text after a matched group does not go on with an ID character
    (the group is greedy). *)
Definition no_id_head (post : string) : Prop :=
  forall c rest, post = String c rest -> ~ In c (chars id_alphabet).

(** The path shape [lit<id>] is at the start of [s], with [g] the ID. *)
Definition matches_at (lit s g : string) : Prop :=
  exists post, s = lit +:+ g +:+ post /\ canonical_id g /\ no_id_head post.

(** [g] is the ID of the leftmost occurrence of the path shape in [s]. *)
Definition first_match (lit s g : string) : Prop :=
  exists pre rest, s = pre +:+ rest /\ matches_at lit rest g /\
    forall pre' rest' g', s = pre' +:+ rest' ->
      String.length pre' < String.length pre -> ~ matches_at lit rest' g'.

(** The path shape occurs nowhere in [s]. *)
Definition no_match (lit s : string) : Prop :=
  forall pre rest g, s = pre +:+ rest -> ~ matches_at lit rest g.

(** The values a query string gives the parameter [name], in order. *)
Fixpoint values_of (name : string) (pairs : list (string * string)) : list string :=
  match pairs with
  | [] => []
  | (n, v) :: rest =>
      if String.eqb n name then v :: values_of name rest else values_of name rest
  end.

Definition query_values (name qs : string) : list string :=
  values_of name (Url.parse_qsl qs).

(** The failure classes of the specification. *)
Inductive classification := InvalidInput | AuthenticationFailure | RemoteApiFailure.

(** The class [command_errors] gives an exception, by its [except] clauses. *)
Definition classify (e : exn) : option classification :=
  match e with
  | ValidationError _ | ValueError _ => Some InvalidInput
  | AuthError _ => Some AuthenticationFailure
  | HttpError _ => Some RemoteApiFailure
  | _ => None
  end.

(** A resolution that failed with [InvalidInput] and the given detail. *)
Definition fails_invalid_input (r : outcome string) (detail : string) : Prop :=
  exists e, r = Raise e /\ classify e = Some InvalidInput /\ Cli.str_exn e = detail.

(** The input is not a bare ID and passes the scheme, host and cross-kind
    checks, with [parsed] the parsed URL. *)
Definition reaches_extraction `{IpLiteralCheck}
    (value expected : string) (parsed : Url.ParseResult) : Prop :=
  let raw := Str.strip value in
  raw <> EmptyString /\ ~ canonical_id raw /\
  Url.urlparse raw = Return parsed /\
  (Url.scheme parsed = "http" \/ Url.scheme parsed = "https") /\
  (exists pre, Str.lower (Url.netloc parsed) = pre +:+ "google.com") /\
  ~ (expected = "folder" /\ occurs_in "/file/" (Url.path parsed)) /\
  ~ (expected = "file" /\ occurs_in "/folders/" (Url.path parsed)).

(** A failure with [InvalidInput] whose message includes [value]. *)
Definition extraction_fails (result : outcome string) (value : string) : Prop :=
  exists detail, fails_invalid_input result detail /\ occurs_in value detail.

(** Steps 7 to 9 of the resolver: the path shapes in order, then the [id]
    query parameter, then the failure that quotes the value. *)
Definition extract (value expected : string) (parsed : Url.ParseResult) : outcome string :=
  match Ids.first_search [Ids._PATH_FOLDER_RE; Ids._PATH_FILE_D_RE; Ids._PATH_D_RE]
          (Url.path parsed) with
  | Some g => Return g
  | None =>
      match query_values "id" (Url.query parsed) with
      | q0 :: _ =>
          if Re.fullmatch_token q0 then Return q0
          else Raise (Ids.could_not_extract expected value)
      | [] => Raise (Ids.could_not_extract expected value)
      end
  end.

(** A validator that rejects every bracketed host, used to run the resolver
    on concrete inputs. *)
Definition reject_brackets : IpLiteralCheck := fun _ => Some "invalid address".

(** The characters of a host that [urlsplit] keeps as they are: no white
    space, none of [/?#] and no bracket. *)
Definition host_char (c : ascii) : bool :=
  negb (Str.isspace c || existsb (Ascii.eqb c) (chars "/?#[]")).
(** The characters of a path without parameters, query or fragment. *)
Definition path_char (c : ascii) : bool :=
  negb (Str.isspace c || existsb (Ascii.eqb c) (chars "?#;")).

(** A link [sch://host/path] with nothing after the path. *)
Definition plain_url (sch host path : string) : string :=
  sch +:+ "://" +:+ host +:+ String "/" path.

(** A host of the service's domain family. *)
Definition plain_google_host (host : string) : Prop :=
  Str.all host_char host = true /\ exists pre, Str.lower host = pre +:+ "google.com".

(** The folder-shaped and the file-shaped link of an ID. *)
Definition folder_url (sch host id : string) : string :=
  plain_url sch host ("drive/folders/" +:+ id).

Definition file_url (sch host id : string) : string :=
  plain_url sch host ("file/d/" +:+ id +:+ "/view").

(** A link that carries the ID in its query string. *)
Definition open_by_id_url : string := "https://drive.google.com/open?id=1AbcdefGhIjKlmNop".
Definition open_by_id_parsed : Url.ParseResult :=
  {| Url.scheme := "https"; Url.netloc := "drive.google.com"; Url.path := "/open";
     Url.params := ""; Url.query := "id=1AbcdefGhIjKlmNop"; Url.fragment := "" |}.

(** The process after a diagnostic went to standard error. *)
Definition reported {W} (p : process W) (message : string) : process W :=
  {| stdout := stdout p; stderr := stderr p ++ [message];
     calls := calls p; world := world p |}.

(** A field of a row, and the status a check row reports. *)
Fixpoint field (key : string) (r : record) : option json :=
  match r with
  | [] => None
  | (k, v) :: rest => if String.eqb k key then Some v else field key rest
  end.

Definition has_status (status : string) (r : record) : Prop :=
  field "status" r = Some (JStr status).

Definition is_fail (r : record) : bool :=
  match field "status" r with
  | Some (JStr s) => String.eqb s "fail"
  | _ => false
  end.

(** The double quote, for JSON text. *)
Definition dq : string := String (ascii_of_nat 34) EmptyString.

(** [{"error":"invalid_grant"}] *)
Definition oauth_error_body : string :=
  "{" +:+ dq +:+ "error" +:+ dq +:+ ":" +:+ dq +:+ "invalid_grant" +:+ dq +:+ "}".

(** [{"error":{"message":"File not found"}}] *)
Definition not_found_body : string :=
  "{" +:+ dq +:+ "error" +:+ dq +:+ ":{" +:+ dq +:+ "message" +:+ dq +:+ ":"
  +:+ dq +:+ "File not found" +:+ dq +:+ "}}".

(** The decoding of the two bodies above, every other body taken as not
    JSON. *)
Definition sample_json : JsonLib := {|
  json_loads body :=
    if String.eqb body oauth_error_body
    then Some (JObj {[ "error"%string := JStr "invalid_grant" ]})
    else if String.eqb body not_found_body
    then Some (JObj {[ "error"%string := JObj {[ "message"%string := JStr "File not found" ]} ]})
    else None;
  py_str _ := EmptyString
|}.

Definition oauth_error : http_error :=
  {| resp_status := Some 400%Z; content := Some oauth_error_body;
     http_str := "<HttpError 400 when requesting the API returned a bad request>" |}.

Definition not_found_error : http_error :=
  {| resp_status := Some 404%Z; content := Some not_found_body;
     http_str := "<HttpError 404 when requesting the API returned File not found>" |}.

(** Collaborators whose credentials load and whose every remote call raises
    [e]; the world is a unit. *)
Definition remote_fails (e : exn) : Collaborators unit := {|
  credentials := unit;
  service := unit;
  media := unit;
  environ := ∅;
  home := inr "/home/user"%string;
  expanduser path := inr path;
  joinpath a b := a +:+ "/" +:+ b;
  python_version := "3.12.0";
  auth_stored_credentials_info w := (inr None, w);
  auth_load_credentials _ w := (inr tt, w);
  auth_login_with_client_secret _ _ _ w := (Return "credentials.json"%string, w);
  discovery_build _ w := (Return tt, w);
  files_list _ _ w := (Raise e, w);
  files_create _ _ _ _ w := (Raise e, w);
  files_get _ _ _ w := (Raise e, w);
  files_update _ _ _ _ w := (Raise e, w);
  media_file_upload _ w := (Return tt, w);
  next_chunk _ _ _ w := (Raise e, w);
  path_name path := path;
  path_parent _ := ".";
  mkdir_parents _ w := (Return tt, w);
  open_wb _ w := (Return tt, w);
  render_table _ := "table";
  render_json _ := "json";
  write_csv _ _ w := (Return "Wrote rows"%string, w);
  csv_path_required := "csv_path is required"
|}.

Definition fresh : process unit :=
  {| stdout := []; stderr := []; calls := []; world := tt |}.

Definition sample_id : string := "1AbcdefGhIjKlmNop".

(** A file-shaped link on a host outside the service's domain family. *)
Definition foreign_url : string := "https://example.com/file/d/1AbcdefGhIjKlmNop/view".

(** A computation that never writes to standard output. *)
Definition silent {W A} (c : Cli.M W A) : Prop :=
  forall p r p1, c p = Some (r, p1) -> stdout p1 = stdout p.

(** A computation that has written nothing to standard output when it
    raises. *)
Definition quiet_on_raise {W A} (c : Cli.M W A) : Prop :=
  forall p e p1, c p = Some (Raise e, p1) -> stdout p1 = stdout p.

(** The characters of a query string that [urlsplit] keeps as they are. *)
Definition query_char (c : ascii) : bool :=
  negb (Str.isspace c || Ascii.eqb c "#").

(** A link [sch://host/path?query]. *)
Definition query_url (sch host path query : string) : string :=
  sch +:+ "://" +:+ host +:+ String "/" (path +:+ String "?" query).

(** The link that opens an ID given in the query string. *)
Definition open_url (sch host id : string) : string :=
  query_url sch host "open" ("id=" +:+ id).

(** A link to a document of the office suite. *)
Definition document_url (sch host id : string) : string :=
  plain_url sch host ("document/d/" +:+ id +:+ "/edit").

(** The last character of a text. *)
Fixpoint last_char (s : string) : option ascii :=
  match s with
  | EmptyString => None
  | String c EmptyString => Some c
  | String _ s' => last_char s'
  end.

(** The process after the collaborator calls [evs] left the world [w]. *)
Definition after_calls {W} (p : process W) (evs : list event) (w : W) : process W :=
  {| stdout := stdout p; stderr := stderr p; calls := calls p ++ evs; world := w |}.

(** The process after a result went to standard output. *)
Definition printed {W} (p : process W) (text : string) : process W :=
  {| stdout := stdout p ++ [text]; stderr := stderr p; calls := calls p; world := world p |}.

(** A computation whose collaborator calls are all among [allowed]. *)
Definition only_calls {W A} (allowed : list event) (c : Cli.M W A) : Prop :=
  forall p r p1, c p = Some (r, p1) ->
    exists evs, calls p1 = calls p ++ evs /\ Forall (fun ev => In ev allowed) evs.

(** A transfer that ends with its [n]-th chunk, leaving the world [w']. *)
Inductive transfer `{Collaborators W} (service : service) (file_id destination : string) :
    W -> nat -> W -> Prop :=
| transfer_last w w' :
    next_chunk service file_id destination w = (Return true, w') ->
    transfer service file_id destination w 1 w'
| transfer_next w w1 n w' :
    next_chunk service file_id destination w = (Return false, w1) ->
    transfer service file_id destination w1 n w' ->
    transfer service file_id destination w (S n) w'.

(** The metadata of a remote file, as the API answers it. *)
Definition sample_file : gmap string json :=
  {[ "id"%string := JStr "f123"; "name"%string := JStr "remote.txt" ]}.

(** The stored credentials of the repository's tests. *)
Definition sample_info : credentials_info :=
  {| info_path := "/tmp/creds.json";
     info_scopes := ["https://www.googleapis.com/auth/drive"%string];
     info_has_refresh_token := true;
     info_client_id := Some "x"%string |}.

(** A transfer over a world that counts the chunks left. *)
Definition countdown (w : nat) : outcome bool * nat := (Return (Nat.leb w 1), Nat.pred w).

(** Collaborators over a world of natural numbers: [stored] is the answer
    about the stored credentials, [cred] the answer of the credential
    loader, [chunk] the transfer of one chunk; every other call succeeds. *)
Definition sample_drive (stored : string + option credentials_info) (cred : string + unit)
    (chunk : nat -> outcome bool * nat) : Collaborators nat := {|
  credentials := unit;
  service := unit;
  media := unit;
  environ := ∅;
  home := inr "/home/user"%string;
  expanduser path := inr path;
  joinpath a b := a +:+ "/" +:+ b;
  python_version := "3.12.0";
  auth_stored_credentials_info w := (stored, w);
  auth_load_credentials _ w := (cred, w);
  auth_login_with_client_secret _ _ _ w := (Return "credentials.json"%string, w);
  discovery_build _ w := (Return tt, w);
  files_list _ _ w := (Return (Some [sample_file]), w);
  files_create _ _ _ _ w := (Return sample_file, w);
  files_get _ _ _ w := (Return sample_file, w);
  files_update _ _ _ _ w := (Return sample_file, w);
  media_file_upload _ w := (Return tt, w);
  next_chunk _ _ _ w := chunk w;
  path_name path := path;
  path_parent _ := ".";
  mkdir_parents _ w := (Return tt, w);
  open_wb _ w := (Return tt, w);
  render_table _ := "table";
  render_json _ := "json";
  write_csv _ _ w := (Return "Wrote rows"%string, w);
  csv_path_required := "csv_path is required"
|}.

(** The collaborators when nothing is stored, the credentials load and the
    transfer counts down. *)
Definition healthy : Collaborators nat := sample_drive (inr None) (inr tt) countdown.

(** The collaborators when the credentials of the tests are stored. *)
Definition signed_in : Collaborators nat :=
  sample_drive (inr (Some sample_info)) (inr tt) countdown.

(** The collaborators when nothing is stored and loading the credentials
    fails with [msg]. *)
Definition signed_out (msg : string) : Collaborators nat :=
  sample_drive (inr None) (inl msg) countdown.

(** A process that has three chunks to transfer. *)
Definition three_chunks : process nat :=
  {| stdout := []; stderr := []; calls := []; world := 3 |}.

(** The name a remote item is known by: its name, or the ID when the item
    has no name, a null one or an empty one. *)
Definition known_as (item : gmap string json) (file_id : string) : string :=
  match item !! "name" with
  | Some (JStr name) => if Url.is_empty name then file_id else name
  | _ => file_id
  end.

(** The name of the item is a string when it has one. *)
Definition name_is_text (item : gmap string json) : Prop :=
  match item !! "name" with
  | Some (JStr _) | Some JNull | None => True
  | Some _ => False
  end.

(** The columns of a listing, null where the entry lacks one. *)
Definition columns (keys : list string) (item : gmap string json) : record :=
  map (fun key => (key, default JNull (item !! key))) keys.

(** The folder-shaped and the file-shaped link of an ID as the service
    shares them, with a query string after the path. *)
Definition shared_folder_url (sch host id query : string) : string :=
  query_url sch host ("drive/folders/" +:+ id) query.

Definition shared_file_url (sch host id query : string) : string :=
  query_url sch host ("file/d/" +:+ id +:+ "/view") query.

(** A computation that never writes to standard error. *)
Definition errs_silent {W A} (c : Cli.M W A) : Prop :=
  forall p r p1, c p = Some (r, p1) -> stderr p1 = stderr p.

(** The diagnostic of a run that ended with [r]: the line it wrote to
    standard error goes with its exit code. *)
Definition diagnostic_of {A} (r : outcome A) (line : string) : Prop :=
  (r = Raise (Exit 2) /\ exists detail, line = "Error: " +:+ detail) \/
  (r = Raise (Exit 3) /\ exists detail, line = "Auth error: " +:+ detail) \/
  (r = Raise (Exit 4) /\ exists status message,
      line = "API error (" +:+ status +:+ "): " +:+ message).

(** A computation that writes to standard error one diagnostic at most, and
    none when it returns. *)
Definition diagnosed {W A} (c : Cli.M W A) : Prop :=
  forall p r p1, c p = Some (r, p1) ->
    (stderr p1 = stderr p \/
     exists line, stderr p1 = stderr p ++ [line] /\ diagnostic_of r line) /\
    (forall a, r = Return a -> stderr p1 = stderr p).

(** The bounded remote call of the aggregator, made in the world [w]: it
    answers with the number of files sampled, or with the text of the
    exception that ended it; [evs] are the collaborators it reached and [w']
    is the world it left. *)
Inductive bounded_call `{Collaborators W} (w : W) : string + nat -> list event -> W -> Prop :=
| bounded_no_credentials detail w1 :
    auth_load_credentials false w = (inl detail, w1) ->
    bounded_call w (inl detail) [EvLoadCredentials false] w1
| bounded_no_service cred w1 e w2 :
    auth_load_credentials false w = (inr cred, w1) ->
    discovery_build cred w1 = (Raise e, w2) ->
    bounded_call w (inl (Cli.str_exn e)) [EvLoadCredentials false; EvBuild] w2
| bounded_no_listing cred w1 svc w2 e w3 :
    auth_load_credentials false w = (inr cred, w1) ->
    discovery_build cred w1 = (Return svc, w2) ->
    files_list svc {| list_q := None; list_fields := "files(id)"; list_orderBy := None;
                      list_pageSize := 1; list_allDrives := false |} w2 = (Raise e, w3) ->
    bounded_call w (inl (Cli.str_exn e))
      [EvLoadCredentials false; EvBuild; EvRemote "list"] w3
| bounded_listing cred w1 svc w2 response w3 :
    auth_load_credentials false w = (inr cred, w1) ->
    discovery_build cred w1 = (Return svc, w2) ->
    files_list svc {| list_q := None; list_fields := "files(id)"; list_orderBy := None;
                      list_pageSize := 1; list_allDrives := false |} w2
      = (Return response, w3) ->
    bounded_call w (inr (length (default [] response)))
      [EvLoadCredentials false; EvBuild; EvRemote "list"] w3.

(** The rows of the aggregator for the answers it got: the path of the
    credentials file, what is stored ([inl] for a failure and its detail),
    the refresh, and the bounded remote call.  Each check reports "fail"
    with the detail of its failure, the stored credentials "warn" when none
    are found (also after a failure, which leaves them unknown), and "ok"
    otherwise. *)
Definition verdicts `{Collaborators W} (path : string)
    (stored : string + option credentials_info) (refresh : string + credentials)
    (api : string + nat) : list record :=
  let missing :=
    Cli.check_record "stored-credentials" "warn"
      ("not found at " +:+ path +:+ " (ADC fallback may still work)") in
  [Cli.check_record "python" "ok" python_version;
   Cli.check_record "credentials-path" "ok" path]
  ++ match stored with
     | inl detail => [Cli.check_record "stored-credentials" "fail" detail; missing]
     | inr None => [missing]
     | inr (Some info) => [Cli.check_record "stored-credentials" "ok" (info_path info)]
     end
  ++ [match refresh with
      | inl detail => Cli.check_record "auth-refresh" "fail" detail
      | inr _ =>
          Cli.check_record "auth-refresh" "ok" "credentials load and refresh succeeded"
      end;
      match api with
      | inl detail => Cli.check_record "api-connectivity" "fail" detail
      | inr count =>
          Cli.check_record "api-connectivity" "ok"
            ("files.list succeeded (" +:+ Cli.str_int (Z.of_nat count)
             +:+ " file(s) sampled)")
      end].

(** An environment that names the credentials file under the home of a
    user, where no home directory can be determined. *)
Definition unknown_user : Collaborators unit := {|
  credentials := unit;
  service := unit;
  media := unit;
  environ := {[ "GDRIVE_CREDENTIALS_FILE"%string := "~nosuchuser/creds.json"%string ]};
  home := inl "Could not determine home directory."%string;
  expanduser path :=
    if Str.startswith "~" path then inl "Could not determine home directory."%string
    else inr path;
  joinpath a b := a +:+ "/" +:+ b;
  python_version := "3.12.0";
  auth_stored_credentials_info w := (inr None, w);
  auth_load_credentials _ w := (inr tt, w);
  auth_login_with_client_secret _ _ _ w := (Return "credentials.json"%string, w);
  discovery_build _ w := (Return tt, w);
  files_list _ _ w := (Return (Some []), w);
  files_create _ _ _ _ w := (Return ∅, w);
  files_get _ _ _ w := (Return ∅, w);
  files_update _ _ _ _ w := (Return ∅, w);
  media_file_upload _ w := (Return tt, w);
  next_chunk _ _ _ w := (Return true, w);
  path_name path := path;
  path_parent _ := ".";
  mkdir_parents _ w := (Return tt, w);
  open_wb _ w := (Return tt, w);
  render_table _ := "table";
  render_json _ := "json";
  write_csv _ _ w := (Return "Wrote rows"%string, w);
  csv_path_required := "csv_path is required"
|}.

End Spec.

(** * Properties of the string functions *)

#[local] Arguments String.append !s1 s2 : simpl nomatch.

Section StrFacts.

Lemma all_spec p s :
  Str.all p s = true <-> (forall c, In c (Spec.chars s) -> p c = true).
Proof.
  induction s as [|a s IH]; simpl.
  - split; [intros _ c []|reflexivity].
  - rewrite andb_true_iff, IH. split.
    + intros [Ha Hs] c [<-|Hc]; auto.
    + intros Hall. split; [apply Hall; now left|intros c Hc; apply Hall; now right].
Qed.

Lemma drive_id_char_alphabet c :
  Re.drive_id_char c = existsb (Ascii.eqb c) (Spec.chars Spec.id_alphabet).
Proof. destruct c as [[] [] [] [] [] [] [] []]; vm_compute; reflexivity. Qed.

Lemma drive_id_char_spec c :
  Re.drive_id_char c = true <-> In c (Spec.chars Spec.id_alphabet).
Proof.
  rewrite drive_id_char_alphabet, existsb_exists. split.
  - intros (x & Hx & Heq). apply Ascii.eqb_eq in Heq. now subst.
  - intros Hc. exists c. split; [assumption|apply Ascii.eqb_refl].
Qed.

Lemma fullmatch_token_spec s :
  Re.fullmatch_token s = true <-> Spec.canonical_id s.
Proof.
  unfold Re.fullmatch_token, Spec.canonical_id.
  rewrite andb_true_iff, all_spec, Nat.leb_le.
  split; intros [Hc Hl]; split; try assumption; intros c Hin;
    apply drive_id_char_spec; auto.
Qed.

Lemma id_char_not_space c : Re.drive_id_char c = true -> Str.isspace c = false.
Proof. destruct c as [[] [] [] [] [] [] [] []]; vm_compute; congruence. Qed.

Lemma lstrip_id p s :
  match s with String c _ => p c = false | EmptyString => True end ->
  Str.lstrip p s = s.
Proof. destruct s as [|c s]; simpl; [reflexivity|intros ->; reflexivity]. Qed.

Lemma rstrip_none p s :
  (forall c, In c (Spec.chars s) -> p c = false) -> Str.rstrip p s = s.
Proof.
  induction s as [|a s IH]; simpl; intros Hall; [reflexivity|].
  rewrite IH by (intros c Hc; apply Hall; now right).
  destruct s; [|reflexivity].
  rewrite (Hall a) by now left. reflexivity.
Qed.

Lemma strip_canonical s : Spec.canonical_id s -> Str.strip s = s.
Proof.
  intros [Hc _]. unfold Str.strip.
  assert (Hns : forall c, In c (Spec.chars s) -> Str.isspace c = false).
  { intros c Hin. apply id_char_not_space, drive_id_char_spec, Hc, Hin. }
  rewrite lstrip_id.
  - apply rstrip_none, Hns.
  - destruct s; [exact I|]. apply Hns. now left.
Qed.

Lemma canonical_nonempty s : Spec.canonical_id s -> Url.is_empty s = false.
Proof. intros [_ Hl]. destruct s; [simpl in Hl; lia|reflexivity]. Qed.

Lemma append_assoc (a b c : string) : (a +:+ b) +:+ c = a +:+ b +:+ c.
Proof. induction a; simpl; congruence. Qed.

Lemma append_nil_r (a : string) : a +:+ "" = a.
Proof. induction a; simpl; congruence. Qed.

Lemma length_append (a b : string) : String.length (a +:+ b) = String.length a + String.length b.
Proof. induction a; simpl; congruence. Qed.

Lemma take_while_split p s :
  exists post, s = Str.take_while p s +:+ post /\
    (forall c rest, post = String c rest -> p c = false).
Proof.
  induction s as [|a s (post & Hs & Hp)]; simpl.
  - exists ""%string. split; [reflexivity|discriminate].
  - destruct (p a) eqn:Ha.
    + exists post. split; [simpl; congruence|assumption].
    + exists (String a s). split; [reflexivity|]. intros c rest [= <- <-]. assumption.
Qed.

Lemma take_while_all p s : Str.all p (Str.take_while p s) = true.
Proof. induction s as [|a s IH]; simpl; [reflexivity|]. destruct (p a) eqn:Ha; simpl; [now rewrite Ha|reflexivity]. Qed.

Lemma take_while_prefix p g post :
  Str.all p g = true -> (forall c rest, post = String c rest -> p c = false) ->
  Str.take_while p (g +:+ post) = g.
Proof.
  intros Hg Hp. induction g as [|a g IH]; simpl in *.
  - destruct post as [|c rest]; simpl; [reflexivity|]. now rewrite (Hp c rest eq_refl).
  - apply andb_true_iff in Hg as [Ha Hg]. rewrite Ha, IH; auto.
Qed.

Lemma no_id_head_spec post :
  Spec.no_id_head post <-> (forall c rest, post = String c rest -> Re.drive_id_char c = false).
Proof.
  unfold Spec.no_id_head. split; intros Hp c rest Heq.
  - apply not_true_is_false. rewrite drive_id_char_spec. eauto.
  - rewrite <- drive_id_char_spec, (Hp c rest Heq). discriminate.
Qed.

Lemma match_group_spec s g :
  Re.match_group s = Some g <->
  exists post, s = g +:+ post /\ Spec.canonical_id g /\ Spec.no_id_head post.
Proof.
  unfold Re.match_group. split.
  - destruct (Nat.leb_spec 10 (String.length (Str.take_while Re.drive_id_char s))) as [Hl|Hl];
      [|discriminate].
    intros [= <-]. destruct (take_while_split Re.drive_id_char s) as (post & Hs & Hp).
    exists post. split; [assumption|]. split.
    + apply fullmatch_token_spec. unfold Re.fullmatch_token.
      rewrite take_while_all. now apply Nat.leb_le.
    + now apply no_id_head_spec.
  - intros (post & -> & Hg & Hp). apply fullmatch_token_spec in Hg.
    unfold Re.fullmatch_token in Hg. apply andb_true_iff in Hg as [Hall Hl].
    rewrite take_while_prefix by (try apply no_id_head_spec; assumption).
    now rewrite Hl.
Qed.

Lemma startswith_spec p s :
  Str.startswith p s = true <-> exists t, s = p +:+ t.
Proof.
  revert s. induction p as [|a p IH]; intros s; simpl.
  - split; [intros _; now exists s|reflexivity].
  - destruct s as [|b s].
    + split; [discriminate|intros (t & Ht); discriminate].
    + rewrite andb_true_iff, IH, Ascii.eqb_eq. split.
      * intros (-> & t & ->). now exists t.
      * intros (t & [= -> ->]). split; [reflexivity|now exists t].
Qed.

Lemma drop_append p t : Str.drop (String.length p) (p +:+ t) = t.
Proof. induction p; simpl; [now destruct t|assumption]. Qed.

Lemma match_at_spec lit s g :
  Re.match_at lit s = Some g <-> Spec.matches_at lit s g.
Proof.
  unfold Re.match_at, Spec.matches_at. split.
  - destruct (Str.startswith lit s) eqn:Hp; [|discriminate].
    apply startswith_spec in Hp as (t & ->). rewrite drop_append, match_group_spec.
    intros (post & -> & Hg & Hpost). now exists post.
  - intros (post & -> & Hg & Hpost).
    assert (Hp : Str.startswith lit (lit +:+ g +:+ post) = true)
      by (apply startswith_spec; eauto).
    rewrite Hp, drop_append. apply match_group_spec. now exists post.
Qed.

Lemma search_none lit s : Re.search lit s = None <-> Spec.no_match lit s.
Proof.
  unfold Spec.no_match. induction s as [|a s IH]; simpl.
  - destruct (Re.match_at lit "") as [g|] eqn:Hm.
    + split; [discriminate|]. intros Hn. exfalso.
      apply (Hn ""%string ""%string g eq_refl). now apply match_at_spec.
    + split; [|reflexivity]. intros _ pre rest g Heq Hg.
      destruct pre; [|discriminate]. simpl in Heq. subst rest.
      apply match_at_spec in Hg. congruence.
  - destruct (Re.match_at lit (String a s)) as [g|] eqn:Hm.
    + split; [discriminate|]. intros Hn. exfalso.
      apply (Hn ""%string (String a s) g eq_refl). now apply match_at_spec.
    + rewrite IH. split.
      * intros Hn pre rest g Heq Hg. destruct pre as [|b pre].
        -- simpl in Heq. subst rest. apply match_at_spec in Hg. congruence.
        -- injection Heq as <- Heq. eapply Hn; eauto.
      * intros Hn pre rest g Heq Hg. apply (Hn (String a pre) rest g); [simpl; congruence|assumption].
Qed.

Lemma search_first_match lit s g : Re.search lit s = Some g <-> Spec.first_match lit s g.
Proof.
  unfold Spec.first_match. revert g. induction s as [|a s IH]; intros g; simpl.
  - destruct (Re.match_at lit "") as [g0|] eqn:Hm.
    + split.
      * intros [= <-]. exists ""%string, ""%string. split; [reflexivity|].
        split; [now apply match_at_spec|]. intros ? ? ? _ Hl. simpl in Hl. lia.
      * intros (pre & rest & Heq & Hg & _). destruct pre; [|discriminate].
        simpl in Heq. subst rest. apply match_at_spec in Hg. congruence.
    + split; [discriminate|]. intros (pre & rest & Heq & Hg & _).
      destruct pre; [|discriminate]. simpl in Heq. subst rest.
      apply match_at_spec in Hg. congruence.
  - destruct (Re.match_at lit (String a s)) as [g0|] eqn:Hm.
    + split.
      * intros [= <-]. exists ""%string, (String a s). split; [reflexivity|].
        split; [now apply match_at_spec|]. intros ? ? ? _ Hl. simpl in Hl. lia.
      * intros (pre & rest & Heq & Hg & Hfirst). destruct pre as [|b pre].
        -- simpl in Heq. subst rest. apply match_at_spec in Hg. congruence.
        -- exfalso. apply (Hfirst ""%string (String a s) g0 eq_refl); [simpl; lia|].
           now apply match_at_spec.
    + rewrite IH. split.
      * intros (pre & rest & -> & Hg & Hfirst). exists (String a pre), rest.
        split; [reflexivity|]. split; [assumption|].
        intros pre' rest' g' Heq Hl Hg'. destruct pre' as [|b pre'].
        -- simpl in Heq. subst rest'. apply match_at_spec in Hg'.
           simpl in Hm. congruence.
        -- injection Heq as <- Heq. simpl in Hl.
           apply (Hfirst pre' rest' g' Heq); [lia|assumption].
      * intros (pre & rest & Heq & Hg & Hfirst). destruct pre as [|b pre].
        -- simpl in Heq. subst rest. apply match_at_spec in Hg. congruence.
        -- injection Heq as <- Heq. exists pre, rest. split; [assumption|].
           split; [assumption|]. intros pre' rest' g' Heq' Hl.
           apply (Hfirst (String a pre') rest' g'); [simpl; congruence|simpl; lia].
Qed.

Lemma contains_spec sub s : Str.contains sub s = true <-> Spec.occurs_in sub s.
Proof.
  unfold Spec.occurs_in. induction s as [|a s IH].
  - cbn [Str.contains]. rewrite orb_false_r, startswith_spec. split.
    + intros (t & Ht). now exists ""%string, t.
    + intros (pre & post & Heq). destruct pre; [|discriminate]. now exists post.
  - cbn [Str.contains]. rewrite orb_true_iff, startswith_spec, IH. split.
    + intros [(t & Ht)|(pre & post & ->)].
      * now exists ""%string, t.
      * now exists (String a pre), post.
    + intros (pre & post & Heq). destruct pre as [|b pre].
      * left. now exists post.
      * right. injection Heq as <- ->. now exists pre, post.
Qed.

Lemma endswith_spec s suffix :
  Str.endswith s suffix = true <-> exists pre, s = pre +:+ suffix.
Proof.
  induction s as [|a s IH].
  - cbn [Str.endswith]. rewrite orb_false_r, String.eqb_eq. split.
    + intros <-. now exists ""%string.
    + intros (pre & Heq). destruct pre; [exact Heq|discriminate].
  - cbn [Str.endswith]. rewrite orb_true_iff, String.eqb_eq, IH. split.
    + intros [<-|(pre & ->)]; [now exists ""%string|now exists (String a pre)].
    + intros (pre & Heq). destruct pre as [|b pre]; [now left|].
      right. injection Heq as <- ->. now exists pre.
Qed.

Lemma parse_qs_fold (pairs : list (string * string)) (m : gmap string (list string)) name :
  fold_left
    (fun parsed_result '(name, value) =>
       match parsed_result !! name with
       | Some values => <[name := values ++ [value]]> parsed_result
       | None => <[name := [value]]> parsed_result
       end) pairs m !! name =
  match m !! name, Spec.values_of name pairs with
  | Some old, vs => Some (old ++ vs)
  | None, [] => None
  | None, vs => Some vs
  end.
Proof.
  revert m. induction pairs as [|[n v] pairs IH]; intros m; simpl.
  - destruct (m !! name); [now rewrite app_nil_r|reflexivity].
  - rewrite IH. destruct (String.eqb_spec n name) as [->|Hne].
    + destruct (m !! name) as [old|] eqn:Hm.
      * rewrite lookup_insert_eq. now rewrite <- app_assoc.
      * rewrite lookup_insert_eq. reflexivity.
    + destruct (m !! n) as [old|]; rewrite lookup_insert_ne by assumption; reflexivity.
Qed.

Lemma parse_qs_lookup qs name :
  Url.parse_qs qs !! name =
  match Spec.query_values name qs with
  | [] => None
  | vs => Some vs
  end.
Proof. unfold Url.parse_qs, Spec.query_values. rewrite parse_qs_fold, lookup_empty. reflexivity. Qed.

End StrFacts.

(** * Properties of the resolver *)

Section ResolverFacts.
Context `{IpLiteralCheck}.

Lemma is_empty_false s : Url.is_empty s = false <-> s <> EmptyString.
Proof. destruct s; simpl; split; congruence. Qed.

Lemma fullmatch_token_false s : Re.fullmatch_token s = false <-> ~ Spec.canonical_id s.
Proof. rewrite <- fullmatch_token_spec. destruct (Re.fullmatch_token s); split; congruence. Qed.

Lemma cross_kind_false expected kind sub path :
  ~ (expected = kind /\ Spec.occurs_in sub path) ->
  String.eqb expected kind && Str.contains sub path = false.
Proof.
  intros Hn. apply not_true_is_false. rewrite andb_true_iff, String.eqb_eq, contains_spec.
  exact Hn.
Qed.

Lemma resolve_after_checks value expected parsed :
  Spec.reaches_extraction value expected parsed ->
  Ids._resolve_drive_id (Some value) expected = Spec.extract value expected parsed.
Proof.
  intros (Hne & Hnc & Hparse & Hscheme & Hhost & Hfile & Hfolder).
  unfold Ids._resolve_drive_id, Spec.extract.
  apply is_empty_false in Hne. apply fullmatch_token_false in Hnc.
  rewrite Hne, Hnc, Hparse. cbn [and_then].
  assert (Hs : existsb (String.eqb (Url.scheme parsed)) ["http"; "https"] = true).
  { destruct Hscheme as [-> | ->]; reflexivity. }
  rewrite Hs. cbn [negb].
  apply endswith_spec in Hhost. rewrite Hhost. cbn [negb].
  rewrite (cross_kind_false _ _ _ _ Hfile), (cross_kind_false _ _ _ _ Hfolder).
  destruct (Ids.first_search _ _); [reflexivity|].
  rewrite parse_qs_lookup. destruct (Spec.query_values "id" (Url.query parsed)); reflexivity.
Qed.

Lemma could_not_extract_detail expected value :
  Spec.extraction_fails (Raise (Ids.could_not_extract expected value)) value.
Proof.
  eexists. split.
  - exists (Ids.could_not_extract expected value). repeat split; reflexivity.
  - exists ("Could not extract " +:+ expected +:+ " ID from value: ")%string, ""%string.
    cbn [Cli.str_exn Ids.could_not_extract]. now rewrite append_nil_r, !append_assoc.
Qed.

Lemma search_canonical lit s g : Re.search lit s = Some g -> Spec.canonical_id g.
Proof.
  rewrite search_first_match. intros (pre & rest & _ & (post & _ & Hg & _) & _). exact Hg.
Qed.

Lemma first_search_canonical regexes s g :
  Ids.first_search regexes s = Some g -> Spec.canonical_id g.
Proof.
  induction regexes as [|lit regexes IH]; simpl; [discriminate|].
  destruct (Re.search lit s) eqn:Hs; [|exact IH].
  intros [= <-]. eapply search_canonical; eassumption.
Qed.

Lemma extract_canonical value expected parsed g :
  Spec.extract value expected parsed = Return g -> Spec.canonical_id g.
Proof.
  unfold Spec.extract. destruct (Ids.first_search _ _) eqn:Hs.
  - intros [= <-]. eapply first_search_canonical; eassumption.
  - destruct (Spec.query_values _ _) as [|q0 ?]; [discriminate|].
    destruct (Re.fullmatch_token q0) eqn:Hq; [|discriminate].
    intros [= <-]. now apply fullmatch_token_spec.
Qed.

End ResolverFacts.

Section ResolverClaims.
Context `{IpLiteralCheck}.

Lemma resolve_canonical s expected :
  Spec.canonical_id s -> Ids._resolve_drive_id (Some s) expected = Return s.
Proof.
  intros Hs. unfold Ids._resolve_drive_id.
  rewrite (strip_canonical s Hs), (canonical_nonempty s Hs).
  apply fullmatch_token_spec in Hs. now rewrite Hs.
Qed.

Lemma resolve_canonical_result value expected g :
  Ids._resolve_drive_id value expected = Return g -> Spec.canonical_id g.
Proof.
  unfold Ids._resolve_drive_id. destruct value as [value|]; [|discriminate].
  destruct (Url.is_empty _); [discriminate|].
  destruct (Re.fullmatch_token (Str.strip value)) eqn:Hf.
  { intros [= <-]. now apply fullmatch_token_spec. }
  destruct (Url.urlparse _) as [parsed|]; cbn [and_then]; try discriminate.
  repeat match goal with
         | |- (if ?c then _ else _) = _ -> _ => destruct c; [discriminate|]
         end.
  destruct (Ids.first_search _ _) eqn:Hs.
  { intros [= <-]. eapply first_search_canonical; eassumption. }
  destruct (_ !! _) as [[|q0 ?]|]; try discriminate.
  destruct (Re.fullmatch_token q0) eqn:Hq; [|discriminate].
  intros [= <-]. now apply fullmatch_token_spec.
Qed.

Lemma root_not_canonical : ~ Spec.canonical_id "root".
Proof. intros [_ Hl]. simpl in Hl. lia. Qed.

Lemma resolve_empty value expected :
  Str.strip value = EmptyString ->
  Ids._resolve_drive_id (Some value) expected = Raise (ValidationError "Value cannot be empty.").
Proof. intros Hs. unfold Ids._resolve_drive_id. now rewrite Hs. Qed.

Lemma fails_validation msg : Spec.fails_invalid_input (Raise (ValidationError msg)) msg.
Proof. exists (ValidationError msg). repeat split. Qed.

(** Claim C6.  A string of the canonical-ID shape (letters, digits,
    underscore and hyphen; length at least 10) is returned unchanged by the
    resolver, for the kind Folder and for the kind File. *)
Theorem canonical_id_resolves_to_itself s :
  Spec.canonical_id s ->
  Ids.resolve_folder_id (Some s) = Return s /\ Ids.resolve_file_id (Some s) = Return s.
Proof.
  intros Hs. split; [unfold Ids.resolve_folder_id|unfold Ids.resolve_file_id];
    now apply resolve_canonical.
Qed.

(** Claim C7, as amended.  An absent folder input resolves to ["root"].  An
    input that is empty after trimming fails with [InvalidInput] and the
    message "Value cannot be empty.", for both kinds.  An absent file input
    is outside the resolver's domain ([value: str]): [None] makes
    [value.strip()] raise [AttributeError], which is no [InvalidInput]. *)
Theorem absent_and_empty_inputs :
  Ids.resolve_folder_id None = Return "root" /\
  (forall value, Str.strip value = EmptyString ->
     Spec.fails_invalid_input (Ids.resolve_file_id (Some value)) "Value cannot be empty." /\
     Spec.fails_invalid_input (Ids.resolve_folder_id (Some value)) "Value cannot be empty.") /\
  Ids.resolve_file_id None =
    Raise (AttributeError "'NoneType' object has no attribute 'strip'").
Proof.
  split; [reflexivity|]. split; [|reflexivity].
  intros value Hs. unfold Ids.resolve_file_id, Ids.resolve_folder_id.
  rewrite !(resolve_empty value _ Hs). split; apply fails_validation.
Qed.

(** Claim C10.  A successful result of the resolver is ["root"], returned
    for the absent folder input only, or a string of the canonical-ID shape;
    so a result other than ["root"] resolves to itself under the same kind,
    while ["root"] given back as input fails with [InvalidInput] for both
    kinds (it is no canonical ID and has no http or https scheme). *)
Theorem resolver_results_are_canonical value r :
  (Ids.resolve_folder_id value = Return r ->
     (value = None /\ r = "root"%string) \/ (value <> None /\ Spec.canonical_id r)) /\
  (Ids.resolve_file_id value = Return r -> Spec.canonical_id r) /\
  (Ids.resolve_folder_id value = Return r -> r <> "root"%string ->
     Ids.resolve_folder_id (Some r) = Return r) /\
  (Ids.resolve_file_id value = Return r -> Ids.resolve_file_id (Some r) = Return r) /\
  ~ Spec.canonical_id "root" /\
  Spec.fails_invalid_input (Ids.resolve_folder_id (Some "root"))
    "Expected a Google Drive folder ID or link." /\
  Spec.fails_invalid_input (Ids.resolve_file_id (Some "root"))
    "Expected a Google Drive file ID or link.".
Proof.
  assert (Hfolder : Ids.resolve_folder_id value = Return r ->
     (value = None /\ r = "root"%string) \/ (value <> None /\ Spec.canonical_id r)).
  { unfold Ids.resolve_folder_id. destruct value as [v|].
    - intros Hr. right. split; [discriminate|]. eapply resolve_canonical_result; eassumption.
    - intros [= <-]. now left. }
  assert (Hfile : Ids.resolve_file_id value = Return r -> Spec.canonical_id r).
  { apply resolve_canonical_result. }
  refine (conj Hfolder (conj Hfile (conj _ (conj _ (conj root_not_canonical (conj _ _)))))).
  - intros Hr Hroot. destruct (Hfolder Hr) as [[_ ?]|[_ Hc]]; [contradiction|].
    now apply resolve_canonical.
  - intros Hr. unfold Ids.resolve_file_id. apply resolve_canonical. auto.
  - apply fails_validation.
  - apply fails_validation.
Qed.


End ResolverClaims.

Section ExtractionClaims.
Context `{IpLiteralCheck}.

Lemma search_some_first lit rest s g :
  Re.search lit s = Some g -> Ids.first_search (lit :: rest) s = Some g.
Proof. intros Hs. simpl. now rewrite Hs. Qed.

Lemma search_none_next lit rest s :
  Re.search lit s = None -> Ids.first_search (lit :: rest) s = Ids.first_search rest s.
Proof. intros Hs. simpl. now rewrite Hs. Qed.

(** Claim C2.  For a URL that passed the scheme, host and cross-kind checks,
    the ID is the one of the leftmost folder path shape
    [/drive/folders/<id>]; without any, of the leftmost file-detail shape
    [/file/d/<id>]; without any, of the leftmost shared-object shape
    [/d/<id>].  When no path shape occurs, the first value of the query
    parameter [id] is returned if it has the canonical-ID shape.  Otherwise
    the resolution fails with [InvalidInput] and a message that includes the
    value as given.  Every ID returned has the canonical-ID shape. *)
Theorem url_extraction_order value expected parsed :
  Spec.reaches_extraction value expected parsed ->
  let path := Url.path parsed in
  let result := Ids._resolve_drive_id (Some value) expected in
  (forall g, Spec.first_match Ids._PATH_FOLDER_RE path g -> result = Return g) /\
  (Spec.no_match Ids._PATH_FOLDER_RE path ->
   forall g, Spec.first_match Ids._PATH_FILE_D_RE path g -> result = Return g) /\
  (Spec.no_match Ids._PATH_FOLDER_RE path -> Spec.no_match Ids._PATH_FILE_D_RE path ->
   forall g, Spec.first_match Ids._PATH_D_RE path g -> result = Return g) /\
  (Spec.no_match Ids._PATH_FOLDER_RE path -> Spec.no_match Ids._PATH_FILE_D_RE path ->
   Spec.no_match Ids._PATH_D_RE path ->
   match Spec.query_values "id" (Url.query parsed) with
   | v :: _ =>
       (Spec.canonical_id v -> result = Return v) /\
       (~ Spec.canonical_id v -> Spec.extraction_fails result value)
   | [] => Spec.extraction_fails result value
   end) /\
  (forall g, result = Return g -> Spec.canonical_id g).
Proof.
  intros Hreach path result. subst result.
  rewrite (resolve_after_checks _ _ _ Hreach). fold path. unfold Spec.extract. fold path.
  split; [|split; [|split; [|split]]].
  - intros g Hg. apply search_first_match in Hg.
    now rewrite (search_some_first _ _ _ _ Hg).
  - intros Hn1 g Hg. apply search_none in Hn1. apply search_first_match in Hg.
    now rewrite (search_none_next _ _ _ Hn1), (search_some_first _ _ _ _ Hg).
  - intros Hn1 Hn2 g Hg. apply search_none in Hn1, Hn2. apply search_first_match in Hg.
    now rewrite (search_none_next _ _ _ Hn1), (search_none_next _ _ _ Hn2),
      (search_some_first _ _ _ _ Hg).
  - intros Hn1 Hn2 Hn3. apply search_none in Hn1, Hn2, Hn3.
    rewrite (search_none_next _ _ _ Hn1), (search_none_next _ _ _ Hn2),
      (search_none_next _ _ _ Hn3). cbn [Ids.first_search].
    destruct (Spec.query_values _ _) as [|v ?]; [apply could_not_extract_detail|].
    split.
    + intros Hv. apply fullmatch_token_spec in Hv. now rewrite Hv.
    + intros Hv. apply fullmatch_token_false in Hv. rewrite Hv.
      apply could_not_extract_detail.
  - intros g Hg. eapply (extract_canonical value expected parsed). exact Hg.
Qed.

End ExtractionClaims.

(** The link [.../open?id=<id>] passes the checks. *)
Lemma open_by_id_reaches :
  @Spec.reaches_extraction Spec.reject_brackets Spec.open_by_id_url "folder" Spec.open_by_id_parsed.
Proof.
  unfold Spec.reaches_extraction. cbv zeta.
  split; [discriminate|]. split; [apply fullmatch_token_false; reflexivity|].
  split; [reflexivity|]. split; [now right|].
  split; [exists "drive."%string; reflexivity|].
  split; intros [_ Hocc]; apply contains_spec in Hocc; discriminate.
Defined.

(** C2 on the link [.../open?id=<id>] of the tests: no path shape, the ID
    comes from the query. *)
Lemma url_extraction_order_witness :
  @Ids._resolve_drive_id Spec.reject_brackets (Some Spec.open_by_id_url) "folder"
    = Return "1AbcdefGhIjKlmNop".
Proof.
  destruct (@url_extraction_order Spec.reject_brackets Spec.open_by_id_url "folder"
              Spec.open_by_id_parsed open_by_id_reaches) as (_ & _ & _ & Hquery & _).
  assert (Hn : forall lit, Re.search lit "/open" = None -> Spec.no_match lit "/open")
    by (intros lit; apply search_none).
  specialize (Hquery (Hn Ids._PATH_FOLDER_RE eq_refl) (Hn Ids._PATH_FILE_D_RE eq_refl)
                      (Hn Ids._PATH_D_RE eq_refl)).
  assert (Hq : Spec.query_values "id" (Url.query Spec.open_by_id_parsed)
               = ["1AbcdefGhIjKlmNop"%string]) by (vm_compute; reflexivity).
  rewrite Hq in Hquery. destruct Hquery as [Hok _]. apply Hok. apply fullmatch_token_spec. reflexivity.
Defined.

(** * Links of a known shape *)

Section CleanStrings.

Lemma all_id_chars s : Spec.canonical_id s -> Str.all Re.drive_id_char s = true.
Proof. intros Hs. apply fullmatch_token_spec in Hs. now apply andb_true_iff in Hs. Qed.

Lemma remove_outside p q s :
  Str.all p s = true -> (forall c, p c = true -> q c = false) -> Str.remove q s = s.
Proof.
  intros Hs Hq. induction s as [|a s IH]; simpl in *; [reflexivity|].
  apply andb_true_iff in Hs as [Ha Hs]. now rewrite (Hq a Ha), IH.
Qed.

Lemma startswith_id_false n p id t :
  Str.all Re.drive_id_char id = true -> n <= String.length id ->
  Str.all Re.drive_id_char (Str.take n p) = false ->
  Str.startswith p (id +:+ t) = false.
Proof.
  revert p id. induction n as [|n IH]; intros p id Hid Hn Hp.
  - destruct p; discriminate.
  - destruct p as [|a p]; [discriminate|].
    destruct id as [|b id]; [simpl in Hn; lia|].
    simpl in *. apply andb_true_iff in Hid as [Hb Hid].
    destruct (Ascii.eqb_spec a b) as [->|_]; [|reflexivity].
    rewrite Hb in Hp. simpl in *. apply IH; [assumption|lia|assumption].
Qed.

Lemma contains_id_skip sub id t :
  Str.all Re.drive_id_char id = true ->
  match sub with String c _ => Re.drive_id_char c = false | EmptyString => False end ->
  Str.contains sub (id +:+ t) = Str.contains sub t.
Proof.
  intros Hid Hsub. destruct sub as [|c sub]; [contradiction|].
  induction id as [|a id IH]; [reflexivity|].
  simpl in Hid. apply andb_true_iff in Hid as [Ha Hid].
  cbn [String.append Str.contains Str.startswith].
  destruct (Ascii.eqb_spec c a) as [->|_]; [congruence|]. simpl. now apply IH.
Qed.

Lemma match_at_id_skip lit a id t :
  match lit with String c _ => Re.drive_id_char c = false | EmptyString => False end ->
  Re.drive_id_char a = true ->
  Re.match_at lit (String a (id +:+ t)) = None.
Proof.
  intros Hlit Ha. destruct lit as [|c lit]; [contradiction|].
  unfold Re.match_at. cbn [Str.startswith].
  destruct (Ascii.eqb_spec c a) as [->|_]; [congruence|]. reflexivity.
Qed.

Lemma search_id_skip lit id t :
  Str.all Re.drive_id_char id = true ->
  match lit with String c _ => Re.drive_id_char c = false | EmptyString => False end ->
  Re.search lit (id +:+ t) = Re.search lit t.
Proof.
  intros Hid Hlit. induction id as [|a id IH]; [reflexivity|].
  simpl in Hid. apply andb_true_iff in Hid as [Ha Hid].
  cbn [String.append Re.search]. rewrite match_at_id_skip by assumption. now apply IH.
Qed.

Lemma id_char_not_unsafe c : Re.drive_id_char c = true -> Url.unsafe_url_byte c = false.
Proof. destruct c as [[] [] [] [] [] [] [] []]; vm_compute; congruence. Qed.

End CleanStrings.

Section PlainUrls.
Context `{IpLiteralCheck}.

Lemma all_app p a b : Str.all p (a +:+ b) = Str.all p a && Str.all p b.
Proof. induction a as [|c a IH]; simpl; [reflexivity|]. now rewrite IH, andb_assoc. Qed.

Lemma all_weaken (p q : ascii -> bool) s :
  (forall c, p c = true -> q c = true) -> Str.all p s = true -> Str.all q s = true.
Proof.
  intros Hpq. induction s as [|c s IH]; simpl; [reflexivity|].
  intros Hs. apply andb_true_iff in Hs as [Hc Hs]. now rewrite (Hpq c Hc), IH.
Qed.

Lemma find_app c a b :
  Str.find c (a +:+ b) =
  match Str.find c a with
  | Some i => Some i
  | None => option_map (Nat.add (String.length a)) (Str.find c b)
  end.
Proof.
  induction a as [|x a IH]; simpl.
  - now destruct (Str.find c b).
  - destruct (Ascii.eqb x c); [reflexivity|]. rewrite IH.
    destruct (Str.find c a); [reflexivity|]. now destruct (Str.find c b).
Qed.

Lemma take_append a b : Str.take (String.length a) (a +:+ b) = a.
Proof. induction a; simpl; [now destruct b|congruence]. Qed.

Lemma host_char_facts c :
  Spec.host_char c = true ->
  Url.unsafe_url_byte c = false /\ Str.isspace c = false /\
  c <> "/"%char /\ c <> "?"%char /\ c <> "#"%char /\ c <> "["%char /\ c <> "]"%char.
Proof. destruct c as [[] [] [] [] [] [] [] []]; vm_compute; intros; repeat split; congruence. Qed.

Lemma path_char_facts c :
  Spec.path_char c = true ->
  Url.unsafe_url_byte c = false /\ Str.isspace c = false /\
  c <> "?"%char /\ c <> "#"%char /\ c <> ";"%char.
Proof. destruct c as [[] [] [] [] [] [] [] []]; vm_compute; intros; repeat split; congruence. Qed.

Lemma id_char_path_char c : Re.drive_id_char c = true -> Spec.path_char c = true.
Proof. destruct c as [[] [] [] [] [] [] [] []]; vm_compute; congruence. Qed.

Lemma find_absent p c s :
  Str.all p s = true -> (forall x, p x = true -> x <> c) -> Str.find c s = None.
Proof.
  intros Hs Hc. induction s as [|a s IH]; simpl in *; [reflexivity|].
  apply andb_true_iff in Hs as [Ha Hs].
  destruct (Ascii.eqb_spec a c) as [->|_]; [now apply Hc in Ha|]. now rewrite IH.
Qed.

Lemma has_char_absent p c s :
  Str.all p s = true -> (forall x, p x = true -> x <> c) -> Str.has_char c s = false.
Proof. intros Hs Hc. unfold Str.has_char. now rewrite (find_absent p c s Hs Hc). Qed.

Lemma splitnetloc_plain host path :
  Str.all Spec.host_char host = true -> Str.all Spec.path_char path = true ->
  Url._splitnetloc ("//" +:+ host +:+ String "/" path) 2 = (host, String "/" path).
Proof.
  intros Hhost Hpath.
  assert (Hslash : Str.find_from "/" 2 ("//" +:+ host +:+ String "/" path)
                   = Some (2 + String.length host)).
  { unfold Str.find_from. change (Str.drop 2 ("//" +:+ host +:+ String "/" path))
      with (host +:+ String "/" path).
    change (Nat.leb 2 (String.length ("//" +:+ host +:+ String "/" path))) with true.
    rewrite find_app, (find_absent Spec.host_char "/" host Hhost).
    - cbn. now rewrite Nat.add_0_r.
    - intros x Hx. apply host_char_facts in Hx. tauto. }
  assert (Hnone : forall c, c <> "/"%char ->
            (forall x, Spec.host_char x = true -> x <> c) ->
            (forall x, Spec.path_char x = true -> x <> c) ->
            Str.find_from c 2 ("//" +:+ host +:+ String "/" path) = None).
  { intros c Hc Hh Hp. unfold Str.find_from.
    change (Str.drop 2 ("//" +:+ host +:+ String "/" path)) with (host +:+ String "/" path).
    change (Nat.leb 2 (String.length ("//" +:+ host +:+ String "/" path))) with true.
    rewrite find_app, (find_absent Spec.host_char c host Hhost Hh). cbn [Str.find].
    destruct (Ascii.eqb_spec "/" c) as [E|_]; [now subst c|].
    now rewrite (find_absent Spec.path_char c path Hpath Hp). }
  assert (Hq : Str.find_from "?" 2 ("//" +:+ host +:+ String "/" path) = None).
  { apply Hnone; [discriminate| |]; intros x Hx;
      [apply host_char_facts in Hx|apply path_char_facts in Hx]; tauto. }
  assert (Hh : Str.find_from "#" 2 ("//" +:+ host +:+ String "/" path) = None).
  { apply Hnone; [discriminate| |]; intros x Hx;
      [apply host_char_facts in Hx|apply path_char_facts in Hx]; tauto. }
  unfold Url._splitnetloc, Url.min_delim. rewrite Hslash, Hq, Hh.
  assert (Hmin : Nat.min (String.length ("//" +:+ host +:+ String "/" path))
                   (2 + String.length host) = 2 + String.length host).
  { cbn [String.append String.length]. rewrite length_append. simpl. lia. }
  rewrite Hmin. replace (2 + String.length host - 2) with (String.length host) by lia.
  change (Str.drop 2 ("//" +:+ host +:+ String "/" path)) with (host +:+ String "/" path).
  change (Str.drop (2 + String.length host) ("//" +:+ host +:+ String "/" path))
    with (Str.drop (String.length host) (host +:+ String "/" path)).
  now rewrite take_append, drop_append.
Qed.

End PlainUrls.

Section PlainUrls2.
Context `{IpLiteralCheck}.

Lemma remove_app q a b : Str.remove q (a +:+ b) = Str.remove q a +:+ Str.remove q b.
Proof. induction a as [|c a IH]; simpl; [reflexivity|]. destruct (q c); simpl; now rewrite IH. Qed.

Lemma remove_host host : Str.all Spec.host_char host = true -> Str.remove Url.unsafe_url_byte host = host.
Proof. intros Hh. apply (remove_outside Spec.host_char); [assumption|]. intros c Hc. now apply host_char_facts in Hc. Qed.

Lemma remove_path path : Str.all Spec.path_char path = true -> Str.remove Url.unsafe_url_byte path = path.
Proof. intros Hh. apply (remove_outside Spec.path_char); [assumption|]. intros c Hc. now apply path_char_facts in Hc. Qed.

Lemma urlsplit_plain sch host path :
  sch = "http"%string \/ sch = "https"%string ->
  Str.all Spec.host_char host = true -> Str.all Spec.path_char path = true ->
  Url.urlsplit (Spec.plain_url sch host path) =
  Return {| Url.scheme := sch; Url.netloc := host; Url.path := String "/" path;
            Url.params := ""; Url.query := ""; Url.fragment := "" |}.
Proof.
  intros Hsch Hhost Hpath. unfold Url.urlsplit, Spec.plain_url.
  assert (Hl : Str.lstrip Url.c0_control_or_space (sch +:+ "://" +:+ host +:+ String "/" path)
               = sch +:+ "://" +:+ host +:+ String "/" path)
    by (destruct Hsch as [-> | ->]; reflexivity).
  rewrite Hl.
  assert (Hr : Str.remove Url.unsafe_url_byte (sch +:+ "://" +:+ host +:+ String "/" path)
               = sch +:+ "://" +:+ host +:+ String "/" path).
  { rewrite !remove_app, (remove_host host Hhost).
    change (String "/" path) with ("/" +:+ path). rewrite remove_app, (remove_path path Hpath).
    destruct Hsch as [-> | ->]; reflexivity. }
  rewrite Hr.
  assert (Hs : Url.split_scheme (sch +:+ "://" +:+ host +:+ String "/" path)
               = (sch, "//" +:+ host +:+ String "/" path))
    by (destruct Hsch as [-> | ->]; reflexivity).
  rewrite Hs.
  assert (Ho : Str.has_char "[" host = false).
  { apply (has_char_absent Spec.host_char); [assumption|]. intros x Hx. apply host_char_facts in Hx. tauto. }
  assert (Hc : Str.has_char "]" host = false).
  { apply (has_char_absent Spec.host_char); [assumption|]. intros x Hx. apply host_char_facts in Hx. tauto. }
  assert (Hn : Url.split_netloc ("//" +:+ host +:+ String "/" path)
               = Return (host, String "/" path)).
  { unfold Url.split_netloc.
    change (String.eqb (Str.take 2 ("//" +:+ host +:+ String "/" path)) "//") with true.
    cbv iota. rewrite (splitnetloc_plain host path Hhost Hpath), Ho, Hc. reflexivity. }
  rewrite Hn. cbn [and_then].
  assert (Hfrag : Str.has_char "#" (String "/" path) = false).
  { apply (has_char_absent Spec.path_char); [now simpl; rewrite Hpath|].
    intros x Hx. apply path_char_facts in Hx. tauto. }
  assert (Hquery : Str.has_char "?" (String "/" path) = false).
  { apply (has_char_absent Spec.path_char); [now simpl; rewrite Hpath|].
    intros x Hx. apply path_char_facts in Hx. tauto. }
  unfold Url.split_at. rewrite Hfrag, Hquery. reflexivity.
Qed.

Lemma urlparse_plain sch host path :
  sch = "http"%string \/ sch = "https"%string ->
  Str.all Spec.host_char host = true -> Str.all Spec.path_char path = true ->
  Url.urlparse (Spec.plain_url sch host path) =
  Return {| Url.scheme := sch; Url.netloc := host; Url.path := String "/" path;
            Url.params := ""; Url.query := ""; Url.fragment := "" |}.
Proof.
  intros Hsch Hhost Hpath. unfold Url.urlparse.
  rewrite (urlsplit_plain sch host path Hsch Hhost Hpath). cbn [and_then].
  cbn [Url.scheme Url.netloc Url.path Url.query Url.fragment].
  assert (Hsemi : Str.has_char ";" (String "/" path) = false).
  { apply (has_char_absent Spec.path_char); [now simpl; rewrite Hpath|].
    intros x Hx. apply path_char_facts in Hx. tauto. }
  rewrite Hsemi, andb_false_r. reflexivity.
Qed.

Lemma strip_plain sch host path :
  sch = "http"%string \/ sch = "https"%string ->
  Str.all Spec.host_char host = true -> Str.all Spec.path_char path = true ->
  Str.strip (Spec.plain_url sch host path) = Spec.plain_url sch host path.
Proof.
  intros Hsch Hhost Hpath. unfold Str.strip, Spec.plain_url.
  assert (Hl : Str.lstrip Str.isspace (sch +:+ "://" +:+ host +:+ String "/" path)
               = sch +:+ "://" +:+ host +:+ String "/" path)
    by (destruct Hsch as [-> | ->]; reflexivity).
  rewrite Hl. apply rstrip_none. intros c Hc.
  assert (Hall : Str.all (fun c => negb (Str.isspace c))
                   (sch +:+ "://" +:+ host +:+ String "/" path) = true).
  { rewrite !all_app.
    rewrite (all_weaken Spec.host_char _ host) by
      (try assumption; intros x Hx; apply host_char_facts in Hx; now destruct Hx as (_ & -> & _)).
    change (String "/" path) with ("/" +:+ path). rewrite all_app.
    rewrite (all_weaken Spec.path_char _ path) by
      (try assumption; intros x Hx; apply path_char_facts in Hx; now destruct Hx as (_ & -> & _)).
    destruct Hsch as [-> | ->]; reflexivity. }
  rewrite all_spec in Hall. apply negb_true_iff. now apply Hall.
Qed.

Lemma plain_url_not_canonical sch host path :
  sch = "http"%string \/ sch = "https"%string ->
  ~ Spec.canonical_id (Spec.plain_url sch host path).
Proof.
  intros Hsch. apply fullmatch_token_false. unfold Re.fullmatch_token, Spec.plain_url.
  destruct Hsch as [-> | ->]; reflexivity.
Qed.

End PlainUrls2.

Section LinkShapes.
Context `{IpLiteralCheck}.

Lemma resolve_plain sch host path expected :
  sch = "http"%string \/ sch = "https"%string ->
  Spec.plain_google_host host -> Str.all Spec.path_char path = true ->
  Ids._resolve_drive_id (Some (Spec.plain_url sch host path)) expected =
    if String.eqb expected "folder" && Str.contains "/file/" (String "/" path)
    then Raise (ValidationError "Expected folder link/ID, but file link was provided.")
    else if String.eqb expected "file" && Str.contains "/folders/" (String "/" path)
    then Raise (ValidationError "Expected file link/ID, but folder link was provided.")
    else
      match Ids.first_search [Ids._PATH_FOLDER_RE; Ids._PATH_FILE_D_RE; Ids._PATH_D_RE]
              (String "/" path) with
      | Some g => Return g
      | None => Raise (Ids.could_not_extract expected (Spec.plain_url sch host path))
      end.
Proof.
  intros Hsch [Hhost Hgoogle] Hpath. unfold Ids._resolve_drive_id.
  rewrite (strip_plain sch host path Hsch Hhost Hpath).
  assert (Hne : Url.is_empty (Spec.plain_url sch host path) = false)
    by (destruct Hsch as [-> | ->]; reflexivity).
  rewrite Hne.
  pose proof (plain_url_not_canonical sch host path Hsch) as Hnc.
  apply fullmatch_token_false in Hnc. rewrite Hnc.
  rewrite (urlparse_plain sch host path Hsch Hhost Hpath). cbn [and_then].
  cbn [Url.scheme Url.netloc Url.path Url.query].
  assert (Hs : existsb (String.eqb sch) ["http"; "https"]%string = true)
    by (destruct Hsch as [-> | ->]; reflexivity).
  rewrite Hs. apply endswith_spec in Hgoogle. rewrite Hgoogle. cbn [negb].
  destruct (_ && _); [reflexivity|]. destruct (_ && _); [reflexivity|].
  destruct (Ids.first_search _ _); reflexivity.
Qed.

Lemma contains_step sub a s :
  Str.startswith sub (String a s) = false ->
  Str.contains sub (String a s) = Str.contains sub s.
Proof. intros Hs. cbn [Str.contains]. now rewrite Hs. Qed.

Lemma search_step lit a s :
  Re.match_at lit (String a s) = None ->
  Re.search lit (String a s) = Re.search lit s.
Proof. intros Hs. cbn [Re.search]. now rewrite Hs. Qed.

Lemma search_head lit s g : Re.match_at lit s = Some g -> Re.search lit s = Some g.
Proof. intros Hs. destruct s; simpl; now rewrite Hs. Qed.

Lemma match_at_not_prefix lit s : Str.startswith lit s = false -> Re.match_at lit s = None.
Proof. intros Hs. unfold Re.match_at. now rewrite Hs. Qed.

Lemma no_id_head_slash t : Spec.no_id_head (String "/" t).
Proof.
  intros c rest [= <- _]. rewrite <- drive_id_char_spec. vm_compute. discriminate.
Qed.

Lemma no_id_head_empty : Spec.no_id_head "".
Proof. intros c rest; discriminate. Qed.

Lemma canonical_length id : Spec.canonical_id id -> 10 <= String.length id.
Proof. now intros [_ ?]. Qed.

Lemma folder_path_chars id :
  Spec.canonical_id id -> Str.all Spec.path_char ("drive/folders/" +:+ id) = true.
Proof.
  intros Hid. rewrite all_app. rewrite (all_weaken _ _ id id_char_path_char (all_id_chars id Hid)).
  reflexivity.
Qed.

Lemma file_path_chars id :
  Spec.canonical_id id -> Str.all Spec.path_char ("file/d/" +:+ id +:+ "/view") = true.
Proof.
  intros Hid. rewrite !all_app. rewrite (all_weaken _ _ id id_char_path_char (all_id_chars id Hid)).
  reflexivity.
Qed.

Lemma contains_id sub id :
  Str.all Re.drive_id_char id = true ->
  match sub with String c _ => Re.drive_id_char c = false | EmptyString => False end ->
  Str.contains sub id = false.
Proof.
  intros Hid Hsub. rewrite <- (append_nil_r id), contains_id_skip by assumption.
  destruct sub; [contradiction|reflexivity].
Qed.

Lemma startswith_bare_id_false n p id :
  Str.all Re.drive_id_char id = true -> n <= String.length id ->
  Str.all Re.drive_id_char (Str.take n p) = false ->
  Str.startswith p id = false.
Proof. intros. rewrite <- (append_nil_r id). now apply (startswith_id_false n). Qed.

Lemma folder_path_has_no_file_segment id :
  Spec.canonical_id id -> Str.contains "/file/" ("/drive/folders/" +:+ id) = false.
Proof.
  intros Hid. pose proof (all_id_chars id Hid) as Hall. pose proof (canonical_length id Hid) as Hl.
  cbn [String.append].
  repeat (rewrite contains_step by reflexivity).
  rewrite contains_step.
  - now apply contains_id.
  - change (Str.startswith "/file/" (String "/" id)) with (Str.startswith "file/" id).
    apply (startswith_bare_id_false 5); [assumption|lia|reflexivity].
Qed.

Lemma file_path_has_no_folders_segment id :
  Spec.canonical_id id -> Str.contains "/folders/" ("/file/d/" +:+ id +:+ "/view") = false.
Proof.
  intros Hid. pose proof (all_id_chars id Hid) as Hall. pose proof (canonical_length id Hid) as Hl.
  cbn [String.append].
  repeat (rewrite contains_step by reflexivity).
  rewrite contains_step.
  - rewrite contains_id_skip; [reflexivity|assumption|reflexivity].
  - change (Str.startswith "/folders/" (String "/" (id +:+ "/view")))
      with (Str.startswith "folders/" (id +:+ "/view")).
    apply (startswith_id_false 8); [assumption|lia|reflexivity].
Qed.

Lemma folder_path_search id :
  Spec.canonical_id id ->
  Re.search Ids._PATH_FOLDER_RE ("/drive/folders/" +:+ id) = Some id.
Proof.
  intros Hid. apply search_head, match_at_spec. exists ""%string.
  split; [now rewrite append_nil_r|]. split; [assumption|apply no_id_head_empty].
Qed.

Lemma file_path_search_folder id :
  Spec.canonical_id id ->
  Re.search Ids._PATH_FOLDER_RE ("/file/d/" +:+ id +:+ "/view") = None.
Proof.
  intros Hid. pose proof (all_id_chars id Hid) as Hall. pose proof (canonical_length id Hid) as Hl.
  cbn [String.append].
  repeat (rewrite search_step by reflexivity).
  rewrite search_step.
  - rewrite search_id_skip; [reflexivity|assumption|reflexivity].
  - apply match_at_not_prefix.
    change (Str.startswith Ids._PATH_FOLDER_RE (String "/" (id +:+ "/view")))
      with (Str.startswith "drive/folders/" (id +:+ "/view")).
    apply (startswith_id_false 10); [assumption|lia|reflexivity].
Qed.

Lemma file_path_search_file id :
  Spec.canonical_id id ->
  Re.search Ids._PATH_FILE_D_RE ("/file/d/" +:+ id +:+ "/view") = Some id.
Proof.
  intros Hid. apply search_head, match_at_spec. exists "/view"%string.
  split; [reflexivity|]. split; [assumption|apply no_id_head_slash].
Qed.

(** Claim C3.  For a canonical ID, its folder link
    [sch://host/drive/folders/<id>] and its file link
    [sch://host/file/d/<id>/view] on a host of the service: the folder link
    resolves to the ID as a folder and the file link as a file, while the
    folder link as a file and the file link as a folder fail with
    [InvalidInput] and the message that names the mismatch. *)
Theorem link_kind_is_checked sch host id :
  sch = "http"%string \/ sch = "https"%string ->
  Spec.plain_google_host host -> Spec.canonical_id id ->
  Ids.resolve_folder_id (Some (Spec.folder_url sch host id)) = Return id /\
  Ids.resolve_file_id (Some (Spec.file_url sch host id)) = Return id /\
  Spec.fails_invalid_input (Ids.resolve_file_id (Some (Spec.folder_url sch host id)))
    "Expected file link/ID, but folder link was provided." /\
  Spec.fails_invalid_input (Ids.resolve_folder_id (Some (Spec.file_url sch host id)))
    "Expected folder link/ID, but file link was provided.".
Proof.
  intros Hsch Hhost Hid.
  unfold Ids.resolve_folder_id, Ids.resolve_file_id, Spec.folder_url, Spec.file_url.
  rewrite !(resolve_plain sch host _ _ Hsch Hhost (folder_path_chars id Hid)).
  rewrite !(resolve_plain sch host _ _ Hsch Hhost (file_path_chars id Hid)).
  change (String "/" ("drive/folders/" +:+ id)) with ("/drive/folders/" +:+ id).
  change (String "/" ("file/d/" +:+ id +:+ "/view")) with ("/file/d/" +:+ id +:+ "/view").
  rewrite (folder_path_has_no_file_segment id Hid), (file_path_has_no_folders_segment id Hid).
  change (Str.contains "/folders/" ("/drive/folders/" +:+ id)) with true.
  change (Str.contains "/file/" ("/file/d/" +:+ id +:+ "/view")) with true.
  cbn [String.eqb Ascii.eqb Bool.eqb andb].
  split; [|split; [|split]].
  - cbn [Ids.first_search]. now rewrite (folder_path_search id Hid).
  - cbn [Ids.first_search].
    now rewrite (file_path_search_folder id Hid), (file_path_search_file id Hid).
  - apply fails_validation.
  - apply fails_validation.
Qed.

End LinkShapes.

(** * Properties of the classifier and the commands *)

Import Cli.

Section Classifier.
Context `{JsonLib} {W A : Type}.

Lemma command_errors_return (func : M W A) p a p1 :
  func p = Some (Return a, p1) -> command_errors func p = Some (Return a, p1).
Proof. intros Hf. unfold command_errors, try_except. now rewrite Hf. Qed.

Lemma command_errors_out_of_fuel (func : M W A) p :
  func p = None -> command_errors func p = None.
Proof. intros Hf. unfold command_errors, try_except. now rewrite Hf. Qed.

Lemma command_errors_invalid_input (func : M W A) p e p1 :
  func p = Some (Raise e, p1) -> Spec.classify e = Some Spec.InvalidInput ->
  command_errors func p =
    Some (Raise (Exit 2), Spec.reported p1 ("Error: " +:+ str_exn e)).
Proof.
  intros Hf Hc. unfold command_errors, try_except. rewrite Hf.
  destruct e; try discriminate; reflexivity.
Qed.

Lemma command_errors_auth (func : M W A) p e p1 :
  func p = Some (Raise e, p1) -> Spec.classify e = Some Spec.AuthenticationFailure ->
  command_errors func p =
    Some (Raise (Exit 3), Spec.reported p1 ("Auth error: " +:+ str_exn e)).
Proof.
  intros Hf Hc. unfold command_errors, try_except. rewrite Hf.
  destruct e; try discriminate; reflexivity.
Qed.

Lemma command_errors_http (func : M W A) p h p1 message :
  func p = Some (Raise (HttpError h), p1) ->
  _extract_http_error h = Return message ->
  command_errors func p =
    Some (Raise (Exit 4),
          Spec.reported p1 ("API error (" +:+ format_status h +:+ "): " +:+ format_value message)).
Proof.
  intros Hf Hm. unfold command_errors, try_except. rewrite Hf.
  unfold bind, lift. rewrite Hm. reflexivity.
Qed.

Lemma command_errors_http_escape (func : M W A) p h p1 e :
  func p = Some (Raise (HttpError h), p1) ->
  _extract_http_error h = Raise e ->
  command_errors func p = Some (Raise e, p1).
Proof.
  intros Hf Hm. unfold command_errors, try_except. rewrite Hf.
  unfold bind, lift. now rewrite Hm.
Qed.

Lemma command_errors_unclassified (func : M W A) p e p1 :
  func p = Some (Raise e, p1) -> Spec.classify e = None ->
  command_errors func p = Some (Raise e, p1).
Proof.
  intros Hf Hc. unfold command_errors, try_except. rewrite Hf.
  destruct e; try discriminate; reflexivity.
Qed.

(** What the wrapper leaves alone, whatever the body raised. *)
Lemma command_errors_frame (func : M W A) p e p1 r p2 :
  func p = Some (Raise e, p1) -> command_errors func p = Some (r, p2) ->
  stdout p2 = stdout p1 /\ calls p2 = calls p1 /\ world p2 = world p1.
Proof.
  intros Hf. unfold command_errors, try_except. rewrite Hf.
  destruct e; cbn; try (intros [= <- <-]; auto).
  unfold bind, lift. destruct (_extract_http_error e); cbn; intros [= <- <-]; auto.
Qed.

End Classifier.

Section Extraction.
Context `{JsonLib}.

Lemma extract_no_content exc :
  content exc = None \/ content exc = Some EmptyString ->
  _extract_http_error exc = Return (JStr (http_str exc)).
Proof. unfold _extract_http_error. intros [-> | ->]; reflexivity. Qed.

Lemma extract_not_json exc body :
  content exc = Some body -> json_loads body = None ->
  _extract_http_error exc = Return (JStr (http_str exc)).
Proof.
  unfold _extract_http_error. intros -> Hj. rewrite Hj. now destruct (Url.is_empty body).
Qed.

Lemma extract_not_object exc body payload :
  content exc = Some body -> json_loads body = Some payload ->
  (forall fields, payload <> JObj fields) ->
  _extract_http_error exc = Return (JStr (http_str exc)).
Proof.
  unfold _extract_http_error. intros -> Hj Hp. rewrite Hj.
  destruct (Url.is_empty body); [reflexivity|].
  destruct payload; try reflexivity. now destruct (Hp fields).
Qed.

Lemma extract_message exc body payload error message :
  content exc = Some body -> body <> EmptyString ->
  json_loads body = Some (JObj payload) ->
  payload !! "error" = Some (JObj error) ->
  error !! "message" = Some message -> truthy message = true ->
  _extract_http_error exc = Return message.
Proof.
  unfold _extract_http_error. intros -> Hne Hj Hp He Ht. rewrite Hj, Hp. cbn.
  rewrite He. cbn. rewrite Ht. now destruct body.
Qed.

Lemma extract_no_message exc body payload :
  content exc = Some body ->
  json_loads body = Some (JObj payload) ->
  match payload !! "error" with
  | None => True
  | Some (JObj error) =>
      match error !! "message" with
      | None => True
      | Some message => truthy message = false
      end
  | Some _ => False
  end ->
  _extract_http_error exc = Return (JStr (http_str exc)).
Proof.
  unfold _extract_http_error. intros -> Hj Hp. rewrite Hj.
  destruct (Url.is_empty body); [reflexivity|].
  destruct (payload !! "error") as [error|]; cbn.
  - destruct error; try contradiction.
    destruct (fields !! "message") as [message|]; cbn; [now rewrite Hp|reflexivity].
  - rewrite lookup_empty. reflexivity.
Qed.

Lemma extract_non_object_error exc body payload error :
  content exc = Some body -> body <> EmptyString ->
  json_loads body = Some (JObj payload) ->
  payload !! "error" = Some error -> (forall fields, error <> JObj fields) ->
  _extract_http_error exc =
    Raise (AttributeError ("'" +:+ type_name error +:+ "' object has no attribute 'get'")).
Proof.
  unfold _extract_http_error. intros -> Hne Hj Hp He. rewrite Hj, Hp. cbn.
  destruct body; [contradiction|]. cbn [Url.is_empty].
  destruct error; try reflexivity. now destruct (He fields).
Qed.

End Extraction.

Section FailFast.
Context `{JsonLib} `{IpLiteralCheck} `{Collaborators W}.

Lemma bind_lift_raise {A B} (r : outcome A) (k : A -> M W B) p e :
  r = Raise e -> bind (lift r) k p = Some (Raise e, p).
Proof. intros ->. reflexivity. Qed.

(** A wrapped body that starts by resolving a locator. *)
Lemma resolving_command_fails_fast {B} (r : outcome string) (k : string -> M W B) p detail :
  Spec.fails_invalid_input r detail ->
  command_errors (bind (lift r) k) p = Some (Raise (Exit 2), Spec.reported p ("Error: " +:+ detail)).
Proof.
  intros (e & Hr & Hc & <-).
  now apply command_errors_invalid_input; [apply bind_lift_raise|].
Qed.

Lemma resolving_command_calls {B} (r : outcome string) (k : string -> M W B) p res p' :
  command_errors (bind (lift r) k) p = Some (res, p') ->
  calls p' <> calls p -> exists id, r = Return id.
Proof.
  intros Hrun Hcalls. destruct r as [id|e]; [now exists id|].
  destruct (command_errors_frame _ p e p res p' (bind_lift_raise _ k p e eq_refl) Hrun)
    as (_ & Hc & _).
  contradiction.
Qed.

(** Claim C8.  When the resolution of the locator fails with
    [InvalidInput], each command that resolves one ([ls], [upload],
    [download], [trash]) ends with exit code 2 after writing
    "Error: <detail>" to standard error, with no collaborator called and the
    world untouched.  Conversely a run of such a command that called a
    collaborator (credential loading comes first, the remote call after it)
    resolved its locator successfully. *)
Theorem resolution_failure_stops_before_auth
    (folder_value file_value output_path csv_path : option string)
    (local_path : string) (output_format : output_format) (fuel : nat)
    (p : process W) :
  (forall detail, Spec.fails_invalid_input (Ids.resolve_folder_id folder_value) detail ->
     list_directory folder_value output_format csv_path p
       = Some (Raise (Exit 2), Spec.reported p ("Error: " +:+ detail)) /\
     upload_file local_path folder_value output_format p
       = Some (Raise (Exit 2), Spec.reported p ("Error: " +:+ detail))) /\
  (forall detail, Spec.fails_invalid_input (Ids.resolve_file_id file_value) detail ->
     download_file fuel file_value output_path p
       = Some (Raise (Exit 2), Spec.reported p ("Error: " +:+ detail)) /\
     trash_file file_value p
       = Some (Raise (Exit 2), Spec.reported p ("Error: " +:+ detail))) /\
  (forall res p',
     list_directory folder_value output_format csv_path p = Some (res, p') \/
     upload_file local_path folder_value output_format p = Some (res, p') ->
     calls p' <> calls p -> exists id, Ids.resolve_folder_id folder_value = Return id) /\
  (forall res p',
     download_file fuel file_value output_path p = Some (res, p') \/
     trash_file file_value p = Some (res, p') ->
     calls p' <> calls p -> exists id, Ids.resolve_file_id file_value = Return id).
Proof.
  split; [|split; [|split]].
  - intros detail Hfail. split; now apply resolving_command_fails_fast.
  - intros detail Hfail. split; now apply resolving_command_fails_fast.
  - intros res p' [Hrun|Hrun] Hcalls;
      exact (resolving_command_calls _ _ p res p' Hrun Hcalls).
  - intros res p' [Hrun|Hrun] Hcalls;
      exact (resolving_command_calls _ _ p res p' Hrun Hcalls).
Qed.

End FailFast.

Section Doctor.
Context `{Collaborators W}.

Lemma is_fail_spec r : Spec.is_fail r = true <-> Spec.has_status "fail" r.
Proof.
  unfold Spec.is_fail, Spec.has_status. destruct (Spec.field "status" r) as [[]|]; split; try discriminate.
  - intros Hs. apply String.eqb_eq in Hs. now subst.
  - intros [= ->]. reflexivity.
Qed.

Lemma any_fail_spec checks :
  existsb Spec.is_fail checks = true <-> exists c, In c checks /\ Spec.has_status "fail" c.
Proof.
  rewrite existsb_exists. split; intros (c & Hin & Hc); exists c; split; auto;
    now apply is_fail_spec.
Qed.

Lemma path_outcome_raises r e :
  path_outcome r = Raise e -> exists msg, e = OtherError msg.
Proof. destruct r; [intros [= <-]; eauto|discriminate]. Qed.

Lemma config_dir_raises e : config_dir = Raise e -> exists msg, e = OtherError msg.
Proof.
  unfold config_dir. destruct (env_get _); [apply path_outcome_raises|].
  destruct (path_outcome home) eqn:Hh; [discriminate|].
  cbn [and_then]. intros [= <-]. eapply path_outcome_raises; eassumption.
Qed.

Lemma credentials_file_raises e :
  credentials_file = Raise e -> exists msg, e = OtherError msg.
Proof.
  unfold credentials_file. destruct (env_get _); [apply path_outcome_raises|].
  destruct config_dir eqn:Hc; [discriminate|].
  cbn [and_then]. intros [= <-]. now apply config_dir_raises.
Qed.

Lemma doctor_aborts p e : credentials_file = Raise e -> doctor p = Some (Raise e, p).
Proof. intros Hpath. unfold doctor, bind, lift. now rewrite Hpath. Qed.

End Doctor.

Section DoctorClaim.
Context `{Collaborators W}.

(** Claim C9, at the environments where the code departs from it.  When the
    path of the credentials file cannot be computed ([Path.home()] or
    [expanduser()] raises [RuntimeError], and [credentials_file()] is called
    outside every [try]), [doctor] stops at its second row: the error
    escapes, no later check is run, the row recorded so far is not printed,
    and the exit code is 1 though no check has reported "fail". *)
Theorem doctor_aborts_without_credentials_path (p : process W) e :
  credentials_file = Raise e ->
  doctor p = Some (Raise e, p) /\
  (exists msg, e = OtherError msg) /\
  exit_code (Raise e : outcome unit) = 1%Z.
Proof.
  intros Hpath. split; [now apply doctor_aborts|].
  destruct (credentials_file_raises e Hpath) as (msg & ->).
  split; [now exists msg|reflexivity].
Qed.

End DoctorClaim.

Section ClassifierClaims.
Context `{JsonLib}.

(** Claim C4, at the inputs where the code departs from it.  For a body that
    decodes to a JSON object whose member "error" is no object,
    [_extract_http_error] raises [AttributeError] instead of falling back to
    [str(exc)]. *)
Theorem extraction_fallback_misses_non_object_error exc body payload error :
  content exc = Some body -> body <> EmptyString ->
  json_loads body = Some (JObj payload) ->
  payload !! "error" = Some error -> (forall fields, error <> JObj fields) ->
  _extract_http_error exc =
    Raise (AttributeError ("'" +:+ type_name error +:+ "' object has no attribute 'get'")) /\
  _extract_http_error exc <> Return (JStr (http_str exc)).
Proof.
  intros Hc Hne Hj Hp He.
  rewrite (extract_non_object_error exc body payload error Hc Hne Hj Hp He).
  split; [reflexivity|discriminate].
Qed.

(** Claim C1, at the inputs where the code departs from it.  When the
    wrapped body raises an [HttpError] whose body decodes to a JSON object
    with a member "error" that is no object, [command_errors] lets an
    [AttributeError] escape: no "API error" line is written and the exit
    code is 1, not 4. *)
Theorem remote_failure_escapes_classifier {W A} (func : M W A) p p1 exc body payload error :
  func p = Some (Raise (HttpError exc), p1) ->
  content exc = Some body -> body <> EmptyString ->
  json_loads body = Some (JObj payload) ->
  payload !! "error" = Some error -> (forall fields, error <> JObj fields) ->
  let escaped :=
    AttributeError ("'" +:+ type_name error +:+ "' object has no attribute 'get'") in
  command_errors func p = Some (Raise escaped, p1) /\
  Spec.classify escaped = None /\
  exit_code (Raise escaped : outcome A) = 1%Z.
Proof.
  intros Hf Hc Hne Hj Hp He escaped. split; [|split; reflexivity].
  apply (command_errors_http_escape func p exc p1 escaped Hf).
  now apply (extract_non_object_error exc body payload error).
Qed.

End ClassifierClaims.

(** C4 on the body [{"error":"invalid_grant"}]. *)
Lemma extraction_fallback_witness :
  @_extract_http_error Spec.sample_json Spec.oauth_error
    = Raise (AttributeError "'str' object has no attribute 'get'").
Proof.
  refine (proj1 (@extraction_fallback_misses_non_object_error Spec.sample_json Spec.oauth_error
                   Spec.oauth_error_body {[ "error"%string := JStr "invalid_grant" ]}
                   (JStr "invalid_grant") eq_refl _ eq_refl _ _)).
  - discriminate.
  - vm_compute. reflexivity.
  - discriminate.
Defined.

(** C1 on [trash] with a remote call that answers 400 and the body
    [{"error":"invalid_grant"}]: the run ends with an [AttributeError] and
    an empty standard error. *)
Lemma remote_failure_witness :
  @trash_file Spec.sample_json Spec.reject_brackets unit (Spec.remote_fails (HttpError Spec.oauth_error))
    (Some Spec.sample_id) Spec.fresh
  = Some (Raise (AttributeError "'str' object has no attribute 'get'"),
          {| stdout := []; stderr := [];
             calls := [EvLoadCredentials true; EvBuild; EvRemote "update"]; world := tt |}).
Proof.
  unfold trash_file.
  refine (proj1 (@remote_failure_escapes_classifier Spec.sample_json unit unit _ Spec.fresh _ Spec.oauth_error
                   Spec.oauth_error_body {[ "error"%string := JStr "invalid_grant" ]}
                   (JStr "invalid_grant") _ eq_refl _ eq_refl _ _)).
  - vm_compute. reflexivity.
  - discriminate.
  - vm_compute. reflexivity.
  - discriminate.
Defined.

(** * Standard output and the classifier's mapping *)

Section Quiet.
Context `{JsonLib} `{IpLiteralCheck} `{Collaborators W}.

Lemma silent_quiet {A} (c : M W A) : Spec.silent c -> Spec.quiet_on_raise c.
Proof. intros Hc p e p1. apply Hc. Qed.

Lemma silent_ret {A} (a : A) : Spec.silent (ret a : M W A).
Proof. intros p r p1 [= <- <-]. reflexivity. Qed.

Lemma silent_raise {A} e : Spec.silent (raise e : M W A).
Proof. intros p r p1 [= <- <-]. reflexivity. Qed.

Lemma silent_lift {A} (r : outcome A) : Spec.silent (lift r : M W A).
Proof. intros p r' p1 [= <- <-]. reflexivity. Qed.

Lemma silent_call {A} ev (f : W -> outcome A * W) : Spec.silent (call ev f).
Proof. intros p r p1. unfold call. destruct (f (world p)). intros [= <- <-]. reflexivity. Qed.

Lemma silent_call_auth {A} ev (f : W -> (string + A) * W) : Spec.silent (call_auth ev f).
Proof. apply silent_call. Qed.

Lemma silent_bind {A B} (c : M W A) (k : A -> M W B) :
  Spec.silent c -> (forall a, Spec.silent (k a)) -> Spec.silent (bind c k).
Proof.
  intros Hc Hk p r p2. unfold bind. destruct (c p) as [[[a|e] p1]|] eqn:Hcp; [| |discriminate].
  - intros Hka. rewrite (Hk a p1 r p2 Hka). eapply Hc; eassumption.
  - intros [= <- <-]. eapply Hc; eassumption.
Qed.

Lemma quiet_bind {A B} (c : M W A) (k : A -> M W B) :
  Spec.silent c -> (forall a, Spec.quiet_on_raise (k a)) -> Spec.quiet_on_raise (bind c k).
Proof.
  intros Hc Hk p e p2. unfold bind. destruct (c p) as [[[a|e1] p1]|] eqn:Hcp; [| |discriminate].
  - intros Hka. rewrite (Hk a p1 e p2 Hka). eapply Hc; eassumption.
  - intros [= <- <-]. eapply Hc; eassumption.
Qed.

Lemma quiet_echo message : Spec.quiet_on_raise (echo message : M W unit).
Proof. intros p e p1. discriminate. Qed.

Lemma silent_render records fmt csv_path : Spec.silent (render_records records fmt csv_path).
Proof.
  unfold render_records. destruct fmt; [apply silent_ret|apply silent_ret|].
  destruct csv_path; [apply silent_call|apply silent_raise].
Qed.

Lemma silent_build write : Spec.silent (build_drive_service write).
Proof.
  unfold build_drive_service. apply silent_bind; [apply silent_call_auth|].
  intros a. apply silent_call.
Qed.

Lemma silent_download fuel service file_id destination :
  Spec.silent (download_chunks fuel service file_id destination).
Proof.
  induction fuel as [|fuel IH]; cbn [download_chunks].
  - intros p r p1. discriminate.
  - apply silent_bind; [apply silent_call|]. intros [|]; [apply silent_ret|exact IH].
Qed.

Lemma quiet_command_errors {A} (c : M W A) :
  Spec.quiet_on_raise c -> Spec.quiet_on_raise (command_errors c).
Proof.
  intros Hc p e p2 Hrun.
  destruct (c p) as [[[a|e1] p1]|] eqn:Hcp.
  - rewrite (command_errors_return c p a p1 Hcp) in Hrun. discriminate.
  - destruct (command_errors_frame c p e1 p1 _ p2 Hcp Hrun) as (-> & _).
    eapply Hc; eassumption.
  - rewrite (command_errors_out_of_fuel c p Hcp) in Hrun. discriminate.
Qed.

End Quiet.

Section Commands.
Context `{JsonLib} `{IpLiteralCheck} `{Collaborators W}.

Ltac quiet_steps :=
  repeat first
    [ apply quiet_command_errors
    | apply quiet_echo
    | apply quiet_bind; [|intros ?]
    | apply silent_bind; [|intros ?]
    | apply silent_lift
    | apply silent_call
    | apply silent_call_auth
    | apply silent_build
    | apply silent_render
    | apply silent_download
    | apply silent_ret
    | apply silent_raise ].

(** Property X4.  Standard output carries successful results only: each
    wrapped command that ends by raising has written nothing to it (the
    result is rendered and echoed last). *)
Theorem failed_commands_print_nothing
    (folder_value file_value output_path csv_path : option string)
    (local_path client_secret : string) (readonly no_launch_browser : bool)
    (output_format : output_format) (fuel : nat) :
  Spec.quiet_on_raise (auth_login client_secret readonly no_launch_browser) /\
  Spec.quiet_on_raise (auth_whoami output_format) /\
  Spec.quiet_on_raise (list_directory folder_value output_format csv_path) /\
  Spec.quiet_on_raise (upload_file local_path folder_value output_format) /\
  Spec.quiet_on_raise (download_file fuel file_value output_path) /\
  Spec.quiet_on_raise (trash_file file_value).
Proof.
  unfold auth_login, auth_whoami, list_directory, upload_file, download_file, trash_file,
    stored_credentials_info.
  repeat split; quiet_steps;
    match goal with
    | |- Spec.quiet_on_raise (match ?x with _ => _ end) => destruct x
    end; quiet_steps.
  apply silent_quiet, silent_raise.
Qed.

End Commands.

Section ClassifierExtras.
Context `{JsonLib}.

(** Property X1.  The classifier's mapping when the wrapped body raises [e]:
    [InvalidInput] gives exit code 2 and "Error: <detail>",
    [AuthenticationFailure] exit code 3 and "Auth error: <detail>", an
    [HttpError] whose message extraction returns gives exit code 4 and
    "API error (<status>): <message>", any other exception passes through;
    the diagnostic goes to standard error, and standard output, the calls
    and the world stay as the body left them. *)
Theorem classifier_maps_failures {W A} (func : M W A) p e p1 :
  func p = Some (Raise e, p1) ->
  (Spec.classify e = Some Spec.InvalidInput ->
     command_errors func p =
       Some (Raise (Exit USER_INPUT_EXIT_CODE), Spec.reported p1 ("Error: " +:+ str_exn e))) /\
  (Spec.classify e = Some Spec.AuthenticationFailure ->
     command_errors func p =
       Some (Raise (Exit AUTH_EXIT_CODE), Spec.reported p1 ("Auth error: " +:+ str_exn e))) /\
  (forall h message, e = HttpError h -> _extract_http_error h = Return message ->
     command_errors func p =
       Some (Raise (Exit API_EXIT_CODE),
             Spec.reported p1 ("API error (" +:+ format_status h +:+ "): "
                               +:+ format_value message))) /\
  (Spec.classify e = None -> command_errors func p = Some (Raise e, p1)) /\
  (forall res p2, command_errors func p = Some (res, p2) ->
     stdout p2 = stdout p1 /\ calls p2 = calls p1 /\ world p2 = world p1).
Proof.
  intros Hf. split; [|split; [|split; [|split]]].
  - now apply command_errors_invalid_input.
  - now apply command_errors_auth.
  - intros h message -> Hm. now apply command_errors_http.
  - now apply command_errors_unclassified.
  - intros res p2. now apply (command_errors_frame func p e p1).
Qed.

(** Property X2.  The message extraction falls back to [str(exc)] for a
    missing or empty body, a body that is not JSON, a payload that is no
    object, an object without "error", and an "error" object whose message
    is missing or falsy; it returns the nested message otherwise. *)
Theorem extraction_falls_back_to_str exc :
  (content exc = None \/ content exc = Some EmptyString ->
     _extract_http_error exc = Return (JStr (http_str exc))) /\
  (forall body, content exc = Some body -> json_loads body = None ->
     _extract_http_error exc = Return (JStr (http_str exc))) /\
  (forall body payload, content exc = Some body -> json_loads body = Some payload ->
     (forall fields, payload <> JObj fields) ->
     _extract_http_error exc = Return (JStr (http_str exc))) /\
  (forall body payload, content exc = Some body -> json_loads body = Some (JObj payload) ->
     payload !! "error" = None ->
     _extract_http_error exc = Return (JStr (http_str exc))) /\
  (forall body payload error, content exc = Some body ->
     json_loads body = Some (JObj payload) -> payload !! "error" = Some (JObj error) ->
     match error !! "message" with
     | Some message =>
         body <> EmptyString ->
         _extract_http_error exc =
           Return (if truthy message then message else JStr (http_str exc))
     | None => _extract_http_error exc = Return (JStr (http_str exc))
     end).
Proof.
  split; [|split; [|split; [|split]]].
  - apply extract_no_content.
  - intros body. apply extract_not_json.
  - intros body payload. apply extract_not_object.
  - intros body payload Hc Hj Hp. apply (extract_no_message exc body payload Hc Hj).
    now rewrite Hp.
  - intros body payload error Hc Hj Hp.
    destruct (error !! "message") as [message|] eqn:Hm.
    + intros Hne. destruct (truthy message) eqn:Ht.
      * now apply (extract_message exc body payload error message).
      * apply (extract_no_message exc body payload Hc Hj). now rewrite Hp, Hm.
    + apply (extract_no_message exc body payload Hc Hj). now rewrite Hp, Hm.
Qed.

(** Property X3.  The example of the specification: a remote call that
    raises status 404 with the body [{"error":{"message":"File not found"}}]
    ends with exit code 4 and "API error (404): File not found". *)
Theorem not_found_example {W A} (func : M W A) p p1 :
  json_loads Spec.not_found_body =
    Some (JObj {[ "error"%string := JObj {[ "message"%string := JStr "File not found" ]} ]}) ->
  func p = Some (Raise (HttpError Spec.not_found_error), p1) ->
  command_errors func p =
    Some (Raise (Exit 4), Spec.reported p1 "API error (404): File not found") /\
  exit_code (Raise (Exit 4) : outcome A) = 4%Z.
Proof.
  intros Hj Hf. split; [|reflexivity].
  apply (command_errors_http func p Spec.not_found_error p1 (JStr "File not found") Hf).
  apply (extract_message Spec.not_found_error Spec.not_found_body
           {[ "error"%string := JObj {[ "message"%string := JStr "File not found" ]} ]}
           {[ "message"%string := JStr "File not found" ]} (JStr "File not found"));
    try reflexivity; [discriminate|assumption].
Qed.

End ClassifierExtras.

(** * The claims on concrete inputs *)

(** The ID of the repository's tests has the canonical shape. *)
Lemma sample_id_canonical : Spec.canonical_id Spec.sample_id.
Proof. apply fullmatch_token_spec. reflexivity. Defined.

(** C6 on the ID of the tests. *)
Lemma canonical_id_resolves_to_itself_witness :
  @Ids.resolve_folder_id Spec.reject_brackets (Some Spec.sample_id) = Return Spec.sample_id /\
  @Ids.resolve_file_id Spec.reject_brackets (Some Spec.sample_id) = Return Spec.sample_id.
Proof.
  exact (@canonical_id_resolves_to_itself Spec.reject_brackets Spec.sample_id
           sample_id_canonical).
Defined.

(** C7 on an input of three spaces. *)
Lemma absent_and_empty_inputs_witness :
  Spec.fails_invalid_input (@Ids.resolve_file_id Spec.reject_brackets (Some "   "))
    "Value cannot be empty." /\
  Spec.fails_invalid_input (@Ids.resolve_folder_id Spec.reject_brackets (Some "   "))
    "Value cannot be empty.".
Proof.
  exact (proj1 (proj2 (@absent_and_empty_inputs Spec.reject_brackets)) "   "%string eq_refl).
Defined.

(** C7 as stated fails on the absent file input: the resolver does not fail
    with [InvalidInput] there. *)
Lemma absent_file_is_not_invalid_input :
  ~ exists detail,
      Spec.fails_invalid_input (@Ids.resolve_file_id Spec.reject_brackets None) detail.
Proof.
  intros (detail & e & Hr & Hc & _). injection Hr as <-. discriminate Hc.
Qed.

(** C10: a resolved ID resolves to itself. *)
Lemma resolver_results_are_canonical_witness :
  @Ids.resolve_folder_id Spec.reject_brackets (Some Spec.sample_id) = Return Spec.sample_id.
Proof.
  refine (proj1 (proj2 (proj2 (@resolver_results_are_canonical Spec.reject_brackets
            (Some Spec.sample_id) Spec.sample_id))) _ _).
  - reflexivity.
  - discriminate.
Defined.

(** [drive.google.com] is a host of the service. *)
Lemma google_host_plain : Spec.plain_google_host "drive.google.com".
Proof. split; [reflexivity|]. exists "drive."%string. reflexivity. Defined.

(** C3 on the links of the tests. *)
Lemma link_kind_is_checked_witness :
  @Ids.resolve_folder_id Spec.reject_brackets
     (Some (Spec.folder_url "https" "drive.google.com" Spec.sample_id)) = Return Spec.sample_id /\
  @Ids.resolve_file_id Spec.reject_brackets
     (Some (Spec.file_url "https" "drive.google.com" Spec.sample_id)) = Return Spec.sample_id /\
  Spec.fails_invalid_input
    (@Ids.resolve_file_id Spec.reject_brackets
       (Some (Spec.folder_url "https" "drive.google.com" Spec.sample_id)))
    "Expected file link/ID, but folder link was provided." /\
  Spec.fails_invalid_input
    (@Ids.resolve_folder_id Spec.reject_brackets
       (Some (Spec.file_url "https" "drive.google.com" Spec.sample_id)))
    "Expected folder link/ID, but file link was provided.".
Proof.
  exact (@link_kind_is_checked Spec.reject_brackets "https" "drive.google.com" Spec.sample_id
           (or_intror eq_refl) google_host_plain sample_id_canonical).
Defined.


(** C8: [ls] on the link to [example.com] stops with exit code 2 and no call. *)
Lemma resolution_failure_stops_before_auth_witness :
  @list_directory Spec.sample_json Spec.reject_brackets unit
     (Spec.remote_fails (OtherError "offline")) (Some Spec.foreign_url) Table None Spec.fresh
  = Some (Raise (Exit 2),
          Spec.reported Spec.fresh "Error: Expected a Google Drive folder link.").
Proof.
  refine (proj1 (proj1 (@resolution_failure_stops_before_auth Spec.sample_json
            Spec.reject_brackets unit (Spec.remote_fails (OtherError "offline"))
            (Some Spec.foreign_url) None None None "" Table 0 Spec.fresh)
            "Expected a Google Drive folder link." _)).
  exists (ValidationError "Expected a Google Drive folder link.").
  split; [vm_compute; reflexivity|]. split; reflexivity.
Defined.

(** C9 with [GDRIVE_CREDENTIALS_FILE=~nosuchuser/creds.json]: [doctor] ends
    with the [RuntimeError] of [expanduser], nothing printed and no
    collaborator called. *)
Lemma doctor_aborts_without_credentials_path_witness :
  @doctor unit Spec.unknown_user Spec.fresh
    = Some (Raise (OtherError "Could not determine home directory."), Spec.fresh) /\
  (exists msg, OtherError "Could not determine home directory." = OtherError msg) /\
  exit_code (Raise (OtherError "Could not determine home directory.") : outcome unit) = 1%Z.
Proof.
  refine (@doctor_aborts_without_credentials_path unit Spec.unknown_user Spec.fresh
            (OtherError "Could not determine home directory.") _).
  vm_compute. reflexivity.
Defined.

(** X1 on a body that raises [ValueError]. *)
Lemma classifier_maps_failures_witness :
  @command_errors Spec.sample_json unit unit (raise (ValueError "csv_path is required"))
     Spec.fresh
  = Some (Raise (Exit 2), Spec.reported Spec.fresh "Error: csv_path is required").
Proof.
  exact (proj1 (@classifier_maps_failures Spec.sample_json unit unit
                  (raise (ValueError "csv_path is required")) Spec.fresh
                  (ValueError "csv_path is required") Spec.fresh eq_refl) eq_refl).
Defined.

(** X3 on [trash] with a remote call that answers 404. *)
Lemma not_found_example_witness :
  @trash_file Spec.sample_json Spec.reject_brackets unit
     (Spec.remote_fails (HttpError Spec.not_found_error)) (Some Spec.sample_id) Spec.fresh
  = Some (Raise (Exit 4),
          Spec.reported
            {| stdout := []; stderr := [];
               calls := [EvLoadCredentials true; EvBuild; EvRemote "update"]; world := tt |}
            "API error (404): File not found").
Proof.
  unfold trash_file.
  refine (proj1 (@not_found_example Spec.sample_json unit unit _ Spec.fresh _ _ _)).
  - vm_compute. reflexivity.
  - vm_compute. reflexivity.
Defined.

(** * The resolver on the other inputs *)

Section ResolverTotal.
Context `{IpLiteralCheck}.

Lemma check_bracketed_netloc_raises netloc e :
  Url._check_bracketed_netloc netloc = Raise e -> exists msg, e = ValueError msg.
Proof.
  unfold Url._check_bracketed_netloc.
  destruct (Str.split1 "[" _) as [before [bracketed|]].
  - destruct (negb _); [intros [= <-]; eauto|].
    destruct (Str.split1 "]" bracketed) as [hostname port].
    destruct (_ && _); [intros [= <-]; eauto|].
    destruct (check_bracketed_host hostname); [intros [= <-]; eauto|discriminate].
  - destruct (check_bracketed_host _); [intros [= <-]; eauto|discriminate].
Qed.

Lemma split_netloc_raises url e :
  Url.split_netloc url = Raise e -> exists msg, e = ValueError msg.
Proof.
  unfold Url.split_netloc. destruct (String.eqb _ _); [|discriminate].
  destruct (Url._splitnetloc url 2) as [netloc rest].
  destruct (_ || _); [intros [= <-]; eauto|].
  destruct (_ && _); [|discriminate].
  destruct (Url._check_bracketed_netloc netloc) eqn:Hc; [discriminate|].
  cbn. intros [= <-]. eapply check_bracketed_netloc_raises; eassumption.
Qed.

Lemma urlsplit_raises url e :
  Url.urlsplit url = Raise e -> exists msg, e = ValueError msg.
Proof.
  unfold Url.urlsplit. destruct (Url.split_scheme _) as [scheme rest].
  destruct (Url.split_netloc rest) as [[netloc rest']|e'] eqn:Hn; cbn.
  - destruct (Url.split_at "#" rest') as [u f]. destruct (Url.split_at "?" u). discriminate.
  - intros [= <-]. eapply split_netloc_raises; eassumption.
Qed.

Lemma urlparse_raises url e :
  Url.urlparse url = Raise e -> exists msg, e = ValueError msg.
Proof.
  unfold Url.urlparse. destruct (Url.urlsplit url) as [r|e'] eqn:Hs; cbn.
  - destruct (_ && _); [destruct (Url._splitparams _)|]; discriminate.
  - intros [= <-]. eapply urlsplit_raises; eassumption.
Qed.

Lemma resolve_raises value expected e :
  Ids._resolve_drive_id (Some value) expected = Raise e ->
  Spec.classify e = Some Spec.InvalidInput.
Proof.
  unfold Ids._resolve_drive_id.
  destruct (Url.is_empty _); [intros [= <-]; reflexivity|].
  destruct (Re.fullmatch_token _); [discriminate|].
  destruct (Url.urlparse _) as [parsed|e'] eqn:Hp; cbn [and_then].
  - repeat match goal with
           | |- (if ?c then _ else _) = _ -> _ => destruct c; [intros [= <-]; reflexivity|]
           end.
    destruct (Ids.first_search _ _); [discriminate|].
    destruct (_ !! _) as [[|q0 ?]|]; try (intros [= <-]; reflexivity).
    destruct (Re.fullmatch_token q0); [discriminate|intros [= <-]; reflexivity].
  - intros [= <-]. destruct (urlparse_raises _ _ Hp) as (msg & ->). reflexivity.
Qed.

(** Property X5.  On a text input the resolver either returns a canonical
    ID or fails with [InvalidInput]: whatever it raises, a [ValidationError]
    of its own or a [ValueError] of the URL parser, the classifier turns
    into exit code 2. *)
Theorem resolution_of_text_is_classified (value expected : string) :
  (exists g, Ids._resolve_drive_id (Some value) expected = Return g /\ Spec.canonical_id g) \/
  (exists detail, Spec.fails_invalid_input (Ids._resolve_drive_id (Some value) expected) detail).
Proof.
  destruct (Ids._resolve_drive_id (Some value) expected) as [g|e] eqn:Hr.
  - left. exists g. split; [reflexivity|]. eapply resolve_canonical_result; eassumption.
  - right. exists (str_exn e), e. repeat split. eapply resolve_raises; eassumption.
Qed.

End ResolverTotal.

Section Trim.

Lemma lstrip_head p s :
  match Str.lstrip p s with String c _ => p c = false | EmptyString => True end.
Proof.
  induction s as [|a s IH]; simpl; [exact I|].
  destruct (p a) eqn:Ha; [exact IH|exact Ha].
Qed.

Lemma rstrip_idempotent p s : Str.rstrip p (Str.rstrip p s) = Str.rstrip p s.
Proof.
  induction s as [|a s IH]; [reflexivity|]. cbn [Str.rstrip].
  destruct (Str.rstrip p s) as [|b r] eqn:Hr.
  - destruct (p a) eqn:Ha; [reflexivity|]. cbn [Str.rstrip]. now rewrite Ha.
  - change (Str.rstrip p (String a (String b r)))
      with (match Str.rstrip p (String b r) with
            | EmptyString => if p a then EmptyString else String a EmptyString
            | r' => String a r'
            end).
    now rewrite IH.
Qed.

Lemma rstrip_keeps_head p c s :
  p c = false -> exists t, Str.rstrip p (String c s) = String c t.
Proof.
  intros Hc. cbn [Str.rstrip]. destruct (Str.rstrip p s); [rewrite Hc|]; eauto.
Qed.

Lemma strip_idempotent s : Str.strip (Str.strip s) = Str.strip s.
Proof.
  unfold Str.strip. pose proof (lstrip_head Str.isspace s) as Hh.
  destruct (Str.lstrip Str.isspace s) as [|c t]; [reflexivity|].
  destruct (rstrip_keeps_head Str.isspace c t Hh) as (u & Hu). rewrite Hu.
  rewrite (lstrip_id Str.isspace (String c u) Hh), <- Hu. apply rstrip_idempotent.
Qed.

Lemma strip_head s :
  match Str.strip s with String c _ => Str.isspace c = false | EmptyString => True end.
Proof.
  unfold Str.strip. pose proof (lstrip_head Str.isspace s) as Hh.
  destruct (Str.lstrip Str.isspace s) as [|c t]; [exact I|].
  destruct (rstrip_keeps_head Str.isspace c t Hh) as (u & ->). exact Hh.
Qed.

End Trim.

Section TrimResolver.
Context `{IpLiteralCheck}.

(** Property X6.  White space around the input does not count: the input
    resolves to an ID exactly when its stripped form does, and an input
    whose stripped form is a canonical ID resolves to that ID. *)
Theorem surrounding_space_is_ignored (value expected : string) :
  (forall g, Ids._resolve_drive_id (Some value) expected = Return g <->
             Ids._resolve_drive_id (Some (Str.strip value)) expected = Return g) /\
  (forall s, Spec.canonical_id s -> Str.strip value = s ->
             Ids._resolve_drive_id (Some value) expected = Return s).
Proof.
  assert (Hiff : forall g, Ids._resolve_drive_id (Some value) expected = Return g <->
             Ids._resolve_drive_id (Some (Str.strip value)) expected = Return g).
  { intros g. unfold Ids._resolve_drive_id. rewrite strip_idempotent.
    destruct (Url.is_empty _); [reflexivity|].
    destruct (Re.fullmatch_token _); [reflexivity|].
    destruct (Url.urlparse _) as [parsed|e']; cbn [and_then]; [|reflexivity].
    repeat match goal with
           | |- (if ?c then _ else _) = _ <-> _ => destruct c; [reflexivity|]
           end.
    destruct (Ids.first_search _ _); [reflexivity|].
    destruct (_ !! _) as [[|q0 ?]|]; try (split; discriminate).
    destruct (Re.fullmatch_token q0); [reflexivity|split; discriminate]. }
  split; [exact Hiff|].
  intros s Hs Heq. apply Hiff. rewrite Heq. now apply resolve_canonical.
Qed.

End TrimResolver.

Section QueryUrls.
Context `{IpLiteralCheck}.

Lemma query_char_facts c :
  Spec.query_char c = true ->
  Url.unsafe_url_byte c = false /\ Str.isspace c = false /\ c <> "#"%char.
Proof. destruct c as [[] [] [] [] [] [] [] []]; vm_compute; intros; repeat split; congruence. Qed.

Lemma find_from_after_host c host rest :
  Str.all Spec.host_char host = true ->
  (forall x, Spec.host_char x = true -> x <> c) ->
  Str.find_from c 2 ("//" +:+ host +:+ rest) =
    option_map (Nat.add (2 + String.length host)) (Str.find c rest).
Proof.
  intros Hhost Hc. unfold Str.find_from.
  change (Str.drop 2 ("//" +:+ host +:+ rest)) with (host +:+ rest).
  change (Nat.leb 2 (String.length ("//" +:+ host +:+ rest))) with true.
  rewrite find_app, (find_absent Spec.host_char c host Hhost Hc).
  destruct (Str.find c rest); cbn; [f_equal; lia|reflexivity].
Qed.

Lemma splitnetloc_slash host rest :
  Str.all Spec.host_char host = true ->
  Url._splitnetloc ("//" +:+ host +:+ String "/" rest) 2 = (host, String "/" rest).
Proof.
  intros Hhost.
  assert (Hne : forall c, In c ["/"; "?"; "#"]%char ->
                forall x, Spec.host_char x = true -> x <> c).
  { intros c Hc x Hx. apply host_char_facts in Hx.
    destruct Hc as [<-|[<-|[<-|[]]]]; tauto. }
  unfold Url._splitnetloc, Url.min_delim.
  rewrite !find_from_after_host by (try assumption; apply Hne; cbn; tauto).
  cbn [Str.find Ascii.eqb Bool.eqb option_map].
  assert (Hlen : String.length ("//" +:+ host +:+ String "/" rest)
                 = S (2 + String.length host + String.length rest)).
  { cbn [String.append String.length]. rewrite length_append. cbn [String.length]. lia. }
  rewrite Hlen.
  replace (Nat.min (S (2 + String.length host + String.length rest))
             (2 + String.length host + 0)) with (2 + String.length host) by lia.
  assert (Hmin : forall o : option nat,
            match option_map (Nat.add (2 + String.length host)) (option_map S o) with
            | Some wdelim => Nat.min (2 + String.length host) wdelim
            | None => 2 + String.length host
            end = 2 + String.length host).
  { intros [k|]; cbn; lia. }
  rewrite !Hmin.
  replace (2 + String.length host - 2) with (String.length host) by lia.
  change (Str.drop 2 ("//" +:+ host +:+ String "/" rest)) with (host +:+ String "/" rest).
  change (Str.drop (2 + String.length host) ("//" +:+ host +:+ String "/" rest))
    with (Str.drop (String.length host) (host +:+ String "/" rest)).
  now rewrite take_append, drop_append.
Qed.

Lemma split1_at c a b :
  Str.find c a = None -> Str.split1 c (a +:+ String c b) = (a, Some b).
Proof.
  induction a as [|x a IH]; cbn [String.append Str.split1 Str.find].
  - intros _. now rewrite Ascii.eqb_refl.
  - destruct (Ascii.eqb x c); [discriminate|].
    destruct (Str.find c a); [discriminate|]. intros _. now rewrite IH.
Qed.

Lemma has_char_app c a b : Str.has_char c (a +:+ b) = Str.has_char c a || Str.has_char c b.
Proof.
  unfold Str.has_char. rewrite find_app.
  destruct (Str.find c a); [reflexivity|]. now destruct (Str.find c b).
Qed.

Lemma urlparse_query sch host path query :
  sch = "http"%string \/ sch = "https"%string ->
  Str.all Spec.host_char host = true -> Str.all Spec.path_char path = true ->
  Str.all Spec.query_char query = true ->
  Url.urlparse (Spec.query_url sch host path query) =
  Return {| Url.scheme := sch; Url.netloc := host; Url.path := String "/" path;
            Url.params := ""; Url.query := query; Url.fragment := "" |}.
Proof.
  intros Hsch Hhost Hpath Hquery. unfold Url.urlparse, Url.urlsplit, Spec.query_url.
  set (rest := path +:+ String "?" query).
  assert (Hl : Str.lstrip Url.c0_control_or_space (sch +:+ "://" +:+ host +:+ String "/" rest)
               = sch +:+ "://" +:+ host +:+ String "/" rest)
    by (destruct Hsch as [-> | ->]; reflexivity).
  rewrite Hl.
  assert (Hrest : Str.remove Url.unsafe_url_byte rest = rest).
  { unfold rest. rewrite remove_app, (remove_path path Hpath).
    change (String "?" query) with ("?" +:+ query).
    rewrite remove_app, (remove_outside Spec.query_char _ query Hquery); [reflexivity|].
    intros c Hc. now apply query_char_facts in Hc. }
  assert (Hr : Str.remove Url.unsafe_url_byte (sch +:+ "://" +:+ host +:+ String "/" rest)
               = sch +:+ "://" +:+ host +:+ String "/" rest).
  { rewrite !remove_app, (remove_host host Hhost).
    change (String "/" rest) with ("/" +:+ rest). rewrite remove_app, Hrest.
    destruct Hsch as [-> | ->]; reflexivity. }
  rewrite Hr.
  assert (Hs : Url.split_scheme (sch +:+ "://" +:+ host +:+ String "/" rest)
               = (sch, "//" +:+ host +:+ String "/" rest))
    by (destruct Hsch as [-> | ->]; reflexivity).
  rewrite Hs.
  assert (Ho : Str.has_char "[" host = false).
  { apply (has_char_absent Spec.host_char); [assumption|].
    intros x Hx. apply host_char_facts in Hx. tauto. }
  assert (Hc : Str.has_char "]" host = false).
  { apply (has_char_absent Spec.host_char); [assumption|].
    intros x Hx. apply host_char_facts in Hx. tauto. }
  assert (Hn : Url.split_netloc ("//" +:+ host +:+ String "/" rest)
               = Return (host, String "/" rest)).
  { unfold Url.split_netloc.
    change (String.eqb (Str.take 2 ("//" +:+ host +:+ String "/" rest)) "//") with true.
    cbv iota. rewrite (splitnetloc_slash host rest Hhost), Ho, Hc. reflexivity. }
  rewrite Hn. cbn [and_then].
  assert (Hpf : forall c, In c ["#"; "?"; ";"]%char -> Str.find c (String "/" path) = None).
  { intros c Hc'. apply (find_absent Spec.path_char); [now simpl; rewrite Hpath|].
    intros x Hx. apply path_char_facts in Hx.
    destruct Hc' as [<-|[<-|[<-|[]]]]; tauto. }
  assert (Hfrag : Str.has_char "#" (String "/" rest) = false).
  { unfold rest. change (String "/" (path +:+ String "?" query))
      with (String "/" path +:+ "?" +:+ query).
    rewrite !has_char_app. unfold Str.has_char at 1. rewrite Hpf by (cbn; tauto).
    rewrite (has_char_absent Spec.query_char "#" query Hquery); [reflexivity|].
    intros x Hx. apply query_char_facts in Hx. tauto. }
  unfold Url.split_at. rewrite Hfrag.
  assert (Hq : Str.has_char "?" (String "/" rest) = true).
  { unfold rest. change (String "/" (path +:+ String "?" query))
      with (String "/" path +:+ "?" +:+ query).
    rewrite !has_char_app. cbn. now rewrite orb_true_r. }
  rewrite Hq.
  assert (Hsp : Str.split1 "?" (String "/" rest) = (String "/" path, Some query)).
  { unfold rest. change (String "/" (path +:+ String "?" query))
      with (String "/" path +:+ String "?" query).
    apply split1_at. apply Hpf. cbn; tauto. }
  rewrite Hsp. cbn [and_then default from_option id Url.scheme Url.path Url.netloc Url.query
                    Url.fragment].
  assert (Hsemi : Str.has_char ";" (String "/" path) = false).
  { unfold Str.has_char. rewrite Hpf by (cbn; tauto). reflexivity. }
  cbn. rewrite Hsemi, andb_false_r. reflexivity.
Qed.

End QueryUrls.

Section MoreLinks.
Context `{IpLiteralCheck}.

Lemma split_absent c s : Str.find c s = None -> Str.split c s = [s].
Proof.
  induction s as [|a s IH]; cbn [Str.split Str.find]; [reflexivity|].
  destruct (Ascii.eqb a c); [discriminate|].
  destruct (Str.find c s); [discriminate|]. intros _. now rewrite IH.
Qed.

Lemma replace_absent a b s : Str.find a s = None -> Str.replace_char a b s = s.
Proof.
  induction s as [|x s IH]; cbn [Str.replace_char Str.find]; [reflexivity|].
  destruct (Ascii.eqb x a); [discriminate|].
  destruct (Str.find a s); [discriminate|]. intros _. now rewrite IH.
Qed.

Lemma id_find_none id c :
  Spec.canonical_id id -> Re.drive_id_char c = false -> Str.find c id = None.
Proof.
  intros Hid Hc. apply (find_absent Re.drive_id_char); [now apply all_id_chars|].
  intros x Hx ->. congruence.
Qed.

Lemma unquote_plain s : Str.find "%" s = None -> Url.unquote s = s.
Proof. intros Hs. unfold Url.unquote, Str.has_char. now rewrite Hs. Qed.

Lemma id_query_values id :
  Spec.canonical_id id -> Spec.query_values "id" ("id=" +:+ id) = [id].
Proof.
  intros Hid. unfold Spec.query_values, Url.parse_qsl.
  assert (Hamp : Str.find "&" ("id=" +:+ id) = None).
  { rewrite find_app. cbn. now rewrite (id_find_none id "&" Hid). }
  rewrite (split_absent _ _ Hamp). cbn [flat_map app].
  change (Url.is_empty ("id=" +:+ id)) with false. cbv iota.
  change (Str.split1 "=" ("id=" +:+ id)) with ("id"%string, Some id). cbv iota beta.
  rewrite (canonical_nonempty id Hid). cbn [negb].
  rewrite (replace_absent "+" " " id) by now apply id_find_none.
  rewrite (unquote_plain id) by now apply id_find_none.
  reflexivity.
Qed.

Lemma id_query_chars id : Spec.canonical_id id -> Str.all Spec.query_char ("id=" +:+ id) = true.
Proof.
  intros Hid. rewrite all_app.
  rewrite (all_weaken Re.drive_id_char Spec.query_char id); [reflexivity| |now apply all_id_chars].
  intros c. destruct c as [[] [] [] [] [] [] [] []]; vm_compute; congruence.
Qed.

Lemma strip_no_space s :
  Str.all (fun c => negb (Str.isspace c)) s = true -> Str.strip s = s.
Proof.
  intros Hs. unfold Str.strip. rewrite all_spec in Hs.
  assert (Hns : forall c, In c (Spec.chars s) -> Str.isspace c = false)
    by (intros c Hc; apply negb_true_iff; auto).
  rewrite lstrip_id; [now apply rstrip_none|].
  destruct s; [exact I|]. apply Hns. now left.
Qed.

Lemma open_url_no_space sch host id :
  sch = "http"%string \/ sch = "https"%string ->
  Str.all Spec.host_char host = true -> Spec.canonical_id id ->
  Str.strip (Spec.open_url sch host id) = Spec.open_url sch host id.
Proof.
  intros Hsch Hhost Hid. apply strip_no_space. unfold Spec.open_url, Spec.query_url.
  rewrite !all_app.
  rewrite (all_weaken Spec.host_char _ host) by
    (try assumption; intros x Hx; apply host_char_facts in Hx; now destruct Hx as (_ & -> & _)).
  change (String "/" ("open" +:+ String "?" ("id=" +:+ id))) with ("/open?id=" +:+ id).
  rewrite all_app.
  rewrite (all_weaken Re.drive_id_char _ id);
    [destruct Hsch as [-> | ->]; reflexivity| |now apply all_id_chars].
  intros x Hx. now rewrite (id_char_not_space x Hx).
Qed.

Lemma resolve_open_url sch host id expected :
  sch = "http"%string \/ sch = "https"%string ->
  Spec.plain_google_host host -> Spec.canonical_id id ->
  Ids._resolve_drive_id (Some (Spec.open_url sch host id)) expected = Return id.
Proof.
  intros Hsch [Hhost Hgoogle] Hid. unfold Ids._resolve_drive_id.
  rewrite (open_url_no_space sch host id Hsch Hhost Hid).
  assert (Hne : Url.is_empty (Spec.open_url sch host id) = false)
    by (destruct Hsch as [-> | ->]; reflexivity).
  assert (Hnc : Re.fullmatch_token (Spec.open_url sch host id) = false)
    by (unfold Re.fullmatch_token; destruct Hsch as [-> | ->]; reflexivity).
  rewrite Hne, Hnc. unfold Spec.open_url.
  rewrite (urlparse_query sch host "open" _ Hsch Hhost eq_refl (id_query_chars id Hid)).
  cbn [and_then Url.scheme Url.netloc Url.path Url.query].
  assert (Hs : existsb (String.eqb sch) ["http"; "https"]%string = true)
    by (destruct Hsch as [-> | ->]; reflexivity).
  rewrite Hs. apply endswith_spec in Hgoogle. rewrite Hgoogle. cbn [negb].
  change (Str.contains "/file/" "/open") with false.
  change (Str.contains "/folders/" "/open") with false.
  rewrite !andb_false_r.
  change (Ids.first_search [Ids._PATH_FOLDER_RE; Ids._PATH_FILE_D_RE; Ids._PATH_D_RE] "/open")
    with (@None string).
  rewrite parse_qs_lookup, (id_query_values id Hid).
  apply fullmatch_token_spec in Hid. now rewrite Hid.
Qed.

(** Property X7.  A link [http(s)://<host>/open?id=<id>] on a host of the
    service, with [<id>] canonical, resolves to [<id>] as a folder and as a
    file: no path shape matches, and the [id] parameter of the query is
    taken. *)
Theorem open_link_resolves_for_both_kinds sch host id :
  sch = "http"%string \/ sch = "https"%string ->
  Spec.plain_google_host host -> Spec.canonical_id id ->
  Ids.resolve_folder_id (Some (Spec.open_url sch host id)) = Return id /\
  Ids.resolve_file_id (Some (Spec.open_url sch host id)) = Return id.
Proof.
  intros Hsch Hhost Hid. unfold Ids.resolve_folder_id, Ids.resolve_file_id.
  split; now apply resolve_open_url.
Qed.

Lemma document_path_chars id :
  Spec.canonical_id id -> Str.all Spec.path_char ("document/d/" +:+ id +:+ "/edit") = true.
Proof.
  intros Hid. rewrite !all_app.
  rewrite (all_weaken _ _ id id_char_path_char (all_id_chars id Hid)). reflexivity.
Qed.

Lemma document_path_has_no_segment sub id :
  sub = "/file/"%string \/ sub = "/folders/"%string ->
  Spec.canonical_id id ->
  Str.contains sub ("/document/d/" +:+ id +:+ "/edit") = false.
Proof.
  intros Hsub Hid. pose proof (all_id_chars id Hid) as Hall.
  pose proof (canonical_length id Hid) as Hl.
  cbn [String.append].
  destruct Hsub as [-> | ->];
    repeat (rewrite contains_step by reflexivity);
    (rewrite contains_step;
     [rewrite contains_id_skip; [reflexivity|assumption|reflexivity]|]).
  - change (Str.startswith "/file/" (String "/" (id +:+ "/edit")))
      with (Str.startswith "file/" (id +:+ "/edit")).
    apply (startswith_id_false 5); [assumption|lia|reflexivity].
  - change (Str.startswith "/folders/" (String "/" (id +:+ "/edit")))
      with (Str.startswith "folders/" (id +:+ "/edit")).
    apply (startswith_id_false 8); [assumption|lia|reflexivity].
Qed.

Lemma document_path_search_folder id :
  Spec.canonical_id id ->
  Re.search Ids._PATH_FOLDER_RE ("/document/d/" +:+ id +:+ "/edit") = None.
Proof.
  intros Hid. pose proof (all_id_chars id Hid) as Hall.
  pose proof (canonical_length id Hid) as Hl.
  cbn [String.append].
  repeat (rewrite search_step by reflexivity).
  rewrite search_step.
  - rewrite search_id_skip; [reflexivity|assumption|reflexivity].
  - apply match_at_not_prefix.
    change (Str.startswith Ids._PATH_FOLDER_RE (String "/" (id +:+ "/edit")))
      with (Str.startswith "drive/folders/" (id +:+ "/edit")).
    apply (startswith_id_false 10); [assumption|lia|reflexivity].
Qed.

Lemma document_path_search_file id :
  Spec.canonical_id id ->
  Re.search Ids._PATH_FILE_D_RE ("/document/d/" +:+ id +:+ "/edit") = None.
Proof.
  intros Hid. pose proof (all_id_chars id Hid) as Hall.
  pose proof (canonical_length id Hid) as Hl.
  cbn [String.append].
  repeat (rewrite search_step by reflexivity).
  rewrite search_step.
  - rewrite search_id_skip; [reflexivity|assumption|reflexivity].
  - apply match_at_not_prefix.
    change (Str.startswith Ids._PATH_FILE_D_RE (String "/" (id +:+ "/edit")))
      with (Str.startswith "file/d/" (id +:+ "/edit")).
    apply (startswith_id_false 10); [assumption|lia|reflexivity].
Qed.

Lemma document_path_search_d id :
  Spec.canonical_id id ->
  Re.search Ids._PATH_D_RE ("/document/d/" +:+ id +:+ "/edit") = Some id.
Proof.
  intros Hid. cbn [String.append].
  repeat (rewrite search_step by reflexivity).
  apply search_head, match_at_spec. exists "/edit"%string.
  split; [reflexivity|]. split; [assumption|apply no_id_head_slash].
Qed.

(** Property X8.  The kind guard looks for [/file/] and [/folders/] only:
    a document link [http(s)://<host>/document/d/<id>/edit] on a host of the
    service resolves to [<id>] as a file, and as a folder too. *)
Theorem shared_object_link_passes_the_kind_guard sch host id :
  sch = "http"%string \/ sch = "https"%string ->
  Spec.plain_google_host host -> Spec.canonical_id id ->
  Ids.resolve_file_id (Some (Spec.document_url sch host id)) = Return id /\
  Ids.resolve_folder_id (Some (Spec.document_url sch host id)) = Return id.
Proof.
  intros Hsch Hhost Hid. unfold Ids.resolve_folder_id, Ids.resolve_file_id, Spec.document_url.
  rewrite !(resolve_plain sch host _ _ Hsch Hhost (document_path_chars id Hid)).
  change (String "/" ("document/d/" +:+ id +:+ "/edit"))
    with ("/document/d/" +:+ id +:+ "/edit").
  rewrite !(document_path_has_no_segment _ id (or_introl eq_refl) Hid).
  rewrite !(document_path_has_no_segment _ id (or_intror eq_refl) Hid).
  rewrite !andb_false_r. cbn [Ids.first_search].
  rewrite (document_path_search_folder id Hid), (document_path_search_file id Hid),
    (document_path_search_d id Hid). split; reflexivity.
Qed.

Lemma last_char_app a b : b <> EmptyString -> Spec.last_char (a +:+ b) = Spec.last_char b.
Proof.
  intros Hb. induction a as [|c a IH]; [reflexivity|].
  cbn [String.append Spec.last_char]. rewrite IH.
  destruct (a +:+ b) eqn:Hab; [|reflexivity].
  destruct a; [simpl in Hab; contradiction|discriminate].
Qed.

Lemma last_char_lower s :
  Spec.last_char (Str.lower s) = option_map Str.lower_char (Spec.last_char s).
Proof.
  induction s as [|c s IH]; [reflexivity|].
  cbn [Str.lower Spec.last_char]. destruct s as [|d s]; [reflexivity|]. exact IH.
Qed.

Lemma last_char_digit s :
  s <> EmptyString -> Str.all Str.is_digit s = true ->
  exists c, Spec.last_char s = Some c /\ Str.is_digit c = true.
Proof.
  induction s as [|c s IH]; [contradiction|]. intros _ Hs.
  cbn [Str.all] in Hs. apply andb_true_iff in Hs as [Hc Hs].
  destruct s as [|d s]; [now exists c|].
  apply IH; [discriminate|assumption].
Qed.

Lemma digit_lower c : Str.is_digit c = true -> Str.lower_char c <> "m"%char.
Proof. destruct c as [[] [] [] [] [] [] [] []]; vm_compute; congruence. Qed.

Lemma digit_host_char c : Str.is_digit c = true -> Spec.host_char c = true.
Proof. destruct c as [[] [] [] [] [] [] [] []]; vm_compute; congruence. Qed.

Lemma port_is_not_google host port :
  port <> EmptyString -> Str.all Str.is_digit port = true ->
  Str.endswith (Str.lower (host +:+ ":" +:+ port)) "google.com" = false.
Proof.
  intros Hne Hd. apply not_true_is_false. rewrite endswith_spec. intros (pre & Heq).
  apply (f_equal Spec.last_char) in Heq.
  rewrite last_char_lower, (last_char_app pre "google.com") in Heq by discriminate.
  rewrite (last_char_app host (":" +:+ port)) in Heq by discriminate.
  rewrite (last_char_app ":" port Hne) in Heq.
  destruct (last_char_digit port Hne Hd) as (c & Hc & Hdc). rewrite Hc in Heq.
  injection Heq as Heq. now apply (digit_lower c Hdc).
Qed.

(** Property X9.  The host test is made on the whole network location: a
    link that names a port, [http(s)://<host>:<port>/<path>], fails with
    "Expected a Google Drive <kind> link." whatever the host and the path
    are. *)
Theorem link_with_a_port_never_resolves sch host port path expected :
  sch = "http"%string \/ sch = "https"%string ->
  Str.all Spec.host_char host = true -> Str.all Spec.path_char path = true ->
  port <> EmptyString -> Str.all Str.is_digit port = true ->
  Ids._resolve_drive_id (Some (Spec.plain_url sch (host +:+ ":" +:+ port) path)) expected =
    Raise (ValidationError ("Expected a Google Drive " +:+ expected +:+ " link.")).
Proof.
  intros Hsch Hhost Hpath Hne Hd.
  assert (Hh : Str.all Spec.host_char (host +:+ ":" +:+ port) = true).
  { rewrite !all_app, Hhost, (all_weaken _ _ port digit_host_char Hd). reflexivity. }
  unfold Ids._resolve_drive_id.
  rewrite (strip_plain sch _ path Hsch Hh Hpath).
  assert (Hem : Url.is_empty (Spec.plain_url sch (host +:+ ":" +:+ port) path) = false)
    by (destruct Hsch as [-> | ->]; reflexivity).
  rewrite Hem.
  pose proof (plain_url_not_canonical sch (host +:+ ":" +:+ port) path Hsch) as Hnc.
  apply fullmatch_token_false in Hnc. rewrite Hnc.
  rewrite (urlparse_plain sch _ path Hsch Hh Hpath). cbn [and_then Url.scheme Url.netloc].
  assert (Hs : existsb (String.eqb sch) ["http"; "https"]%string = true)
    by (destruct Hsch as [-> | ->]; reflexivity).
  rewrite Hs, (port_is_not_google host port Hne Hd). reflexivity.
Qed.

End MoreLinks.

Section NoLink.
Context `{IpLiteralCheck}.

Lemma has_char_cons c a s : Str.has_char c (String a s) = Ascii.eqb a c || Str.has_char c s.
Proof.
  unfold Str.has_char. cbn [Str.find]. destruct (Ascii.eqb a c); [reflexivity|].
  now destruct (Str.find c s).
Qed.

Lemma has_char_lstrip c p s : Str.has_char c s = false -> Str.has_char c (Str.lstrip p s) = false.
Proof.
  induction s as [|a s IH]; [trivial|]. intros Hs. cbn [Str.lstrip].
  destruct (p a); [|assumption]. rewrite has_char_cons in Hs.
  apply orb_false_iff in Hs as [_ Hs]. auto.
Qed.

Lemma has_char_rstrip c p s : Str.has_char c s = false -> Str.has_char c (Str.rstrip p s) = false.
Proof.
  induction s as [|a s IH]; [trivial|]. intros Hs. cbn [Str.rstrip].
  rewrite has_char_cons in Hs. apply orb_false_iff in Hs as [Ha Hs]. specialize (IH Hs).
  destruct (Str.rstrip p s) as [|b r].
  - destruct (p a); [reflexivity|]. now rewrite has_char_cons, Ha.
  - now rewrite has_char_cons, Ha.
Qed.

Lemma has_char_remove c p s : Str.has_char c s = false -> Str.has_char c (Str.remove p s) = false.
Proof.
  induction s as [|a s IH]; [trivial|]. intros Hs. cbn [Str.remove].
  rewrite has_char_cons in Hs. apply orb_false_iff in Hs as [Ha Hs]. specialize (IH Hs).
  destruct (p a); [assumption|]. now rewrite has_char_cons, Ha.
Qed.

Lemma has_char_strip c s : Str.has_char c s = false -> Str.has_char c (Str.strip s) = false.
Proof. intros Hs. unfold Str.strip. now apply has_char_rstrip, has_char_lstrip. Qed.

Lemma split_scheme_no_colon url :
  Str.has_char ":" url = false -> Url.split_scheme url = (EmptyString, url).
Proof.
  unfold Str.has_char, Url.split_scheme. now destruct (Str.find ":" url).
Qed.

Lemma split_netloc_no_slash url :
  Str.has_char "/" url = false -> Url.split_netloc url = Return (EmptyString, url).
Proof.
  intros Hs. unfold Url.split_netloc.
  destruct url as [|a url]; [reflexivity|].
  rewrite has_char_cons in Hs. apply orb_false_iff in Hs as [Ha _].
  destruct url as [|b url]; cbn [Str.take String.eqb]; now rewrite Ha.
Qed.

Lemma urlparse_no_scheme url :
  Str.has_char ":" url = false -> Str.has_char "/" url = false ->
  exists parsed, Url.urlparse url = Return parsed /\ Url.scheme parsed = EmptyString.
Proof.
  intros Hc Hs. unfold Url.urlparse, Url.urlsplit.
  rewrite split_scheme_no_colon by now apply has_char_remove, has_char_lstrip.
  rewrite split_netloc_no_slash by now apply has_char_remove, has_char_lstrip.
  cbn [and_then].
  destruct (Url.split_at "#" _) as [u fragment]. destruct (Url.split_at "?" u) as [u' query].
  cbn [and_then Url.scheme Url.path].
  destruct (_ && _); [destruct (Url._splitparams u')|]; eexists; split; reflexivity.
Qed.

Lemma resolve_no_link value expected :
  Str.has_char ":" value = false -> Str.has_char "/" value = false ->
  Str.strip value <> EmptyString -> ~ Spec.canonical_id (Str.strip value) ->
  Ids._resolve_drive_id (Some value) expected =
    Raise (ValidationError ("Expected a Google Drive " +:+ expected +:+ " ID or link.")).
Proof.
  intros Hc Hs Hne Hnc. unfold Ids._resolve_drive_id.
  destruct (Str.strip value) as [|a raw] eqn:Hraw; [contradiction|]. cbn [Url.is_empty].
  apply fullmatch_token_false in Hnc. rewrite Hnc.
  destruct (urlparse_no_scheme (String a raw)) as (parsed & -> & Hsch).
  - rewrite <- Hraw. now apply has_char_strip.
  - rewrite <- Hraw. now apply has_char_strip.
  - cbn [and_then]. rewrite Hsch. reflexivity.
Qed.

(** Property X10.  A text without colon and without slash that is no
    canonical ID (a short token such as [root], a file name) is parsed with
    an empty scheme and fails with "Expected a Google Drive <kind> ID or
    link." for both kinds. *)
Theorem text_that_is_no_link_is_rejected value :
  Str.has_char ":" value = false -> Str.has_char "/" value = false ->
  Str.strip value <> EmptyString -> ~ Spec.canonical_id (Str.strip value) ->
  Ids.resolve_folder_id (Some value) =
    Raise (ValidationError "Expected a Google Drive folder ID or link.") /\
  Ids.resolve_file_id (Some value) =
    Raise (ValidationError "Expected a Google Drive file ID or link.").
Proof.
  intros Hc Hs Hne Hnc. unfold Ids.resolve_folder_id, Ids.resolve_file_id.
  split; now apply resolve_no_link.
Qed.

End NoLink.

Section SharedLinks.
Context `{IpLiteralCheck}.

Lemma query_url_no_space sch host path query :
  sch = "http"%string \/ sch = "https"%string ->
  Str.all Spec.host_char host = true -> Str.all Spec.path_char path = true ->
  Str.all Spec.query_char query = true ->
  Str.strip (Spec.query_url sch host path query) = Spec.query_url sch host path query.
Proof.
  intros Hsch Hhost Hpath Hquery. apply strip_no_space. unfold Spec.query_url.
  rewrite !all_app. cbn [Str.all]. rewrite all_app. cbn [Str.all].
  rewrite (all_weaken Spec.host_char _ host) by
    (try assumption; intros x Hx; apply host_char_facts in Hx; now destruct Hx as (_ & -> & _)).
  rewrite (all_weaken Spec.path_char _ path) by
    (try assumption; intros x Hx; apply path_char_facts in Hx; now destruct Hx as (_ & -> & _)).
  rewrite (all_weaken Spec.query_char _ query) by
    (try assumption; intros x Hx; apply query_char_facts in Hx; now destruct Hx as (_ & -> & _)).
  destruct Hsch as [-> | ->]; reflexivity.
Qed.

Lemma resolve_query sch host path query expected :
  sch = "http"%string \/ sch = "https"%string ->
  Spec.plain_google_host host -> Str.all Spec.path_char path = true ->
  Str.all Spec.query_char query = true ->
  Ids._resolve_drive_id (Some (Spec.query_url sch host path query)) expected =
    if String.eqb expected "folder" && Str.contains "/file/" (String "/" path)
    then Raise (ValidationError "Expected folder link/ID, but file link was provided.")
    else if String.eqb expected "file" && Str.contains "/folders/" (String "/" path)
    then Raise (ValidationError "Expected file link/ID, but folder link was provided.")
    else
      match Ids.first_search [Ids._PATH_FOLDER_RE; Ids._PATH_FILE_D_RE; Ids._PATH_D_RE]
              (String "/" path) with
      | Some g => Return g
      | None =>
          match Url.parse_qs query !! "id" with
          | Some (q0 :: _) =>
              if Re.fullmatch_token q0 then Return q0
              else Raise (Ids.could_not_extract expected (Spec.query_url sch host path query))
          | _ => Raise (Ids.could_not_extract expected (Spec.query_url sch host path query))
          end
      end.
Proof.
  intros Hsch [Hhost Hgoogle] Hpath Hquery. unfold Ids._resolve_drive_id.
  rewrite (query_url_no_space sch host path query Hsch Hhost Hpath Hquery).
  assert (Hne : Url.is_empty (Spec.query_url sch host path query) = false)
    by (destruct Hsch as [-> | ->]; reflexivity).
  assert (Hnc : Re.fullmatch_token (Spec.query_url sch host path query) = false)
    by (unfold Re.fullmatch_token; destruct Hsch as [-> | ->]; reflexivity).
  rewrite Hne, Hnc, (urlparse_query sch host path query Hsch Hhost Hpath Hquery).
  cbn [and_then Url.scheme Url.netloc Url.path Url.query].
  assert (Hs : existsb (String.eqb sch) ["http"; "https"]%string = true)
    by (destruct Hsch as [-> | ->]; reflexivity).
  rewrite Hs. apply endswith_spec in Hgoogle. rewrite Hgoogle. reflexivity.
Qed.

(** Property X21.  The query string after a path-shaped link does not
    count: the folder link and the file link of a canonical ID, followed by
    any query string (such as [usp=sharing]), resolve to the ID for their
    own kind and are refused for the other kind. *)
Theorem shared_link_query_is_ignored sch host id query :
  sch = "http"%string \/ sch = "https"%string ->
  Spec.plain_google_host host -> Spec.canonical_id id ->
  Str.all Spec.query_char query = true ->
  Ids.resolve_folder_id (Some (Spec.shared_folder_url sch host id query)) = Return id /\
  Ids.resolve_file_id (Some (Spec.shared_file_url sch host id query)) = Return id /\
  Ids.resolve_file_id (Some (Spec.shared_folder_url sch host id query)) =
    Raise (ValidationError "Expected file link/ID, but folder link was provided.") /\
  Ids.resolve_folder_id (Some (Spec.shared_file_url sch host id query)) =
    Raise (ValidationError "Expected folder link/ID, but file link was provided.").
Proof.
  intros Hsch Hhost Hid Hquery.
  unfold Ids.resolve_folder_id, Ids.resolve_file_id, Spec.shared_folder_url, Spec.shared_file_url.
  rewrite !(resolve_query sch host _ query _ Hsch Hhost (folder_path_chars id Hid) Hquery).
  rewrite !(resolve_query sch host _ query _ Hsch Hhost (file_path_chars id Hid) Hquery).
  change (String "/" ("drive/folders/" +:+ id)) with ("/drive/folders/" +:+ id).
  change (String "/" ("file/d/" +:+ id +:+ "/view")) with ("/file/d/" +:+ id +:+ "/view").
  rewrite (folder_path_has_no_file_segment id Hid), (file_path_has_no_folders_segment id Hid).
  assert (Hfo : Str.contains "/folders/" ("/drive/folders/" +:+ id) = true).
  { apply contains_spec. exists "/drive"%string, id. reflexivity. }
  assert (Hfi : Str.contains "/file/" ("/file/d/" +:+ id +:+ "/view") = true).
  { apply contains_spec. exists ""%string, ("d/" +:+ id +:+ "/view"). reflexivity. }
  rewrite Hfo, Hfi. cbn [String.eqb Ascii.eqb andb Bool.eqb Ids.first_search].
  rewrite (folder_path_search id Hid), (file_path_search_folder id Hid),
    (file_path_search_file id Hid).
  repeat split; reflexivity.
Qed.

End SharedLinks.

(** * The collaborators a command reaches, and the results it prints *)

Section Calls.
Context `{JsonLib} `{IpLiteralCheck} `{Collaborators W}.

Lemma only_calls_ret {A} allowed (a : A) : Spec.only_calls allowed (ret a : M W A).
Proof. intros p r p1 [= <- <-]. exists []. now rewrite app_nil_r. Qed.

Lemma only_calls_raise {A} allowed e : Spec.only_calls allowed (raise e : M W A).
Proof. intros p r p1 [= <- <-]. exists []. now rewrite app_nil_r. Qed.

Lemma only_calls_lift {A} allowed (r : outcome A) : Spec.only_calls allowed (lift r : M W A).
Proof. intros p r' p1 [= <- <-]. exists []. now rewrite app_nil_r. Qed.

Lemma only_calls_echo allowed message : Spec.only_calls allowed (echo message : M W unit).
Proof. intros p r p1 [= <- <-]. exists []. cbn. now rewrite app_nil_r. Qed.

Lemma only_calls_echo_err allowed message : Spec.only_calls allowed (echo_err message : M W unit).
Proof. intros p r p1 [= <- <-]. exists []. cbn. now rewrite app_nil_r. Qed.

Lemma only_calls_call {A} allowed ev (f : W -> outcome A * W) :
  In ev allowed -> Spec.only_calls allowed (call ev f).
Proof.
  intros Hev p r p1. unfold call. destruct (f (world p)). intros [= <- <-].
  exists [ev]. split; [reflexivity|]. now constructor.
Qed.

Lemma only_calls_call_auth {A} allowed ev (f : W -> (string + A) * W) :
  In ev allowed -> Spec.only_calls allowed (call_auth ev f).
Proof. apply only_calls_call. Qed.

Lemma only_calls_bind {A B} allowed (c : M W A) (k : A -> M W B) :
  Spec.only_calls allowed c -> (forall a, Spec.only_calls allowed (k a)) ->
  Spec.only_calls allowed (bind c k).
Proof.
  intros Hc Hk p r p2. unfold bind. destruct (c p) as [[[a|e] p1]|] eqn:Hcp; [| |discriminate].
  - intros Hka. destruct (Hc p _ p1 Hcp) as (evs1 & E1 & F1).
    destruct (Hk a p1 r p2 Hka) as (evs2 & E2 & F2).
    exists (evs1 ++ evs2). split; [now rewrite E2, E1, app_assoc|].
    apply Forall_app; now split.
  - intros [= <- <-]. eapply Hc; eassumption.
Qed.

Lemma only_calls_try {A} allowed (body : M W A) handler :
  Spec.only_calls allowed body ->
  (forall e h, handler e = Some h -> Spec.only_calls allowed h) ->
  Spec.only_calls allowed (try_except body handler).
Proof.
  intros Hb Hh p r p2. unfold try_except.
  destruct (body p) as [[[a|e] p1]|] eqn:Hbp; [| |discriminate].
  - intros [= <- <-]. eapply Hb; eassumption.
  - destruct (Hb p _ p1 Hbp) as (evs1 & E1 & F1).
    destruct (handler e) as [h|] eqn:He.
    + intros Hrun. destruct (Hh e h He p1 r p2 Hrun) as (evs2 & E2 & F2).
      exists (evs1 ++ evs2). split; [now rewrite E2, E1, app_assoc|].
      apply Forall_app; now split.
    + intros [= <- <-]. now exists evs1.
Qed.

Lemma only_calls_command_errors {A} allowed (c : M W A) :
  Spec.only_calls allowed c -> Spec.only_calls allowed (command_errors c).
Proof.
  intros Hc. unfold command_errors. apply only_calls_try; [assumption|].
  intros e h. destruct e; intros [= <-];
    repeat first [ apply only_calls_bind; [|intros ?]
                 | apply only_calls_echo_err | apply only_calls_raise | apply only_calls_lift ].
Qed.

Lemma only_calls_render allowed records fmt csv_path :
  In (EvLocal "write_csv") allowed \/ csv_path = None ->
  Spec.only_calls allowed (render_records records fmt csv_path).
Proof.
  intros Hcsv. unfold render_records. destruct fmt; [apply only_calls_ret|apply only_calls_ret|].
  destruct csv_path; [|apply only_calls_raise].
  destruct Hcsv as [Hin|]; [now apply only_calls_call|discriminate].
Qed.

Lemma only_calls_build allowed write :
  In (EvLoadCredentials write) allowed -> In EvBuild allowed ->
  Spec.only_calls allowed (build_drive_service write).
Proof.
  intros Hl Hb. unfold build_drive_service, load_credentials.
  apply only_calls_bind; [now apply only_calls_call_auth|].
  intros a. now apply only_calls_call.
Qed.

Lemma only_calls_download allowed fuel service file_id destination :
  In (EvRemote "get_media") allowed ->
  Spec.only_calls allowed (download_chunks fuel service file_id destination).
Proof.
  intros Hin. induction fuel as [|fuel IH]; cbn [download_chunks].
  - intros p r p1. discriminate.
  - apply only_calls_bind; [now apply only_calls_call|].
    intros [|]; [apply only_calls_ret|exact IH].
Qed.

Ltac member := cbn [In]; repeat first [left; reflexivity | right]; fail.

Ltac call_steps :=
  repeat first
    [ apply only_calls_command_errors
    | apply only_calls_bind; [|intros ?]
    | apply only_calls_echo
    | apply only_calls_lift
    | apply only_calls_ret
    | apply only_calls_raise
    | apply only_calls_build; [solve [member]|solve [member]]
    | apply only_calls_download; solve [member]
    | apply only_calls_render; first [now right | left; solve [member]]
    | apply only_calls_call; solve [member]
    | apply only_calls_call_auth; solve [member] ].

(** Property X11.  The collaborators each command can reach, whatever its
    input and however the run ends: [auth login] only the login helper,
    [auth whoami] only the stored-credentials query, [doctor], [ls] and
    [download] load credentials without the write scope only, [upload] and
    [trash] with it only; the single remote operation of [ls] is [list], of
    [upload] [create], of [trash] [update], and [download] reads ([get],
    [get_media]) only. *)
Theorem commands_call_only_their_collaborators
    (folder_value file_value output_path csv_path : option string)
    (local_path client_secret : string) (readonly no_launch_browser : bool)
    (output_format : output_format) (fuel : nat) :
  Spec.only_calls [EvLogin] (auth_login client_secret readonly no_launch_browser) /\
  Spec.only_calls [EvStoredCredentialsInfo] (auth_whoami output_format) /\
  Spec.only_calls [EvStoredCredentialsInfo; EvLoadCredentials false; EvBuild; EvRemote "list"]
    doctor /\
  Spec.only_calls [EvLoadCredentials false; EvBuild; EvRemote "list"; EvLocal "write_csv"]
    (list_directory folder_value output_format csv_path) /\
  Spec.only_calls [EvLocal "MediaFileUpload"; EvLoadCredentials true; EvBuild; EvRemote "create"]
    (upload_file local_path folder_value output_format) /\
  Spec.only_calls [EvLoadCredentials false; EvBuild; EvRemote "get"; EvLocal "mkdir";
              EvLocal "open"; EvRemote "get_media"]
    (download_file fuel file_value output_path) /\
  Spec.only_calls [EvLoadCredentials true; EvBuild; EvRemote "update"] (trash_file file_value).
Proof.
  split; [|split; [|split; [|split; [|split; [|split]]]]].
  - unfold auth_login. call_steps.
  - unfold auth_whoami, stored_credentials_info. call_steps. destruct a; call_steps.
  - unfold doctor, stored_credentials_info, load_credentials. cbv zeta.
    apply only_calls_bind; [apply only_calls_lift|intros path].
    apply only_calls_bind.
    { apply only_calls_try; [call_steps|].
      intros e h. destruct e; intros [= <-]; apply only_calls_ret. }
    intros [[info checks] failures].
    apply only_calls_bind; [destruct info; call_steps|intros checks1].
    apply only_calls_bind.
    { apply only_calls_try; [call_steps|].
      intros e h. destruct e; intros [= <-]; apply only_calls_ret. }
    intros [checks' failures'].
    apply only_calls_bind.
    { apply only_calls_try; [call_steps|].
      intros e h [= <-]. apply only_calls_ret. }
    intros [checks2 failures2]. call_steps.
    destruct (negb _); call_steps.
  - unfold list_directory. call_steps.
  - unfold upload_file. call_steps. destruct output_format; call_steps.
  - unfold download_file. call_steps.
  - unfold trash_file. call_steps.
Qed.

End Calls.

Section Runs.
Context `{JsonLib} `{IpLiteralCheck} `{Collaborators W}.

Lemma after_calls_app (p : process W) evs1 w1 evs2 w2 :
  Spec.after_calls (Spec.after_calls p evs1 w1) evs2 w2 = Spec.after_calls p (evs1 ++ evs2) w2.
Proof. unfold Spec.after_calls. cbn. now rewrite app_assoc. Qed.

Lemma bind_return {A B} (c : M W A) (k : A -> M W B) p a p1 :
  c p = Some (Return a, p1) -> bind c k p = k a p1.
Proof. intros Hc. unfold bind. now rewrite Hc. Qed.

Lemma bind_raise {A B} (c : M W A) (k : A -> M W B) p e p1 :
  c p = Some (Raise e, p1) -> bind c k p = Some (Raise e, p1).
Proof. intros Hc. unfold bind. now rewrite Hc. Qed.

Lemma call_run {A} ev (f : W -> outcome A * W) p r w :
  f (world p) = (r, w) -> call ev f p = Some (r, Spec.after_calls p [ev] w).
Proof. intros Hf. unfold call. now rewrite Hf. Qed.

Lemma build_run write p cred w1 svc w2 :
  auth_load_credentials write (world p) = (inr cred, w1) ->
  discovery_build cred w1 = (Return svc, w2) ->
  build_drive_service write p =
    Some (Return svc, Spec.after_calls p [EvLoadCredentials write; EvBuild] w2).
Proof.
  intros Hl Hb. unfold build_drive_service, load_credentials, call_auth.
  rewrite (bind_return _ _ p cred (Spec.after_calls p [EvLoadCredentials write] w1))
    by (apply call_run; now rewrite Hl).
  rewrite (call_run EvBuild _ _ (Return svc) w2) by exact Hb.
  now rewrite after_calls_app.
Qed.

Lemma build_auth_fails write p msg w1 :
  auth_load_credentials write (world p) = (inl msg, w1) ->
  build_drive_service write p =
    Some (Raise (AuthError msg), Spec.after_calls p [EvLoadCredentials write] w1).
Proof.
  intros Hl. unfold build_drive_service, load_credentials, call_auth.
  apply bind_raise, call_run. now rewrite Hl.
Qed.

Lemma lift_run {A} (r : outcome A) (p : process W) : lift r p = Some (r, p).
Proof. reflexivity. Qed.

Lemma bind_lift {A B} (r : outcome A) (k : A -> M W B) p a :
  r = Return a -> bind (lift r) k p = k a p.
Proof. intros ->. reflexivity. Qed.

Lemma bind_call {A B} ev (f : W -> outcome A * W) (k : A -> M W B) p a w :
  f (world p) = (Return a, w) -> bind (call ev f) k p = k a (Spec.after_calls p [ev] w).
Proof. intros Hf. apply bind_return. now apply call_run. Qed.

Lemma bind_build {B} write (k : service -> M W B) p cred w1 svc w2 :
  auth_load_credentials write (world p) = (inr cred, w1) ->
  discovery_build cred w1 = (Return svc, w2) ->
  bind (build_drive_service write) k p =
    k svc (Spec.after_calls p [EvLoadCredentials write; EvBuild] w2).
Proof. intros Hl Hb. apply bind_return. now apply (build_run write p cred w1). Qed.

(** Property X12.  When the locator resolves and loading the credentials
    fails with [AuthError], [ls], [download], [trash] and [upload] end with
    exit code 3 after writing "Auth error: <detail>" to standard error; the
    service is not built and no remote call is made.  [upload] has opened
    the local file before. *)
Theorem credential_failure_stops_before_the_service
    (folder_value file_value output_path csv_path : option string)
    (local_path : string) (output_format : output_format) (fuel : nat)
    (p : process W) (msg : string) :
  (forall id w1, Ids.resolve_folder_id folder_value = Return id ->
     auth_load_credentials false (world p) = (inl msg, w1) ->
     list_directory folder_value output_format csv_path p =
       Some (Raise (Exit AUTH_EXIT_CODE),
             Spec.reported (Spec.after_calls p [EvLoadCredentials false] w1)
               ("Auth error: " +:+ msg))) /\
  (forall id w1, Ids.resolve_file_id file_value = Return id ->
     auth_load_credentials false (world p) = (inl msg, w1) ->
     download_file fuel file_value output_path p =
       Some (Raise (Exit AUTH_EXIT_CODE),
             Spec.reported (Spec.after_calls p [EvLoadCredentials false] w1)
               ("Auth error: " +:+ msg))) /\
  (forall id w1, Ids.resolve_file_id file_value = Return id ->
     auth_load_credentials true (world p) = (inl msg, w1) ->
     trash_file file_value p =
       Some (Raise (Exit AUTH_EXIT_CODE),
             Spec.reported (Spec.after_calls p [EvLoadCredentials true] w1)
               ("Auth error: " +:+ msg))) /\
  (forall id media w0 w1, Ids.resolve_folder_id folder_value = Return id ->
     media_file_upload local_path (world p) = (Return media, w0) ->
     auth_load_credentials true w0 = (inl msg, w1) ->
     upload_file local_path folder_value output_format p =
       Some (Raise (Exit AUTH_EXIT_CODE),
             Spec.reported
               (Spec.after_calls p [EvLocal "MediaFileUpload"; EvLoadCredentials true] w1)
               ("Auth error: " +:+ msg))).
Proof.
  split; [|split; [|split]].
  - intros id w1 Hr Hl. unfold list_directory.
    apply (command_errors_auth _ p (AuthError msg)); [|reflexivity].
    rewrite (bind_return _ _ p id p) by now rewrite Hr.
    now apply bind_raise, build_auth_fails.
  - intros id w1 Hr Hl. unfold download_file.
    apply (command_errors_auth _ p (AuthError msg)); [|reflexivity].
    rewrite (bind_return _ _ p id p) by now rewrite Hr.
    now apply bind_raise, build_auth_fails.
  - intros id w1 Hr Hl. unfold trash_file.
    apply (command_errors_auth _ p (AuthError msg)); [|reflexivity].
    rewrite (bind_return _ _ p id p) by now rewrite Hr.
    now apply bind_raise, build_auth_fails.
  - intros id media w0 w1 Hr Hm Hl. unfold upload_file.
    apply (command_errors_auth _ p (AuthError msg)); [|reflexivity].
    rewrite (bind_return _ _ p id p) by now rewrite Hr.
    rewrite (bind_return _ _ p media (Spec.after_calls p [EvLocal "MediaFileUpload"] w0))
      by now apply call_run.
    rewrite (bind_raise _ _ _ (AuthError msg)
               (Spec.after_calls (Spec.after_calls p [EvLocal "MediaFileUpload"] w0)
                  [EvLoadCredentials true] w1)) by now apply build_auth_fails.
    now rewrite after_calls_app.
Qed.

Lemma download_chunks_transfer service file_id destination w n w' :
  Spec.transfer service file_id destination w n w' ->
  forall p fuel, world p = w -> n <= fuel ->
    download_chunks fuel service file_id destination p =
      Some (Return tt, Spec.after_calls p (repeat (EvRemote "get_media") n) w').
Proof.
  induction 1 as [w w' Hlast|w w1 n w' Hnext Hrest IH]; intros p fuel Hw Hfuel;
    (destruct fuel as [|fuel]; [lia|]); cbn [download_chunks]; subst w.
  - rewrite (bind_return _ _ p true (Spec.after_calls p [EvRemote "get_media"] w'))
      by now apply call_run.
    reflexivity.
  - rewrite (bind_return _ _ p false (Spec.after_calls p [EvRemote "get_media"] w1))
      by now apply call_run.
    rewrite (IH (Spec.after_calls p [EvRemote "get_media"] w1) fuel eq_refl) by lia.
    now rewrite after_calls_app.
Qed.

Lemma download_chunks_returns fuel service file_id destination :
  forall p p', download_chunks fuel service file_id destination p = Some (Return tt, p') ->
    exists n, n <= fuel /\ Spec.transfer service file_id destination (world p) n (world p') /\
      p' = Spec.after_calls p (repeat (EvRemote "get_media") n) (world p').
Proof.
  induction fuel as [|fuel IH]; intros p p'; cbn [download_chunks]; [discriminate|].
  unfold bind at 1, call.
  destruct (next_chunk service file_id destination (world p)) as [[[|]|e] w1] eqn:Hn.
  - intros [= <-]. exists 1. split; [lia|]. split; [now constructor|reflexivity].
  - intros Hrun. destruct (IH _ _ Hrun) as (n & Hle & Ht & Hp).
    exists (S n). split; [lia|]. split; [now apply (Spec.transfer_next _ _ _ _ w1)|].
    rewrite Hp at 1. unfold Spec.after_calls. cbn. now rewrite <- app_assoc.
  - discriminate.
Qed.

Lemma download_chunks_more_fuel fuel service file_id destination :
  forall p r, download_chunks fuel service file_id destination p = Some r ->
    download_chunks (S fuel) service file_id destination p = Some r.
Proof.
  induction fuel as [|fuel IH]; intros p r; [discriminate|].
  change (download_chunks (S (S fuel)) service file_id destination)
    with (bind (call (EvRemote "get_media") (next_chunk service file_id destination))
            (fun done : bool => if done then ret tt
                                else download_chunks (S fuel) service file_id destination)).
  cbn [download_chunks]. unfold bind, call.
  destruct (next_chunk service file_id destination (world p)) as [[[|]|e] w1];
    [trivial|apply IH|trivial].
Qed.

(** Property X13.  The download loop follows the transfer: when the
    transfer ends with its [n]-th chunk and the step budget is at least [n],
    the loop returns after exactly [n] calls of [next_chunk]; a loop that
    returns has seen such a transfer; and the result of a run that ended
    within the budget is the same with any larger budget. *)
Theorem download_loop_follows_the_transfer
    (fuel : nat) (service : service) (file_id destination : string) (p : process W) :
  (forall n w', Spec.transfer service file_id destination (world p) n w' -> n <= fuel ->
     download_chunks fuel service file_id destination p =
       Some (Return tt, Spec.after_calls p (repeat (EvRemote "get_media") n) w')) /\
  (forall p', download_chunks fuel service file_id destination p = Some (Return tt, p') ->
     exists n, n <= fuel /\ Spec.transfer service file_id destination (world p) n (world p') /\
       p' = Spec.after_calls p (repeat (EvRemote "get_media") n) (world p')) /\
  (forall r more, download_chunks fuel service file_id destination p = Some r ->
     download_chunks (fuel + more) service file_id destination p = Some r).
Proof.
  split; [|split].
  - intros n w' Ht Hle. now apply (download_chunks_transfer _ _ _ (world p)).
  - apply download_chunks_returns.
  - intros r more Hrun. induction more as [|more IH].
    + now rewrite Nat.add_0_r.
    + rewrite Nat.add_succ_r. now apply download_chunks_more_fuel.
Qed.

End Runs.

Section Results.
Context `{JsonLib} `{IpLiteralCheck} `{Collaborators W}.

Lemma echo_run message (p : process W) : echo message p = Some (Return tt, Spec.printed p message).
Proof. reflexivity. Qed.

Lemma known_as_path item file_id :
  Spec.name_is_text item ->
  to_path (or_str (dict_get item "name") file_id) = Return (Spec.known_as item file_id) /\
  format_value (or_str (dict_get item "name") file_id) = Spec.known_as item file_id.
Proof.
  unfold Spec.name_is_text, Spec.known_as, dict_get, or_str.
  destruct (item !! "name") as [[]|]; cbn; try contradiction; intros _;
    try (split; reflexivity).
  destruct (Url.is_empty s); split; reflexivity.
Qed.

Lemma bind_download {B} fuel service file_id destination (k : unit -> M W B) p n w' :
  Spec.transfer service file_id destination (world p) n w' -> n <= fuel ->
  bind (download_chunks fuel service file_id destination) k p =
    k tt (Spec.after_calls p (repeat (EvRemote "get_media") n) w').
Proof.
  intros Ht Hfuel. apply bind_return.
  now apply (download_chunks_transfer service file_id destination (world p)).
Qed.

(** Property X14.  A download whose steps all succeed and whose transfer
    ends within the step budget returns after writing "Downloaded <name> to
    <destination>" to standard output, where [<name>] is the remote name, or
    the ID when the metadata has no name, and [<destination>] is the given
    output path, or [<name>] when none (or an empty one) is given.  The
    destination is taken in the current directory, where a path is written
    as its text. *)
Theorem download_writes_to_the_remote_name
    (fuel : nat) (file_value output_path : option string) (p : process W)
    id cred w1 svc w2 metadata w3 destination w4 w5 n w6 :
  Ids.resolve_file_id file_value = Return id ->
  auth_load_credentials false (world p) = (inr cred, w1) ->
  discovery_build cred w1 = (Return svc, w2) ->
  files_get svc id "id,name,mimeType,size" w2 = (Return metadata, w3) ->
  Spec.name_is_text metadata ->
  (output_path = Some destination /\ destination <> EmptyString) \/
  ((output_path = None \/ output_path = Some EmptyString) /\
   destination = Spec.known_as metadata id) ->
  Str.has_char "/" destination = false ->
  mkdir_parents (path_parent destination) w3 = (Return tt, w4) ->
  open_wb destination w4 = (Return tt, w5) ->
  Spec.transfer svc id destination w5 n w6 -> n <= fuel ->
  download_file fuel file_value output_path p =
    Some (Return tt,
          Spec.printed
            (Spec.after_calls p
               ([EvLoadCredentials false; EvBuild; EvRemote "get"; EvLocal "mkdir";
                 EvLocal "open"] ++ repeat (EvRemote "get_media") n) w6)
            ("Downloaded " +:+ Spec.known_as metadata id +:+ " to " +:+ destination)).
Proof.
  intros Hr Hl Hb Hg Hname Hdest _ Hmk Hopen Ht Hfuel. unfold download_file.
  destruct (known_as_path metadata id Hname) as [Hpath Hlabel].
  apply command_errors_return.
  rewrite (bind_lift _ _ p id Hr). cbv beta.
  rewrite (bind_build false _ p cred w1 svc w2 Hl Hb). cbv beta.
  rewrite (bind_call (EvRemote "get") _ _ _ metadata w3) by exact Hg.
  rewrite after_calls_app. cbv beta.
  rewrite (bind_lift _ _ _ destination). cbv beta.
  2:{ destruct Hdest as [[-> Hne]|[[-> | ->] ->]]; [|exact Hpath|exact Hpath].
      destruct destination; [contradiction|reflexivity]. }
  rewrite (bind_call (EvLocal "mkdir") _ _ _ tt w4) by exact Hmk. rewrite after_calls_app. cbv beta.
  rewrite (bind_call (EvLocal "open") _ _ _ tt w5) by exact Hopen.
  rewrite after_calls_app. cbv beta.
  rewrite (bind_download fuel svc id destination _ _ n w6) by assumption. cbv beta.
  rewrite after_calls_app, echo_run, Hlabel. cbn [app]. reflexivity.
Qed.


(** Property X16.  [ls] asks for the children of the resolved folder
    that are not trashed, [root] when no folder is given, and renders one
    row of six columns for each entry of the answer (none when the answer
    has no [files] member), null where an entry lacks a column.  With the
    CSV format the rows go to the given path; without a path the command
    fails with exit code 2, after the remote call was made. *)
Theorem listing_asks_for_the_children_of_the_folder
    (folder_value csv_path : option string) (output_format : output_format)
    (p : process W) folder_id cred w1 svc w2 response w3 :
  Ids.resolve_folder_id folder_value = Return folder_id ->
  auth_load_credentials false (world p) = (inr cred, w1) ->
  discovery_build cred w1 = (Return svc, w2) ->
  files_list svc
    {| list_q := Some ("'" +:+ folder_id +:+ "' in parents and trashed = false");
       list_fields := "files(id,name,mimeType,size,modifiedTime,trashed)";
       list_orderBy := Some "folder,name"; list_pageSize := 1000;
       list_allDrives := true |} w2 = (Return response, w3) ->
  let rows :=
    map (Spec.columns ["id"; "name"; "mimeType"; "size"; "modifiedTime"; "trashed"]%string)
      (default [] response) in
  let listed := Spec.after_calls p [EvLoadCredentials false; EvBuild; EvRemote "list"] w3 in
  (folder_value = None -> folder_id = "root"%string) /\
  (output_format = Table ->
   list_directory folder_value output_format csv_path p =
     Some (Return tt, Spec.printed listed (render_table rows))) /\
  (output_format = Json ->
   list_directory folder_value output_format csv_path p =
     Some (Return tt, Spec.printed listed (render_json rows))) /\
  (forall dest message w4, output_format = Csv -> csv_path = Some dest ->
   write_csv rows dest w3 = (Return message, w4) ->
   list_directory folder_value output_format csv_path p =
     Some (Return tt, Spec.printed (Spec.after_calls listed [EvLocal "write_csv"] w4) message)) /\
  (output_format = Csv -> csv_path = None ->
   list_directory folder_value output_format csv_path p =
     Some (Raise (Exit USER_INPUT_EXIT_CODE),
           Spec.reported listed ("Error: " +:+ csv_path_required))).
Proof.
  intros Hr Hl Hb Hlist rows listed.
  assert (Hbody : forall k : string -> M W unit,
    bind (lift (Ids.resolve_folder_id folder_value))
      (fun folder_id =>
         service <- build_drive_service false ;;
         response <- call (EvRemote "list")
           (files_list service
              {| list_q := Some ("'" +:+ folder_id +:+ "' in parents and trashed = false");
                 list_fields := "files(id,name,mimeType,size,modifiedTime,trashed)";
                 list_orderBy := Some "folder,name"; list_pageSize := 1000;
                 list_allDrives := true |}) ;;
         text <- render_records
           (map (Spec.columns ["id"; "name"; "mimeType"; "size"; "modifiedTime"; "trashed"]%string)
              (default [] response)) output_format csv_path ;;
         k text) p =
    bind (render_records rows output_format csv_path) k listed).
  { intros k. rewrite (bind_lift _ _ p folder_id Hr). cbv beta.
    rewrite (bind_build false _ p cred w1 svc w2 Hl Hb). cbv beta.
    rewrite (bind_call (EvRemote "list") _ _ _ response w3) by exact Hlist. cbv beta.
    now rewrite after_calls_app. }
  split; [intros ->; now injection Hr|].
  unfold list_directory.
  change (fun item : gmap string json =>
            [("id"%string, dict_get item "id"); ("name"%string, dict_get item "name");
             ("mimeType"%string, dict_get item "mimeType"); ("size"%string, dict_get item "size");
             ("modifiedTime"%string, dict_get item "modifiedTime");
             ("trashed"%string, dict_get item "trashed")])
    with (Spec.columns ["id"; "name"; "mimeType"; "size"; "modifiedTime"; "trashed"]%string).
  split; [|split; [|split]].
  - intros ->. apply command_errors_return. now rewrite Hbody.
  - intros ->. apply command_errors_return. now rewrite Hbody.
  - intros dest message w4 -> -> Hw. apply command_errors_return. rewrite Hbody.
    cbn [render_records].
    rewrite (bind_call (EvLocal "write_csv") _ _ listed message w4) by exact Hw. reflexivity.
  - intros -> ->.
    apply (command_errors_invalid_input _ p (ValueError csv_path_required) listed);
      [|reflexivity].
    now rewrite Hbody.
Qed.

(** Property X17.  A [trash] whose steps all succeed sends the single
    update [{"trashed": true}] for the resolved ID and prints "Moved to
    trash: <name> (<id>)", with the ID standing for a missing name. *)
Theorem trash_moves_and_names_the_file
    (file_value : option string) (p : process W) id cred w1 svc w2 item item_id w3 :
  Ids.resolve_file_id file_value = Return id ->
  auth_load_credentials true (world p) = (inr cred, w1) ->
  discovery_build cred w1 = (Return svc, w2) ->
  files_update svc id [("trashed"%string, JBool true)] "id,name,trashed" w2
    = (Return item, w3) ->
  Spec.name_is_text item -> item !! "id" = Some (JStr item_id) ->
  trash_file file_value p =
    Some (Return tt,
          Spec.printed (Spec.after_calls p [EvLoadCredentials true; EvBuild; EvRemote "update"] w3)
            ("Moved to trash: " +:+ Spec.known_as item id +:+ " (" +:+ item_id +:+ ")")).
Proof.
  intros Hr Hl Hb Hu Hname Hid. unfold trash_file.
  destruct (known_as_path item id Hname) as [_ Hlabel].
  apply command_errors_return.
  rewrite (bind_lift _ _ p id Hr). cbv beta.
  rewrite (bind_build true _ p cred w1 svc w2 Hl Hb). cbv beta.
  rewrite (bind_call (EvRemote "update") _ _ _ item w3) by exact Hu.
  rewrite after_calls_app. cbv beta.
  rewrite echo_run, Hlabel. unfold dict_get. rewrite Hid. reflexivity.
Qed.

(** Property X18.  [auth whoami] ends with exit code 2 and a hint to log
    in when no credentials are stored, with exit code 3 when reading them
    fails with [AuthError], and prints otherwise one row with the path, the
    refresh-token flag, the scopes joined by commas and the client ID (empty
    when there is none). *)
Theorem whoami_reports_the_stored_credentials (output_format : output_format) (p : process W) :
  (forall w1, auth_stored_credentials_info (world p) = (inr None, w1) ->
     auth_whoami output_format p =
       Some (Raise (Exit USER_INPUT_EXIT_CODE),
             Spec.reported (Spec.after_calls p [EvStoredCredentialsInfo] w1)
               "Error: No local OAuth credentials found. Run `gdrive auth login --client-secret <path>` first.")) /\
  (forall msg w1, auth_stored_credentials_info (world p) = (inl msg, w1) ->
     auth_whoami output_format p =
       Some (Raise (Exit AUTH_EXIT_CODE),
             Spec.reported (Spec.after_calls p [EvStoredCredentialsInfo] w1)
               ("Auth error: " +:+ msg))) /\
  (forall info w1, auth_stored_credentials_info (world p) = (inr (Some info), w1) ->
     output_format <> Csv ->
     auth_whoami output_format p =
       Some (Return tt,
             Spec.printed (Spec.after_calls p [EvStoredCredentialsInfo] w1)
               ((match output_format with Json => render_json | _ => render_table end)
                  [[("path"%string, JStr (info_path info));
                    ("has_refresh_token"%string, JBool (info_has_refresh_token info));
                    ("scopes"%string, JStr (String.concat "," (info_scopes info)));
                    ("client_id"%string,
                     JStr (match info_client_id info with
                           | Some client => client
                           | None => EmptyString
                           end))]]))).
Proof.
  unfold auth_whoami, stored_credentials_info, call_auth.
  split; [|split].
  - intros w1 Hs.
    apply (command_errors_invalid_input _ p
             (ValidationError "No local OAuth credentials found. Run `gdrive auth login --client-secret <path>` first.")
             (Spec.after_calls p [EvStoredCredentialsInfo] w1)); [|reflexivity].
    rewrite (bind_return _ _ p None (Spec.after_calls p [EvStoredCredentialsInfo] w1))
      by (apply call_run; now rewrite Hs). cbv beta.
    reflexivity.
  - intros msg w1 Hs.
    apply (command_errors_auth _ p (AuthError msg)); [|reflexivity].
    apply bind_raise, call_run. now rewrite Hs.
  - intros info w1 Hs Hfmt. apply command_errors_return.
    rewrite (bind_return _ _ p (Some info) (Spec.after_calls p [EvStoredCredentialsInfo] w1))
      by (apply call_run; now rewrite Hs). cbv beta.
    destruct output_format; [reflexivity|reflexivity|contradiction].
Qed.

End Results.

Section DoctorRows.
Context `{Collaborators W}.

Lemma bounded_call_total (w : W) : exists api evs w', Spec.bounded_call w api evs w'.
Proof.
  destruct (auth_load_credentials false w) as [[detail|cred] w1] eqn:Hl.
  { eexists _, _, _. eapply Spec.bounded_no_credentials; eassumption. }
  destruct (discovery_build cred w1) as [[svc|e] w2] eqn:Hb.
  2:{ eexists _, _, _. eapply Spec.bounded_no_service; eassumption. }
  destruct (files_list svc {| list_q := None; list_fields := "files(id)"; list_orderBy := None;
                              list_pageSize := 1; list_allDrives := false |} w2)
    as [[response|e] w3] eqn:Hlist.
  - eexists _, _, _. eapply Spec.bounded_listing; eassumption.
  - eexists _, _, _. eapply Spec.bounded_no_listing; eassumption.
Qed.

(** The run of [doctor] once the path of the credentials file is known. *)
Lemma doctor_answers (p : process W) path stored w1 refresh w2 api evs w3 :
  credentials_file = Return path ->
  auth_stored_credentials_info (world p) = (stored, w1) ->
  auth_load_credentials false w1 = (refresh, w2) ->
  Spec.bounded_call w2 api evs w3 ->
  doctor p =
    Some (if existsb Spec.is_fail (Spec.verdicts path stored refresh api)
          then Raise (Exit 1) else Return tt,
          Spec.printed
            (Spec.after_calls p
               (EvStoredCredentialsInfo :: EvLoadCredentials false :: evs) w3)
            (render_table (Spec.verdicts path stored refresh api))).
Proof.
  intros Hpath Hs Hl Hcall.
  unfold doctor, build_drive_service, stored_credentials_info, load_credentials,
    render_records, try_except, bind, ret, raise, echo, call_auth, call, lift.
  rewrite Hpath. cbn [stdout stderr calls world].
  rewrite Hs. cbn [auth_outcome stdout stderr calls world].
  destruct stored as [detail|[info|]]; cbn [auth_outcome stdout stderr calls world];
    rewrite ?Hpath; cbn [stdout stderr calls world];
    rewrite Hl; destruct refresh as [detail2|cred2];
    cbn [auth_outcome stdout stderr calls world];
    destruct Hcall as [detail3 wa Hl3|cred3 wa e wb Hl3 Hb|cred3 wa svc wb e wc Hl3 Hb Hlist
                      |cred3 wa svc wb response wc Hl3 Hb Hlist];
    rewrite Hl3; cbn [auth_outcome stdout stderr calls world];
    rewrite ?Hb; cbn [stdout stderr calls world];
    rewrite ?Hlist; cbn [stdout stderr calls world];
    unfold Spec.printed, Spec.after_calls; cbn [stdout stderr calls world];
    rewrite <- ?app_assoc; reflexivity.
Qed.

(** Property X19.  When the path of the credentials file is known, the
    stored credentials are found, the credentials load twice and the
    service is built and answers the listing, [doctor] returns (exit code 0)
    after printing exactly five rows of status "ok", the last one with the
    number of sampled files. *)
Theorem doctor_passes_when_every_check_does (p : process W)
    path info w1 cred w2 cred' w3 svc w4 response w5 :
  credentials_file = Return path ->
  auth_stored_credentials_info (world p) = (inr (Some info), w1) ->
  auth_load_credentials false w1 = (inr cred, w2) ->
  auth_load_credentials false w2 = (inr cred', w3) ->
  discovery_build cred' w3 = (Return svc, w4) ->
  files_list svc {| list_q := None; list_fields := "files(id)"; list_orderBy := None;
                    list_pageSize := 1; list_allDrives := false |} w4
    = (Return response, w5) ->
  doctor p =
    Some (Return tt,
          Spec.printed
            (Spec.after_calls p [EvStoredCredentialsInfo; EvLoadCredentials false;
                            EvLoadCredentials false; EvBuild; EvRemote "list"] w5)
            (render_table
               [check_record "python" "ok" python_version;
                check_record "credentials-path" "ok" path;
                check_record "stored-credentials" "ok" (info_path info);
                check_record "auth-refresh" "ok" "credentials load and refresh succeeded";
                check_record "api-connectivity" "ok"
                  ("files.list succeeded ("
                   +:+ str_int (Z.of_nat (length (default [] response)))
                   +:+ " file(s) sampled)")])).
Proof.
  intros Hpath Hs Hl1 Hl2 Hb Hlist.
  exact (doctor_answers p path _ w1 _ w2 _ _ w5 Hpath Hs Hl1
           (Spec.bounded_listing w2 cred' w3 svc w4 response w5 Hl2 Hb Hlist)).
Qed.

(** Property X20.  [doctor] on failing credentials, with the path of the
    credentials file known: the exit code is 1.  When reading the stored
    credentials fails, the table has two rows for "stored-credentials", a
    "fail" with the detail and the "warn" of missing credentials.  When
    nothing is stored and loading the credentials fails, the rows are the
    "warn", an "auth-refresh" failure and an "api-connectivity" failure,
    each with the loader's detail, and the service is never built. *)
Theorem doctor_reports_credential_failures (p : process W) path :
  credentials_file = Return path ->
  (forall msg w1,
     auth_stored_credentials_info (world p) = (inl msg, w1) ->
     exists rest p',
       doctor p = Some (Raise (Exit 1), p') /\
       stdout p' = stdout p ++
         [render_table
            ([check_record "python" "ok" python_version;
              check_record "credentials-path" "ok" path;
              check_record "stored-credentials" "fail" msg;
              check_record "stored-credentials" "warn"
                ("not found at " +:+ path +:+ " (ADC fallback may still work)")]
             ++ rest)]) /\
  (forall w1 msg w2 msg' w3,
     auth_stored_credentials_info (world p) = (inr None, w1) ->
     auth_load_credentials false w1 = (inl msg, w2) ->
     auth_load_credentials false w2 = (inl msg', w3) ->
     doctor p =
       Some (Raise (Exit 1),
             Spec.printed
               (Spec.after_calls p [EvStoredCredentialsInfo; EvLoadCredentials false;
                               EvLoadCredentials false] w3)
               (render_table
                  [check_record "python" "ok" python_version;
                   check_record "credentials-path" "ok" path;
                   check_record "stored-credentials" "warn"
                     ("not found at " +:+ path
                      +:+ " (ADC fallback may still work)");
                   check_record "auth-refresh" "fail" msg;
                   check_record "api-connectivity" "fail" msg']))).
Proof.
  intros Hpath. split.
  - intros msg w1 Hs.
    destruct (auth_load_credentials false w1) as [refresh w2] eqn:Hl.
    destruct (bounded_call_total w2) as (api & evs & w3 & Hcall).
    rewrite (doctor_answers p path _ w1 _ w2 api evs w3 Hpath Hs Hl Hcall).
    eexists _, _. split; [reflexivity|]. reflexivity.
  - intros w1 msg w2 msg' w3 Hs Hl1 Hl2.
    exact (doctor_answers p path _ w1 _ w2 _ _ w3 Hpath Hs Hl1
             (Spec.bounded_no_credentials w2 msg' w3 Hl2)).
Qed.

(** Property X24.  [doctor] with the path of the credentials file known
    runs every check whatever the earlier ones gave: it asks for the stored
    credentials, refreshes the credentials and makes the bounded remote
    call, then prints one table with the rows of all checks, each row
    following the answer its check got.  The exit code is 1 exactly when an
    answer was a failure, which is exactly when a row reports "fail";
    otherwise [doctor] returns, also when a row reports "warn". *)
Theorem doctor_table_follows_the_answers (p : process W) path stored w1 refresh w2 :
  credentials_file = Return path ->
  auth_stored_credentials_info (world p) = (stored, w1) ->
  auth_load_credentials false w1 = (refresh, w2) ->
  exists api evs w3 res,
    Spec.bounded_call w2 api evs w3 /\
    doctor p =
      Some (res,
            Spec.printed
              (Spec.after_calls p
                 (EvStoredCredentialsInfo :: EvLoadCredentials false :: evs) w3)
              (render_table (Spec.verdicts path stored refresh api))) /\
    let failed :=
      (exists detail, stored = inl detail) \/ (exists detail, refresh = inl detail) \/
      (exists detail, api = inl detail) in
    (res = Raise (Exit 1) <-> failed) /\
    (res = Return tt <-> ~ failed) /\
    (failed <->
     exists c, In c (Spec.verdicts path stored refresh api) /\ Spec.has_status "fail" c).
Proof.
  intros Hpath Hs Hl.
  destruct (bounded_call_total w2) as (api & evs & w3 & Hcall).
  exists api, evs, w3. eexists. split; [exact Hcall|].
  split; [exact (doctor_answers p path stored w1 refresh w2 api evs w3 Hpath Hs Hl Hcall)|].
  cbv zeta. rewrite <- any_fail_spec.
  assert (Hfail : existsb Spec.is_fail (Spec.verdicts path stored refresh api) = true <->
                  (exists detail, stored = inl detail) \/
                  (exists detail, refresh = inl detail) \/
                  (exists detail, api = inl detail)).
  { destruct stored as [d1|[info|]], refresh as [d2|cred], api as [d3|count];
      cbn; split; try discriminate; try (now eauto);
      intros [[d Hd]|[[d Hd]|[d Hd]]]; discriminate. }
  destruct (existsb Spec.is_fail (Spec.verdicts path stored refresh api)).
  - split; [|split].
    + split; [intros _; now apply Hfail|reflexivity].
    + split; [discriminate|]. intros Hno. destruct Hno. now apply Hfail.
    + split; [reflexivity|intros _; now apply Hfail].
  - assert (Hno : ~ ((exists detail, stored = inl detail) \/
                     (exists detail, refresh = inl detail) \/
                     (exists detail, api = inl detail)))
      by (intros Hf; apply Hfail in Hf; discriminate).
    split; [|split].
    + split; [discriminate|]. intros Hf. now destruct Hno.
    + split; [intros _; exact Hno|reflexivity].
    + split; [intros Hf; now destruct Hno|discriminate].
Qed.

End DoctorRows.

Section Diagnostics.
Context `{JsonLib} `{IpLiteralCheck} `{Collaborators W}.

Lemma errs_silent_ret {A} (a : A) : Spec.errs_silent (ret a : M W A).
Proof. intros p r p1 [= <- <-]. reflexivity. Qed.

Lemma errs_silent_raise {A} e : Spec.errs_silent (raise e : M W A).
Proof. intros p r p1 [= <- <-]. reflexivity. Qed.

Lemma errs_silent_lift {A} (r : outcome A) : Spec.errs_silent (lift r : M W A).
Proof. intros p r' p1 [= <- <-]. reflexivity. Qed.

Lemma errs_silent_echo message : Spec.errs_silent (echo message : M W unit).
Proof. intros p r p1 [= <- <-]. reflexivity. Qed.

Lemma errs_silent_call {A} ev (f : W -> outcome A * W) : Spec.errs_silent (call ev f).
Proof. intros p r p1. unfold call. destruct (f (world p)). intros [= <- <-]. reflexivity. Qed.

Lemma errs_silent_call_auth {A} ev (f : W -> (string + A) * W) : Spec.errs_silent (call_auth ev f).
Proof. apply errs_silent_call. Qed.

Lemma errs_silent_bind {A B} (c : M W A) (k : A -> M W B) :
  Spec.errs_silent c -> (forall a, Spec.errs_silent (k a)) -> Spec.errs_silent (bind c k).
Proof.
  intros Hc Hk p r p2. unfold bind. destruct (c p) as [[[a|e] p1]|] eqn:Hcp; [| |discriminate].
  - intros Hka. rewrite (Hk a p1 r p2 Hka). eapply Hc; eassumption.
  - intros [= <- <-]. eapply Hc; eassumption.
Qed.

Lemma errs_silent_render records fmt csv_path :
  Spec.errs_silent (render_records records fmt csv_path).
Proof.
  unfold render_records. destruct fmt; [apply errs_silent_ret|apply errs_silent_ret|].
  destruct csv_path; [apply errs_silent_call|apply errs_silent_raise].
Qed.

Lemma errs_silent_build write : Spec.errs_silent (build_drive_service write).
Proof.
  unfold build_drive_service. apply errs_silent_bind; [apply errs_silent_call_auth|].
  intros a. apply errs_silent_call.
Qed.

Lemma errs_silent_download fuel service file_id destination :
  Spec.errs_silent (download_chunks fuel service file_id destination).
Proof.
  induction fuel as [|fuel IH]; cbn [download_chunks].
  - intros p r p1. discriminate.
  - apply errs_silent_bind; [apply errs_silent_call|].
    intros [|]; [apply errs_silent_ret|exact IH].
Qed.

Lemma diagnosed_command_errors {A} (c : M W A) :
  Spec.errs_silent c -> Spec.diagnosed (command_errors c).
Proof.
  intros Hc p r p2. unfold command_errors, try_except.
  destruct (c p) as [[[a|e] p1]|] eqn:Hcp; [| |discriminate].
  - intros [= <- <-]. rewrite (Hc p _ p1 Hcp). split; [now left|reflexivity].
  - pose proof (Hc p _ p1 Hcp) as Herr.
    destruct e as [m|m|m|m|h|m|code]; cbn;
      try (intros [= <- <-]; rewrite Herr; split; [|discriminate];
           first [ now left
                 | right; eexists; split; [reflexivity|];
                   first [ left; split; [reflexivity|eexists; reflexivity]
                         | right; left; split; [reflexivity|eexists; reflexivity] ] ]).
    unfold bind, lift. destruct (_extract_http_error h) as [message|e']; cbn.
    + intros [= <- <-]. rewrite Herr. split; [|discriminate].
      right. eexists. split; [reflexivity|].
      right. right. split; [reflexivity|]. eexists _, _. reflexivity.
    + intros [= <- <-]. rewrite Herr. split; [now left|discriminate].
Qed.

Ltac err_steps :=
  repeat first
    [ apply errs_silent_bind; [|intros ?]
    | apply errs_silent_echo
    | apply errs_silent_lift
    | apply errs_silent_call
    | apply errs_silent_call_auth
    | apply errs_silent_build
    | apply errs_silent_render
    | apply errs_silent_download
    | apply errs_silent_ret
    | apply errs_silent_raise ].

(** Property X22.  A wrapped command writes one line at most to standard
    error, and none when it returns; a line that is written goes with the
    exit code of the run: "Error: ..." with 2, "Auth error: ..." with 3 and
    "API error (...): ..." with 4. *)
Theorem diagnostics_go_with_exit_codes
    (folder_value file_value output_path csv_path : option string)
    (local_path client_secret : string) (readonly no_launch_browser : bool)
    (output_format : output_format) (fuel : nat) :
  Spec.diagnosed (auth_login client_secret readonly no_launch_browser) /\
  Spec.diagnosed (auth_whoami output_format) /\
  Spec.diagnosed (list_directory folder_value output_format csv_path) /\
  Spec.diagnosed (upload_file local_path folder_value output_format) /\
  Spec.diagnosed (download_file fuel file_value output_path) /\
  Spec.diagnosed (trash_file file_value).
Proof.
  split; [|split; [|split; [|split; [|split]]]].
  - unfold auth_login. apply diagnosed_command_errors. err_steps.
  - unfold auth_whoami, stored_credentials_info. apply diagnosed_command_errors.
    err_steps. destruct a; err_steps.
  - unfold list_directory. apply diagnosed_command_errors. err_steps.
  - unfold upload_file. apply diagnosed_command_errors. err_steps.
    destruct output_format; err_steps.
  - unfold download_file. apply diagnosed_command_errors. err_steps.
  - unfold trash_file. apply diagnosed_command_errors. err_steps.
Qed.

(** Property X23.  A download creates its destination before the
    transfer starts: when the first chunk fails with an [HttpError] whose
    message extraction returns, the command ends with exit code 4 and the
    "API error" line after the parent directory was made and the
    destination opened for writing; no later call removes it. *)
Theorem failed_transfer_leaves_the_destination
    (fuel : nat) (file_value output_path : option string) (p : process W)
    id cred w1 svc w2 metadata w3 destination w4 w5 h message w6 :
  Ids.resolve_file_id file_value = Return id ->
  auth_load_credentials false (world p) = (inr cred, w1) ->
  discovery_build cred w1 = (Return svc, w2) ->
  files_get svc id "id,name,mimeType,size" w2 = (Return metadata, w3) ->
  Spec.name_is_text metadata ->
  (output_path = Some destination /\ destination <> EmptyString) \/
  ((output_path = None \/ output_path = Some EmptyString) /\
   destination = Spec.known_as metadata id) ->
  Str.has_char "/" destination = false ->
  mkdir_parents (path_parent destination) w3 = (Return tt, w4) ->
  open_wb destination w4 = (Return tt, w5) ->
  next_chunk svc id destination w5 = (Raise (HttpError h), w6) ->
  _extract_http_error h = Return message ->
  0 < fuel ->
  download_file fuel file_value output_path p =
    Some (Raise (Exit API_EXIT_CODE),
          Spec.reported
            (Spec.after_calls p
               [EvLoadCredentials false; EvBuild; EvRemote "get"; EvLocal "mkdir";
                EvLocal "open"; EvRemote "get_media"] w6)
            ("API error (" +:+ format_status h +:+ "): " +:+ format_value message)).
Proof.
  intros Hr Hl Hb Hg Hname Hdest _ Hmk Hopen Hchunk Hmsg Hfuel. unfold download_file.
  destruct (known_as_path metadata id Hname) as [Hpath _].
  apply (command_errors_http _ p h _ message); [|exact Hmsg].
  rewrite (bind_lift _ _ p id Hr). cbv beta.
  rewrite (bind_build false _ p cred w1 svc w2 Hl Hb). cbv beta.
  rewrite (bind_call (EvRemote "get") _ _ _ metadata w3) by exact Hg.
  rewrite after_calls_app. cbv beta.
  rewrite (bind_lift _ _ _ destination).
  2:{ destruct Hdest as [[-> Hne]|[[-> | ->] ->]]; [|exact Hpath|exact Hpath].
      destruct destination; [contradiction|reflexivity]. }
  cbv beta.
  rewrite (bind_call (EvLocal "mkdir") _ _ _ tt w4) by exact Hmk.
  rewrite after_calls_app. cbv beta.
  rewrite (bind_call (EvLocal "open") _ _ _ tt w5) by exact Hopen.
  rewrite after_calls_app. cbv beta.
  destruct fuel as [|fuel]; [lia|]. cbn [download_chunks].
  apply bind_raise, bind_raise.
  rewrite (call_run (EvRemote "get_media") _ _ (Raise (HttpError h)) w6) by exact Hchunk.
  now rewrite after_calls_app.
Qed.

End Diagnostics.

(** * The properties on concrete inputs *)

(** X10 on the text [root]. *)
Lemma text_that_is_no_link_is_rejected_witness :
  @Ids.resolve_folder_id Spec.reject_brackets (Some "root") =
    Raise (ValidationError "Expected a Google Drive folder ID or link.") /\
  @Ids.resolve_file_id Spec.reject_brackets (Some "root") =
    Raise (ValidationError "Expected a Google Drive file ID or link.").
Proof.
  apply (@text_that_is_no_link_is_rejected Spec.reject_brackets "root");
    [reflexivity|reflexivity|discriminate|exact root_not_canonical].
Defined.

(** X6 on the ID of the tests between blanks. *)
Lemma surrounding_space_is_ignored_witness :
  @Ids._resolve_drive_id Spec.reject_brackets (Some "  1AbcdefGhIjKlmNop  ") "file"
    = Return Spec.sample_id.
Proof.
  exact (proj2 (@surrounding_space_is_ignored Spec.reject_brackets
                  "  1AbcdefGhIjKlmNop  " "file")
           Spec.sample_id sample_id_canonical eq_refl).
Defined.

(** X7 on the link [https://drive.google.com/open?id=<id>] of the tests. *)
Lemma open_link_resolves_for_both_kinds_witness :
  @Ids.resolve_folder_id Spec.reject_brackets
     (Some (Spec.open_url "https" "drive.google.com" Spec.sample_id)) = Return Spec.sample_id /\
  @Ids.resolve_file_id Spec.reject_brackets
     (Some (Spec.open_url "https" "drive.google.com" Spec.sample_id)) = Return Spec.sample_id.
Proof.
  exact (@open_link_resolves_for_both_kinds Spec.reject_brackets "https" "drive.google.com"
           Spec.sample_id (or_intror eq_refl) google_host_plain sample_id_canonical).
Defined.

(** X8 on a link to a document. *)
Lemma shared_object_link_passes_the_kind_guard_witness :
  @Ids.resolve_file_id Spec.reject_brackets
     (Some (Spec.document_url "https" "docs.google.com" Spec.sample_id)) = Return Spec.sample_id /\
  @Ids.resolve_folder_id Spec.reject_brackets
     (Some (Spec.document_url "https" "docs.google.com" Spec.sample_id)) = Return Spec.sample_id.
Proof.
  refine (@shared_object_link_passes_the_kind_guard Spec.reject_brackets "https"
            "docs.google.com" Spec.sample_id (or_intror eq_refl) _ sample_id_canonical).
  split; [reflexivity|]. exists "docs."%string. reflexivity.
Defined.

(** X9 on a file link with the port 443. *)
Lemma link_with_a_port_never_resolves_witness :
  @Ids._resolve_drive_id Spec.reject_brackets
     (Some (Spec.plain_url "https" ("drive.google.com" +:+ ":" +:+ "443")
              "file/d/1AbcdefGhIjKlmNop/view")) "file"
    = Raise (ValidationError "Expected a Google Drive file link.").
Proof.
  refine (@link_with_a_port_never_resolves Spec.reject_brackets "https" "drive.google.com"
            "443" "file/d/1AbcdefGhIjKlmNop/view" "file" (or_intror eq_refl) _ _ _ _).
  - reflexivity.
  - reflexivity.
  - discriminate.
  - reflexivity.
Defined.

(** X12 on [trash] with credentials that fail to load. *)
Lemma credential_failure_stops_before_the_service_witness :
  @trash_file Spec.sample_json Spec.reject_brackets nat
     (Spec.signed_out "token expired") (Some Spec.sample_id) Spec.three_chunks
  = Some (Raise (Exit 3),
          Spec.reported (Spec.after_calls Spec.three_chunks [EvLoadCredentials true] 3)
            "Auth error: token expired").
Proof.
  exact (proj1 (proj2 (proj2
           (@credential_failure_stops_before_the_service Spec.sample_json
              Spec.reject_brackets nat (Spec.signed_out "token expired")
              None (Some Spec.sample_id) None None "" Table 0 Spec.three_chunks "token expired")))
           Spec.sample_id 3 eq_refl eq_refl).
Defined.

(** A transfer of three chunks. *)
Lemma three_chunks_transfer stored cred service file_id destination :
  @Spec.transfer nat (Spec.sample_drive stored cred Spec.countdown)
     service file_id destination 3 3 0.
Proof.
  apply (@Spec.transfer_next nat (Spec.sample_drive stored cred Spec.countdown)
           service file_id destination 3 2); [reflexivity|].
  apply (@Spec.transfer_next nat (Spec.sample_drive stored cred Spec.countdown)
           service file_id destination 2 1); [reflexivity|].
  apply (@Spec.transfer_last nat (Spec.sample_drive stored cred Spec.countdown)). reflexivity.
Defined.

(** X13 on a transfer of three chunks with a budget of five steps. *)
Lemma download_loop_follows_the_transfer_witness :
  @download_chunks nat Spec.healthy 5 tt Spec.sample_id "remote.txt"
     Spec.three_chunks
  = Some (Return tt,
          Spec.after_calls Spec.three_chunks
            [EvRemote "get_media"; EvRemote "get_media"; EvRemote "get_media"] 0).
Proof.
  refine (proj1 (@download_loop_follows_the_transfer nat Spec.healthy 5 tt
                   Spec.sample_id "remote.txt" Spec.three_chunks) 3 0 _ _).
  - apply three_chunks_transfer.
  - repeat constructor.
Defined.

(** X14 on the download of the tests without a destination. *)
Lemma download_writes_to_the_remote_name_witness :
  @download_file Spec.sample_json Spec.reject_brackets nat Spec.healthy 5
     (Some Spec.sample_id) None Spec.three_chunks
  = Some (Return tt,
          Spec.printed
            (Spec.after_calls Spec.three_chunks
               [EvLoadCredentials false; EvBuild; EvRemote "get"; EvLocal "mkdir";
                EvLocal "open"; EvRemote "get_media"; EvRemote "get_media";
                EvRemote "get_media"] 0)
            "Downloaded remote.txt to remote.txt").
Proof.
  refine (@download_writes_to_the_remote_name Spec.sample_json Spec.reject_brackets nat
            Spec.healthy 5 (Some Spec.sample_id) None Spec.three_chunks
            Spec.sample_id tt 3 tt 3 Spec.sample_file 3 "remote.txt" 3 3 3 0
            eq_refl eq_refl eq_refl eq_refl _ _ eq_refl eq_refl eq_refl _ _).
  - vm_compute. exact I.
  - right. split; [now left|]. vm_compute. reflexivity.
  - apply three_chunks_transfer.
  - repeat constructor.
Defined.


(** X16 on [ls] without a folder. *)
Lemma listing_asks_for_the_children_of_the_folder_witness :
  @list_directory Spec.sample_json Spec.reject_brackets nat Spec.healthy
     None Csv None Spec.three_chunks
  = Some (Raise (Exit 2),
          Spec.reported
            (Spec.after_calls Spec.three_chunks
               [EvLoadCredentials false; EvBuild; EvRemote "list"] 3)
            "Error: csv_path is required").
Proof.
  exact (proj2 (proj2 (proj2 (proj2
           (@listing_asks_for_the_children_of_the_folder Spec.sample_json
              Spec.reject_brackets nat Spec.healthy None None Csv Spec.three_chunks
              "root" tt 3 tt 3 (Some [Spec.sample_file]) 3 eq_refl eq_refl eq_refl eq_refl))))
           eq_refl eq_refl).
Defined.

(** X17 on the ID of the tests. *)
Lemma trash_moves_and_names_the_file_witness :
  @trash_file Spec.sample_json Spec.reject_brackets nat Spec.healthy
     (Some Spec.sample_id) Spec.three_chunks
  = Some (Return tt,
          Spec.printed
            (Spec.after_calls Spec.three_chunks
               [EvLoadCredentials true; EvBuild; EvRemote "update"] 3)
            "Moved to trash: remote.txt (f123)").
Proof.
  refine (@trash_moves_and_names_the_file Spec.sample_json Spec.reject_brackets nat
            Spec.healthy (Some Spec.sample_id) Spec.three_chunks
            Spec.sample_id tt 3 tt 3 Spec.sample_file "f123" 3
            eq_refl eq_refl eq_refl eq_refl _ _).
  - vm_compute. exact I.
  - vm_compute. reflexivity.
Defined.

(** X18 without stored credentials. *)
Lemma whoami_reports_the_stored_credentials_witness :
  @auth_whoami Spec.sample_json nat Spec.healthy Table Spec.three_chunks
  = Some (Raise (Exit 2),
          Spec.reported (Spec.after_calls Spec.three_chunks [EvStoredCredentialsInfo] 3)
            "Error: No local OAuth credentials found. Run `gdrive auth login --client-secret <path>` first.").
Proof.
  exact (proj1 (@whoami_reports_the_stored_credentials Spec.sample_json nat
                  Spec.healthy Table Spec.three_chunks)
           3 eq_refl).
Defined.

(** X19 on the stored credentials of the tests. *)
Lemma doctor_passes_when_every_check_does_witness :
  @doctor nat Spec.signed_in Spec.three_chunks
  = Some (Return tt,
          Spec.printed
            (Spec.after_calls Spec.three_chunks
               [EvStoredCredentialsInfo; EvLoadCredentials false; EvLoadCredentials false;
                EvBuild; EvRemote "list"] 3)
            (@render_table nat Spec.signed_in
               [check_record "python" "ok" "3.12.0";
                check_record "credentials-path" "ok"
                  "/home/user/.config/gdrive-cli/credentials.json";
                check_record "stored-credentials" "ok" "/tmp/creds.json";
                check_record "auth-refresh" "ok" "credentials load and refresh succeeded";
                check_record "api-connectivity" "ok"
                  "files.list succeeded (1 file(s) sampled)"])).
Proof.
  refine (@doctor_passes_when_every_check_does nat Spec.signed_in Spec.three_chunks
            "/home/user/.config/gdrive-cli/credentials.json"
            Spec.sample_info 3 tt 3 tt 3 tt 3 (Some [Spec.sample_file]) 3
            _ eq_refl eq_refl eq_refl eq_refl eq_refl).
  vm_compute. reflexivity.
Defined.

(** X20 with credentials that fail to load. *)
Lemma doctor_reports_credential_failures_witness :
  @doctor nat (Spec.signed_out "bad creds") Spec.three_chunks
  = Some (Raise (Exit 1),
          Spec.printed
            (Spec.after_calls Spec.three_chunks
               [EvStoredCredentialsInfo; EvLoadCredentials false; EvLoadCredentials false] 3)
            (@render_table nat (Spec.signed_out "bad creds")
               [check_record "python" "ok" "3.12.0";
                check_record "credentials-path" "ok"
                  "/home/user/.config/gdrive-cli/credentials.json";
                check_record "stored-credentials" "warn"
                  "not found at /home/user/.config/gdrive-cli/credentials.json (ADC fallback may still work)";
                check_record "auth-refresh" "fail" "bad creds";
                check_record "api-connectivity" "fail" "bad creds"])).
Proof.
  refine (proj2 (@doctor_reports_credential_failures nat
                   (Spec.signed_out "bad creds") Spec.three_chunks
                   "/home/user/.config/gdrive-cli/credentials.json" _)
            3 "bad creds"%string 3 "bad creds"%string 3 eq_refl eq_refl eq_refl).
  vm_compute. reflexivity.
Defined.

(** X24 with credentials that fail to load: the refresh and the bounded
    call fail, nothing is stored, and the exit code is 1. *)
Lemma doctor_table_follows_the_answers_witness :
  exists api evs w3 res,
    @Spec.bounded_call nat (Spec.signed_out "bad creds") 3 api evs w3 /\
    @doctor nat (Spec.signed_out "bad creds") Spec.three_chunks =
      Some (res,
            Spec.printed
              (Spec.after_calls Spec.three_chunks
                 (EvStoredCredentialsInfo :: EvLoadCredentials false :: evs) w3)
              (@render_table nat (Spec.signed_out "bad creds")
                 (@Spec.verdicts nat (Spec.signed_out "bad creds")
                    "/home/user/.config/gdrive-cli/credentials.json"
                    (inr None) (inl "bad creds"%string) api))) /\
    let failed :=
      (exists detail, @inr string (option credentials_info) None = inl detail) \/
      (exists detail, @inl string unit "bad creds"%string = inl detail) \/
      (exists detail, api = inl detail) in
    (res = Raise (Exit 1) <-> failed) /\
    (res = Return tt <-> ~ failed) /\
    (failed <->
     exists c,
       In c (@Spec.verdicts nat (Spec.signed_out "bad creds")
               "/home/user/.config/gdrive-cli/credentials.json"
               (inr None) (inl "bad creds"%string) api) /\
       Spec.has_status "fail" c).
Proof.
  refine (@doctor_table_follows_the_answers nat (Spec.signed_out "bad creds")
            Spec.three_chunks "/home/user/.config/gdrive-cli/credentials.json"
            (inr None) 3 (inl "bad creds"%string) 3 _ eq_refl eq_refl).
  vm_compute. reflexivity.
Defined.

(** X21 on the links the service shares, with [usp=sharing]. *)
Lemma shared_link_query_is_ignored_witness :
  @Ids.resolve_folder_id Spec.reject_brackets
     (Some (Spec.shared_folder_url "https" "drive.google.com" Spec.sample_id "usp=sharing"))
    = Return Spec.sample_id /\
  @Ids.resolve_file_id Spec.reject_brackets
     (Some (Spec.shared_file_url "https" "drive.google.com" Spec.sample_id "usp=sharing"))
    = Return Spec.sample_id /\
  @Ids.resolve_file_id Spec.reject_brackets
     (Some (Spec.shared_folder_url "https" "drive.google.com" Spec.sample_id "usp=sharing"))
    = Raise (ValidationError "Expected file link/ID, but folder link was provided.") /\
  @Ids.resolve_folder_id Spec.reject_brackets
     (Some (Spec.shared_file_url "https" "drive.google.com" Spec.sample_id "usp=sharing"))
    = Raise (ValidationError "Expected folder link/ID, but file link was provided.").
Proof.
  exact (@shared_link_query_is_ignored Spec.reject_brackets "https" "drive.google.com"
           Spec.sample_id "usp=sharing" (or_intror eq_refl) google_host_plain
           sample_id_canonical eq_refl).
Defined.

(** X23 on a transfer that answers 404 at its first chunk. *)
Lemma failed_transfer_leaves_the_destination_witness :
  @download_file Spec.sample_json Spec.reject_brackets nat
     (Spec.sample_drive (inr None) (inr tt)
        (fun w => (Raise (HttpError Spec.not_found_error), w)))
     5 (Some Spec.sample_id) None Spec.three_chunks
  = Some (Raise (Exit 4),
          Spec.reported
            (Spec.after_calls Spec.three_chunks
               [EvLoadCredentials false; EvBuild; EvRemote "get"; EvLocal "mkdir";
                EvLocal "open"; EvRemote "get_media"] 3)
            "API error (404): File not found").
Proof.
  refine (@failed_transfer_leaves_the_destination Spec.sample_json Spec.reject_brackets nat
            (Spec.sample_drive (inr None) (inr tt)
               (fun w => (Raise (HttpError Spec.not_found_error), w)))
            5 (Some Spec.sample_id) None Spec.three_chunks
            Spec.sample_id tt 3 tt 3 Spec.sample_file 3 "remote.txt" 3 3
            Spec.not_found_error (JStr "File not found") 3
            eq_refl eq_refl eq_refl eq_refl _ _ eq_refl eq_refl eq_refl eq_refl _ _).
  - vm_compute. exact I.
  - right. split; [now left|]. vm_compute. reflexivity.
  - vm_compute. reflexivity.
  - repeat constructor.
Defined.
